(** * Assessment metrics of the coach platform

    A shallow embedding of the scoring helpers of [apps/web/src/lib/utils.ts]
    ([calculateBMI], [calculateFMSTotal], [getFMSRiskLevel]) and of the two
    places of the assessment wizard ([apps/web/src/app/clients/[id]/page.tsx])
    that use them: the FMS step with its inline risk display, and
    [handleSubmit], which embeds the FMS total into the posted assessment.

    The definitions then go on to the rest of that code: the YouTube helpers
    and the option lists of [utils.ts], the steps, lists and inputs of the
    wizard, and the places of the other pages that show what these produce.

    A TypeScript [number] is an IEEE 754 binary64 value: it is modelled by
    Rocq's primitive [float], whose operations are the same correctly rounded
    binary64 operations.  A call either returns a value or throws, which is
    the [completion] type below. *)

From Stdlib Require Import ZArith QArith Qround Qabs Qpower Qcanon Lqa.
From Stdlib Require Import Bool List Permutation String Ascii Lia Floats.
Import ListNotations.
Local Open Scope string_scope.

(** ** The JavaScript values and operators the source uses *)

Module JS.

Definition number : Set := float.

Inductive jsError : Set :=
| RangeError (message : string)
| Error (message : string).

Inductive completion (A : Type) : Type :=
| Return (value : A)
| Throw (err : jsError).

Arguments Return {A} value.
Arguments Throw {A} err.

Definition bind {A B : Type} (c : completion A) (k : A -> completion B) : completion B :=
  match c with
  | Return v => k v
  | Throw e => Throw e
  end.

(** [a >= b] on numbers: false as soon as one side is NaN. *)
Definition ge (a b : number) : bool := (b <=? a)%float.

(** [a === b] on numbers: IEEE equality, so [-0 === 0] and [NaN !== NaN]. *)
Definition strict_eq (a b : number) : bool := (a =? b)%float.

(** The mathematical value of a finite number (0 for the others, where the
    callers never ask). *)
Definition MathValue (x : number) : Q :=
  match Prim2SF x with
  | S754_finite s m e =>
      let v := (inject_Z (Zpos m) * Qpower 2 e)%Q in
      if s then Qopp v else v
  | _ => 0%Q
  end.

(** The number value of a rational: the binary64 value nearest to it, ties to
    the even mantissa, infinite beyond the largest finite value.  The rounding
    is the one of the division of two integers. *)
Definition NumberValue (q : Q) : number :=
  let r := Qred q in
  match Qnum r with
  | Z0 => zero
  | Zpos a =>
      SF2Prim (SFdiv prec emax (S754_finite false a 0) (S754_finite false (Qden r) 0))
  | Zneg a =>
      SF2Prim (SFdiv prec emax (S754_finite true a 0) (S754_finite false (Qden r) 0))
  end.

(** An integer as a number, as an integer literal or an integer-valued field
    is. *)
Definition of_Z (z : Z) : number := NumberValue (inject_Z z).

(** *** Decimal digits *)

Definition digit_char (d : Z) : ascii := ascii_of_N (Z.to_N (48 + d)).

Definition is_digit (c : ascii) : bool :=
  (48 <=? N_of_ascii c)%N && (N_of_ascii c <=? 57)%N.

Definition digit_value (c : ascii) : Z := Z.of_N (N_of_ascii c) - 48.

(** A string of digits only. *)
Fixpoint all_digits (s : string) : bool :=
  match s with
  | "" => true
  | String c r => is_digit c && all_digits r
  end.

(** The digits of [n / 10 ^ i], for the [i] of [acc], put before [acc]. *)
Fixpoint decimal_aux (fuel : nat) (n : Z) (acc : string) : string :=
  match fuel with
  | O => acc
  | S fuel' =>
      let acc' := String (digit_char (n mod 10)) acc in
      if (n / 10 =? 0)%Z then acc' else decimal_aux fuel' (n / 10) acc'
  end.

(** The decimal representation of a natural number, without leading zeroes
    ("0" for zero). *)
Definition decimal (n : Z) : string :=
  decimal_aux (S (Z.to_nat (Z.log2 n))) n "".

Fixpoint zeros (k : nat) : string :=
  match k with
  | O => ""
  | S k' => String "0" (zeros k')
  end.

(** The mathematical value of a string of digits. *)
Fixpoint digits_value_from (acc : Z) (s : string) : Z :=
  match s with
  | "" => acc
  | String c r => digits_value_from (10 * acc + digit_value c) r
  end.

Definition digits_value (s : string) : Z := digits_value_from 0 s.

(** *** Number::toString, on the numbers [toFixed] passes to it *)

(** The candidate [s * 10 ^ (n - k)], where [k] is the number of digits of [s]. *)
Definition candidate_value (s : Z) (n : nat) : Q :=
  (inject_Z s * 10 ^ (Z.of_nat n - Z.of_nat (length (decimal s))))%Q.

Definition is_representation (x : number) (s : Z) (n : nat) : bool :=
  PrimFloat.Leibniz.eqb (NumberValue (candidate_value s n)) x.

(** The search of [n], [k] and [s] for an integer [X] of [n0] digits that is
    the value of [x]: the least [k] for which some [s] of [k] digits has
    [s * 10 ^ (n - k)] round to [x]; of two such [s], the one nearer to [X],
    and the even one when they are as near.  With all its [n0] digits, [X]
    itself is found. *)
Fixpoint shortest_digits (fuel k : nat) (x : number) (X : Z) (n0 : nat) : Z * nat :=
  match fuel with
  | O => (X, n0)
  | S fuel' =>
      let p := (10 ^ Z.of_nat (n0 - k))%Z in
      let lo := (X / p)%Z in
      let hi := (lo + 1)%Z in
      let up := if (hi =? 10 ^ Z.of_nat k)%Z then ((10 ^ Z.of_nat (k - 1))%Z, S n0) else (hi, n0) in
      let below := (X - lo * p)%Z in
      let above := (hi * p - X)%Z in
      let lo_ok := is_representation x lo n0 in
      let up_ok := is_representation x (fst up) (snd up) in
      let prefer_lo := ((below <? above) || ((below =? above) && Z.even lo))%Z in
      if lo_ok && (negb up_ok || prefer_lo) then (lo, n0)
      else if up_ok then up
      else shortest_digits fuel' (S k) x X n0
  end.

(** [Number::toString(x)] for a finite [x >= 10 ^ 21]: there [n > 21], and
    the result is the digits of [s], a point after the first one when there
    are several, then [e+] and [n - 1].  [toFixed] asks for no other finite
    number. *)
Definition Number_toString_large (x : number) : string :=
  let X := Qfloor (MathValue x) in
  let n0 := length (decimal X) in
  let (s, n) := shortest_digits (n0 - 1) 1 x X n0 in
  match decimal s with
  | String d rest =>
      let mantissa := match rest with "" => String d "" | _ => String d ("." ++ rest) end in
      mantissa ++ "e+" ++ decimal (Z.of_nat n - 1)
  | "" => ""
  end.

(** *** Number.prototype.toFixed *)

(** The digits of [n] with a point before the last [f] of them, after as many
    leading zeroes as it takes to have a digit before the point. *)
Definition fixed_notation (n : Z) (f : nat) : string :=
  let m := decimal n in
  match f with
  | O => m
  | S _ =>
      let k := length m in
      let m := if (k <=? f)%nat then zeros (f + 1 - k) ++ m else m in
      let k := if (k <=? f)%nat then (f + 1)%nat else k in
      let a := substring 0 (k - f) m in
      let b := substring (k - f) f m in
      a ++ "." ++ b
  end.

(** [x.toFixed(fractionDigits)]: a RangeError for digits outside [0,100]; the
    name of a number that is not finite; [Number::toString] from 10 ^ 21 on;
    and otherwise the integer [n] nearest to [x * 10 ^ f], the larger of two,
    in fixed notation, after the sign. *)
Definition Number_prototype_toFixed (x : number) (fractionDigits : Z) : completion string :=
  if ((fractionDigits <? 0) || (100 <? fractionDigits))%Z then
    Throw (RangeError "toFixed() digits argument must be between 0 and 100")
  else
    let f := Z.to_nat fractionDigits in
    match Prim2SF x with
    | S754_nan => Return "NaN"
    | S754_infinity false => Return "Infinity"
    | S754_infinity true => Return "-Infinity"
    | _ =>
        let r := MathValue x in
        let s := if Qle_bool 0 r then "" else "-" in
        let r := Qabs r in
        if Qle_bool (10 ^ 21) r then
          Return (s ++ Number_toString_large (abs x))
        else
          let n := Qfloor (r * 10 ^ Z.of_nat f + (1 # 2))%Q in
          Return (s ++ fixed_notation n f)
    end.

(** *** Number(string) *)

(** [DecimalDigits] at the head of a string, and what follows them. *)
Fixpoint span_digits (s : string) : string * string :=
  match s with
  | String c r =>
      if is_digit c then let (d, rest) := span_digits r in (String c d, rest)
      else ("", s)
  | "" => ("", "")
  end.

(** [ExponentPart_opt] up to the end of the string: its value, 0 when there
    is none. *)
Definition parse_exponent (s : string) : option Z :=
  match s with
  | "" => Some 0%Z
  | String c r =>
      if (Ascii.eqb c "e" || Ascii.eqb c "E")%bool then
        let (sign, r') :=
          match r with
          | String "+" r' => (1%Z, r')
          | String "-" r' => ((-1)%Z, r')
          | _ => (1%Z, r)
          end in
        match span_digits r' with
        | (String d ds, "") => Some (sign * digits_value (String d ds))%Z
        | _ => None
        end
      else None
  end.

Inductive literal : Set :=
| LitInfinity
| LitDecimal (MV : Q).

(** [StrUnsignedDecimalLiteral], with its mathematical value. *)
Definition parse_unsigned (s : string) : option literal :=
  if String.eqb s "Infinity" then Some LitInfinity
  else
    let (int_part, r) := span_digits s in
    match r with
    | String "." r1 =>
        let (frac_part, r2) := span_digits r1 in
        match int_part ++ frac_part, parse_exponent r2 with
        | String _ _, Some e =>
            Some (LitDecimal (inject_Z (digits_value (int_part ++ frac_part))
                              * 10 ^ (e - Z.of_nat (length frac_part)))%Q)
        | _, _ => None
        end
    | _ =>
        match int_part, parse_exponent r with
        | String _ _, Some e => Some (LitDecimal (inject_Z (digits_value int_part) * 10 ^ e)%Q)
        | _, _ => None
        end
    end.

(** The number of a literal: the one nearest to its mathematical value.
    (ECMAScript lets an engine first round a literal of more than 20
    significant digits to 20 of them; the engines convert exactly.) *)
Definition literal_value (l : literal) : number :=
  match l with
  | LitInfinity => infinity
  | LitDecimal MV => NumberValue MV
  end.

(** [Number(s)] for a string: the value of [s] as a [StrDecimalLiteral], NaN
    when it is none, 0 for the empty string.  White space around the literal
    and the [0x], [0o] and [0b] literals are left out: no string here has
    them. *)
Definition Number (s : string) : number :=
  match s with
  | "" => zero
  | String "-" r =>
      match parse_unsigned r with
      | Some l => (- literal_value l)%float
      | None => nan
      end
  | String "+" r =>
      match parse_unsigned r with
      | Some l => literal_value l
      | None => nan
      end
  | _ =>
      match parse_unsigned s with
      | Some l => literal_value l
      | None => nan
      end
  end.

End JS.

Notation "x <- c ;; k" := (JS.bind c (fun x => k))
  (at level 61, c at next level, right associativity).

(** ** [apps/web/src/lib/utils.ts] *)

Module Utils.
Import JS.
Local Open Scope float_scope.

(** [const heightM = heightCm / 100;
     return Number((weightKg / (heightM * heightM)).toFixed(1));] *)
Definition calculateBMI (weightKg heightCm : number) : completion number :=
  let heightM := heightCm / 100 in
  fixed <- Number_prototype_toFixed (weightKg / (heightM * heightM)) 1 ;;
  Return (Number fixed).

(** An object whose properties hold numbers, as [Object.values] sees it: its
    own enumerable properties, name and value, in the order of enumeration
    (for names that are not array indexes, the order in which the properties
    were created).  The names of an object are distinct. *)
Definition ScoresObject : Type := list (string * number).

(** The declared type of the argument of [calculateFMSTotal]: [FMSScores]
    without [total_score]. *)
Record FMSSubScores : Set := {
  deep_squat : number;
  hurdle_step : number;
  inline_lunge : number;
  shoulder_mobility : number;
  active_straight_leg_raise : number;
  trunk_stability_pushup : number;
  rotary_stability : number
}.

(** A value of that type as the page builds it: the object literal of the
    initial state lists the seven properties in the order of the declaration,
    and the spread [{ ...fmsScores, [key]: score }] keeps that order.  A value
    of the record type is read as this object wherever an object is
    expected. *)
Definition properties (scores : FMSSubScores) : ScoresObject :=
  [ ("deep_squat", deep_squat scores);
    ("hurdle_step", hurdle_step scores);
    ("inline_lunge", inline_lunge scores);
    ("shoulder_mobility", shoulder_mobility scores);
    ("active_straight_leg_raise", active_straight_leg_raise scores);
    ("trunk_stability_pushup", trunk_stability_pushup scores);
    ("rotary_stability", rotary_stability scores) ].

Coercion properties : FMSSubScores >-> ScoresObject.

(** [Object.values(scores)]: the values of the properties, in the order of
    enumeration; any object can reach it, whatever the declared type says. *)
Definition Object_values (scores : ScoresObject) : list number := map snd scores.

(** [Object.values(scores).reduce((sum, score) => sum + score, 0)] *)
Definition calculateFMSTotal (scores : ScoresObject) : completion number :=
  Return (fold_left (fun sum score => (sum + score)%float) (Object_values scores) 0%float).

Inductive RiskBand : Set := low | moderate | high.

Record RiskLevel : Set := {
  level : RiskBand;
  label : string;
  color : string
}.

Definition getFMSRiskLevel (totalScore : number) : completion RiskLevel :=
  if ge totalScore 15 then
    Return {| level := low; label := "Low Risk"; color := "text-green-600" |}
  else if ge totalScore 12 then
    Return {| level := moderate; label := "Moderate Risk"; color := "text-yellow-600" |}
  else
    Return {| level := high; label := "High Risk"; color := "text-red-600" |}.

End Utils.

(** ** [apps/web/src/app/clients/[id]/page.tsx]: the assessment wizard *)

Module AssessmentPage.
Import JS Utils.
Local Open Scope float_scope.

Record BodyMetrics : Set := {
  height_cm : number;
  weight_kg : number;
  body_fat_percentage : option number
}.

Record FMSScores : Set := {
  fms_deep_squat : number;
  fms_hurdle_step : number;
  fms_inline_lunge : number;
  fms_shoulder_mobility : number;
  fms_active_straight_leg_raise : number;
  fms_trunk_stability_pushup : number;
  fms_rotary_stability : number;
  total_score : number
}.

(** The seven sub-score fields of a stored FMS record. *)
Definition sub_scores (f : FMSScores) : FMSSubScores :=
  {| deep_squat := fms_deep_squat f;
     hurdle_step := fms_hurdle_step f;
     inline_lunge := fms_inline_lunge f;
     shoulder_mobility := fms_shoulder_mobility f;
     active_straight_leg_raise := fms_active_straight_leg_raise f;
     trunk_stability_pushup := fms_trunk_stability_pushup f;
     rotary_stability := fms_rotary_stability f |}.

(** The form state the claims are about; the other sections of the form are
    strings and lists that are posted as they are. *)
Record FormState : Set := {
  bodyMetrics : BodyMetrics;
  fmsScores : FMSSubScores
}.

Definition initialState : FormState :=
  {| bodyMetrics := {| height_cm := 170; weight_kg := 70; body_fat_percentage := None |};
     fmsScores := {| deep_squat := 2; hurdle_step := 2; inline_lunge := 2;
                     shoulder_mobility := 2; active_straight_leg_raise := 2;
                     trunk_stability_pushup := 2; rotary_stability := 2 |} |}.

(** The keys of the seven rows of the FMS step. *)
Inductive FmsKey : Set :=
| key_deep_squat | key_hurdle_step | key_inline_lunge | key_shoulder_mobility
| key_active_straight_leg_raise | key_trunk_stability_pushup | key_rotary_stability.

(** The buttons of a row: [[0, 1, 2, 3].map((score) => <button ...>)]. *)
Definition scoreButtons : list number := [0; 1; 2; 3]%float.

(** [{ ...fmsScores, [key]: score }] *)
Definition withScore (s : FMSSubScores) (key : FmsKey) (score : number) : FMSSubScores :=
  match key with
  | key_deep_squat =>
      {| deep_squat := score; hurdle_step := hurdle_step s; inline_lunge := inline_lunge s;
         shoulder_mobility := shoulder_mobility s;
         active_straight_leg_raise := active_straight_leg_raise s;
         trunk_stability_pushup := trunk_stability_pushup s;
         rotary_stability := rotary_stability s |}
  | key_hurdle_step =>
      {| deep_squat := deep_squat s; hurdle_step := score; inline_lunge := inline_lunge s;
         shoulder_mobility := shoulder_mobility s;
         active_straight_leg_raise := active_straight_leg_raise s;
         trunk_stability_pushup := trunk_stability_pushup s;
         rotary_stability := rotary_stability s |}
  | key_inline_lunge =>
      {| deep_squat := deep_squat s; hurdle_step := hurdle_step s; inline_lunge := score;
         shoulder_mobility := shoulder_mobility s;
         active_straight_leg_raise := active_straight_leg_raise s;
         trunk_stability_pushup := trunk_stability_pushup s;
         rotary_stability := rotary_stability s |}
  | key_shoulder_mobility =>
      {| deep_squat := deep_squat s; hurdle_step := hurdle_step s;
         inline_lunge := inline_lunge s; shoulder_mobility := score;
         active_straight_leg_raise := active_straight_leg_raise s;
         trunk_stability_pushup := trunk_stability_pushup s;
         rotary_stability := rotary_stability s |}
  | key_active_straight_leg_raise =>
      {| deep_squat := deep_squat s; hurdle_step := hurdle_step s;
         inline_lunge := inline_lunge s; shoulder_mobility := shoulder_mobility s;
         active_straight_leg_raise := score;
         trunk_stability_pushup := trunk_stability_pushup s;
         rotary_stability := rotary_stability s |}
  | key_trunk_stability_pushup =>
      {| deep_squat := deep_squat s; hurdle_step := hurdle_step s;
         inline_lunge := inline_lunge s; shoulder_mobility := shoulder_mobility s;
         active_straight_leg_raise := active_straight_leg_raise s;
         trunk_stability_pushup := score;
         rotary_stability := rotary_stability s |}
  | key_rotary_stability =>
      {| deep_squat := deep_squat s; hurdle_step := hurdle_step s;
         inline_lunge := inline_lunge s; shoulder_mobility := shoulder_mobility s;
         active_straight_leg_raise := active_straight_leg_raise s;
         trunk_stability_pushup := trunk_stability_pushup s;
         rotary_stability := score |}
  end.

(** The click handler of a score button: [setFmsScores({ ...fmsScores, [key]: score })]. *)
Definition setFmsScore (st : FormState) (key : FmsKey) (score : number) : FormState :=
  {| bodyMetrics := bodyMetrics st; fmsScores := withScore (fmsScores st) key score |}.

(** The states of the FMS step: the initial one, and those a click on one of
    the offered buttons leads to. *)
Inductive reachable : FormState -> Prop :=
| reachable_initial : reachable initialState
| reachable_click st key score :
    reachable st -> In score scoreButtons -> reachable (setFmsScore st key score).

(** The inline risk display of the FMS step, as a function of the displayed
    total: the class of the total and the sentence under it.
    [total >= 14 ? "text-green-600" : total >= 12 ? "text-yellow-600" : "text-red-600"] *)
Definition inlineRiskColor (total : number) : string :=
  if ge total 14 then "text-green-600"
  else if ge total 12 then "text-yellow-600"
  else "text-red-600".

Definition inlineRiskText (total : number) : string :=
  if ge total 14 then "Low injury risk"
  else if ge total 12 then "Moderate injury risk"
  else "Higher injury risk - consider corrective exercises".

(** What the FMS step shows for the current scores; every use of the total in
    the markup is a fresh [calculateFMSTotal(fmsScores)]. *)
Definition fmsStepDisplay (s : FMSSubScores) : completion (string * string) :=
  shown <- calculateFMSTotal s ;;
  Return (inlineRiskColor shown, inlineRiskText shown).

Record Session : Set := { access_token : string }.

(** The posted [assessmentData], restricted to the sections of [FormState]. *)
Record AssessmentData : Set := {
  assessment_date : string;
  body_metrics : BodyMetrics;
  fms_scores : FMSScores
}.

(** [{ ...fmsScores, total_score: total }] *)
Definition withTotal (s : FMSSubScores) (total : number) : FMSScores :=
  {| fms_deep_squat := deep_squat s;
     fms_hurdle_step := hurdle_step s;
     fms_inline_lunge := inline_lunge s;
     fms_shoulder_mobility := shoulder_mobility s;
     fms_active_straight_leg_raise := active_straight_leg_raise s;
     fms_trunk_stability_pushup := trunk_stability_pushup s;
     fms_rotary_stability := rotary_stability s;
     total_score := total |}.

(** The [try] block of [handleSubmit] up to the request: it throws without a
    session, and otherwise builds the body that is posted.  [now] is
    [new Date().toISOString()]. *)
Definition handleSubmit (session : option Session) (now : string) (st : FormState)
  : completion AssessmentData :=
  match session with
  | None => Throw (Error "Not authenticated")
  | Some _ =>
      total <- calculateFMSTotal (fmsScores st) ;;
      Return {| assessment_date := now;
                body_metrics := bodyMetrics st;
                fms_scores := withTotal (fmsScores st) total |}
  end.

End AssessmentPage.

Import JS Utils AssessmentPage.


(** ** The words of the specification *)

Module Spec.
Import JS Utils.

(** A call that returns, with a result that satisfies [P]. *)
Definition returns {A : Type} (c : completion A) (P : A -> Prop) : Prop :=
  match c with
  | Return v => P v
  | Throw _ => False
  end.

(** [x] is the integer [z], in the sense of [===]. *)
Definition is_integer (x : number) (z : Z) : Prop := strict_eq x (of_Z z) = true.

(** The integer an integer-valued number stands for. *)
Definition integer_value (x : number) : Z := Qfloor (MathValue x).

(** "seven integers in [0,3]" *)
Definition valid_score (x : number) : Prop := exists z, (0 <= z <= 3)%Z /\ is_integer x z.

(** The names of the seven sub-scores. *)
Definition score_names : list string :=
  [ "deep_squat"; "hurdle_step"; "inline_lunge"; "shoulder_mobility";
    "active_straight_leg_raise"; "trunk_stability_pushup"; "rotary_stability" ].

(** [scores[name]]: the value of the property of that name, [None] when the
    object has none. *)
Fixpoint property (scores : ScoresObject) (name : string) : option number :=
  match scores with
  | [] => None
  | (key, score) :: rest =>
      if String.eqb key name then Some score else property rest name
  end.

(** "seven-field FMS score record": an object that has the seven sub-scores
    and no other property, in whatever order. *)
Definition seven_fields (scores : ScoresObject) : Prop :=
  Permutation (map fst scores) score_names.

(** "whose sub-scores are each integers in [0,3]" *)
Definition valid_scores (scores : ScoresObject) : Prop :=
  seven_fields scores /\
  forall name, In name score_names ->
    exists score, property scores name = Some score /\ valid_score score.

(** The integer that a field holds (0 where the object has no such field). *)
Definition field (scores : ScoresObject) (name : string) : Z :=
  match property scores name with
  | Some score => integer_value score
  | None => 0%Z
  end.

(** "sum of the seven fields", over the integers: each field by its name. *)
Definition sum_of_fields (scores : ScoresObject) : Z :=
  (field scores "deep_squat" + field scores "hurdle_step" + field scores "inline_lunge"
   + field scores "shoulder_mobility" + field scores "active_straight_leg_raise"
   + field scores "trunk_stability_pushup" + field scores "rotary_stability")%Z.

(** "the sum of the persisted sub-scores": the seven sub-score fields of a
    stored FMS record, each by its name. *)
Definition stored_sum (f : FMSScores) : Z :=
  (integer_value (fms_deep_squat f) + integer_value (fms_hurdle_step f)
   + integer_value (fms_inline_lunge f) + integer_value (fms_shoulder_mobility f)
   + integer_value (fms_active_straight_leg_raise f)
   + integer_value (fms_trunk_stability_pushup f)
   + integer_value (fms_rotary_stability f))%Z.

(** The bands from the worst to the best. *)
Definition band_rank (band : RiskBand) : Z :=
  match band with
  | high => 0%Z
  | moderate => 1%Z
  | low => 2%Z
  end.

(** Neither NaN nor an infinity. *)
Definition is_finite (x : number) : bool :=
  match Prim2SF x with
  | S754_zero _ | S754_finite _ _ _ => true
  | _ => false
  end.

(** "rounded to one decimal place": the nearest multiple of one tenth, a half
    going away from zero, as a number; what is not finite has no decimals to
    round. *)
Definition round_to_one_decimal (x : number) : number :=
  match Prim2SF x with
  | S754_nan | S754_infinity _ => x
  | _ =>
      let r := MathValue x in
      let tenths := Qfloor (Qabs r * 10 + (1 # 2))%Q in
      let v := NumberValue (inject_Z tenths / 10)%Q in
      if Qle_bool 0 r then v else (- v)%float
  end.

(** What [calculateBMI] computes, read without the strings: the quotient of
    the code, with each of its operations rounded to binary64, then rounded
    to one decimal place.  This is the arithmetic of the code, not the
    formula of the specification, which is [exact_BMI] below. *)
Definition binary64_BMI (weightKg heightCm : number) : number :=
  let heightM := (heightCm / 100)%float in
  round_to_one_decimal (weightKg / (heightM * heightM))%float.

(** "BMI = weight / (height in meters)^2", over the rationals, for a weight
    and a height that are integers. *)
Definition exact_BMI (weightKg heightCm : Z) : Q :=
  (inject_Z weightKg / ((inject_Z heightCm / 100) * (inject_Z heightCm / 100)))%Q.

(** "rounded to one decimal place", for an exact value that is not negative:
    the number of tenths, with a half going up, and with a half going down. *)
Definition tenths_half_up (q : Q) : Z := Qfloor (q * 10 + (1 # 2))%Q.
Definition tenths_half_down (q : Q) : Z := Qceiling (q * 10 - (1 # 2))%Q.

(** The integers from [lo], [n] of them. *)
Definition Zrange (lo : Z) (n : nat) : list Z := map (fun i => (lo + Z.of_nat i)%Z) (seq 0 n).

(** A natural number below 2 ^ 53 as a number, by the primitive conversion. *)
Definition small_number (z : Z) : number := of_uint63 (Uint63Axioms.of_Z z).

(** For an integer weight and height: the quotient that [calculateBMI]
    computes is a positive number [m / 2 ^ k], and its tenths [n], the
    integer part of [10 * m / 2 ^ k + 1 / 2], are within one twentieth of the
    exact index [10000 * weightKg / heightCm ^ 2]. *)
Definition nearest_tenth_check (weightKg heightCm : Z) : bool :=
  let heightM := (small_number heightCm / 100)%float in
  match Prim2SF (small_number weightKg / (heightM * heightM))%float with
  | S754_finite false m (Zneg k) =>
      let n := Z.shiftr (20 * Zpos m + Z.shiftl 1 (Zpos k)) (Zpos k + 1) in
      (Z.abs (2 * n * (heightCm * heightCm) - 200000 * weightKg) <=? heightCm * heightCm)%Z
  | _ => false
  end.

(** The three results of [getFMSRiskLevel]. *)
Definition lowRisk : RiskLevel :=
  {| level := low; label := "Low Risk"; color := "text-green-600" |}.
Definition moderateRisk : RiskLevel :=
  {| level := moderate; label := "Moderate Risk"; color := "text-yellow-600" |}.
Definition highRisk : RiskLevel :=
  {| level := high; label := "High Risk"; color := "text-red-600" |}.

End Spec.

(** ** Inputs of the examples *)

Module Inputs.
Import JS Utils AssessmentPage.
Local Open Scope float_scope.

(** The initial scores of the form: seven twos. *)
Definition allTwos : FMSSubScores := fmsScores initialState.

(** One sub-score of 4 among twos. *)
Definition oneFour : FMSSubScores :=
  {| deep_squat := 4; hurdle_step := 2; inline_lunge := 2;
     shoulder_mobility := 2; active_straight_leg_raise := 2;
     trunk_stability_pushup := 2; rotary_stability := 2 |}.

(** The sub-score of 4 as the last property. *)
Definition fourLast : ScoresObject :=
  [ ("hurdle_step", 2); ("inline_lunge", 2); ("shoulder_mobility", 2);
    ("active_straight_leg_raise", 2); ("trunk_stability_pushup", 2);
    ("rotary_stability", 2); ("deep_squat", 4) ].

(** Valid scores in an object whose properties were created in another
    order. *)
Definition otherOrder : ScoresObject :=
  [ ("rotary_stability", 3); ("deep_squat", 0); ("inline_lunge", 1); ("hurdle_step", 3);
    ("trunk_stability_pushup", 2); ("active_straight_leg_raise", 1);
    ("shoulder_mobility", 0) ].

(** The same seven fields in two orders, with 2 ^ 53 as the last and as the
    first of them. *)
Definition largeLast : FMSSubScores :=
  {| deep_squat := 1; hurdle_step := 1; inline_lunge := 0;
     shoulder_mobility := 0; active_straight_leg_raise := 0;
     trunk_stability_pushup := 0; rotary_stability := 0x1p53 |}.

Definition largeFirst : ScoresObject :=
  [ ("rotary_stability", 0x1p53); ("deep_squat", 1); ("hurdle_step", 1);
    ("inline_lunge", 0); ("shoulder_mobility", 0); ("active_straight_leg_raise", 0);
    ("trunk_stability_pushup", 0) ].

Definition someSession : Session := {| access_token := "token" |}.

Definition someDate : string := "2025-01-01T00:00:00.000Z".

End Inputs.

Import JS Utils AssessmentPage Spec Inputs.
Local Open Scope Z_scope.


(** ** Strings and arrays: the built-ins the pages use

    A string is a sequence of code units below 256, a [string] of Rocq. *)

Module Text.
Import JS.

(** The code units that [String.prototype.trim] strips and that [\s] matches
    (WhiteSpace and LineTerminator), among those below 256:
    TAB, LF, VT, FF, CR, SP and NBSP. *)
Definition is_white_space (c : ascii) : bool :=
  let n := N_of_ascii c in
  ((9 <=? n) && (n <=? 13) || (n =? 32) || (n =? 160))%N.

(** LineTerminator, which [.] does not match: LF and CR. *)
Definition is_line_terminator (c : ascii) : bool :=
  let n := N_of_ascii c in
  ((n =? 10) || (n =? 13))%N.

Fixpoint trimStart (s : string) : string :=
  match s with
  | EmptyString => EmptyString
  | String c rest => if is_white_space c then trimStart rest else s
  end.

Fixpoint trimEnd (s : string) : string :=
  match s with
  | EmptyString => EmptyString
  | String c rest =>
      match trimEnd rest with
      | EmptyString => if is_white_space c then EmptyString else String c EmptyString
      | kept => String c kept
      end
  end.

(** [s.trim()] *)
Definition trim (s : string) : string := trimEnd (trimStart s).

(** Nothing but white space, as the empty string is. *)
Fixpoint is_blank (s : string) : bool :=
  match s with
  | EmptyString => true
  | String c rest => is_white_space c && is_blank rest
  end.

(** ToBoolean of a string: only the empty string is falsy. *)
Definition truthy_string (s : string) : bool :=
  match s with
  | EmptyString => false
  | String _ _ => true
  end.

(** ToBoolean of a number: [0], [-0] and [NaN] are falsy. *)
Definition truthy_number (x : number) : bool :=
  match Prim2SF x with
  | S754_zero _ | S754_nan => false
  | _ => true
  end.

(** [arr.includes(x)] on an array of strings. *)
Definition includes (arr : list string) (x : string) : bool :=
  existsb (String.eqb x) arr.

(** [arr.filter((i) => i !== x)] *)
Definition without (arr : list string) (x : string) : list string :=
  filter (fun i => negb (String.eqb i x)) arr.

(** [arr.length] *)
Definition array_length {A : Type} (arr : list A) : number :=
  of_Z (Z.of_nat (List.length arr)).

(** [arr[i]] for a number [i]: the element when [i] is an integer below the
    length ([-0] is the index 0), [undefined] otherwise. *)
Definition array_get {A : Type} (arr : list A) (i : number) : option A :=
  match Prim2SF i with
  | S754_zero _ => nth_error arr 0
  | S754_finite false _ _ =>
      let q := Qred (MathValue i) in
      if (Zpos (Qden q) =? 1)%Z && (Qnum q <? Z.of_nat (List.length arr))%Z
      then nth_error arr (Z.to_nat (Qnum q))
      else None
  | _ => None
  end.

(** *** Regular expressions

    The fragment the source uses: literals, character classes, greedy [*], [+]
    and [{n}] of a class, sequence, alternation, a greedy optional group and
    the capturing group 1.  Matching is the backtracking of the language
    definition, written with a continuation: [k] is what has to match after
    the pattern, and receives the rest of the input and the capture. *)

Inductive regex : Type :=
| Lit (text : string)
| Class (p : ascii -> bool)
| Star (p : ascii -> bool)
| Plus (p : ascii -> bool)
| Times (n : nat) (p : ascii -> bool)
| Seq (r1 r2 : regex)
| Alt (r1 r2 : regex)
| Opt (r : regex)
| Group (r : regex).

Fixpoint strip_prefix (text s : string) : option string :=
  match text with
  | EmptyString => Some s
  | String a text' =>
      match s with
      | String c s' => if Ascii.eqb a c then strip_prefix text' s' else None
      | EmptyString => None
      end
  end.

Definition or_else {A : Type} (first second : option A) : option A :=
  match first with
  | Some v => Some v
  | None => second
  end.

Section Matcher.
Variable A : Type.

(** Greedy [p*]: the longest run first, then shorter ones. *)
Fixpoint match_star (p : ascii -> bool) (s : string) (k : string -> option A) : option A :=
  match s with
  | String c s' => if p c then or_else (match_star p s' k) (k s) else k s
  | EmptyString => k s
  end.

Fixpoint match_times (n : nat) (p : ascii -> bool) (s : string) (k : string -> option A)
  : option A :=
  match n with
  | O => k s
  | S n' =>
      match s with
      | String c s' => if p c then match_times n' p s' k else None
      | EmptyString => None
      end
  end.

Fixpoint match_regex (r : regex) (s : string) (capture : option string)
  (k : string -> option string -> option A) : option A :=
  match r with
  | Lit text =>
      match strip_prefix text s with
      | Some s' => k s' capture
      | None => None
      end
  | Class p =>
      match s with
      | String c s' => if p c then k s' capture else None
      | EmptyString => None
      end
  | Star p => match_star p s (fun s' => k s' capture)
  | Plus p =>
      match s with
      | String c s' => if p c then match_star p s' (fun s' => k s' capture) else None
      | EmptyString => None
      end
  | Times n p => match_times n p s (fun s' => k s' capture)
  | Seq r1 r2 => match_regex r1 s capture (fun s1 c1 => match_regex r2 s1 c1 k)
  | Alt r1 r2 => or_else (match_regex r1 s capture k) (match_regex r2 s capture k)
  | Opt r' => or_else (match_regex r' s capture k) (k s capture)
  | Group r' =>
      match_regex r' s capture
        (fun s1 _ => k s1 (Some (substring 0 (String.length s - String.length s1) s)))
  end.

End Matcher.

Arguments match_star {A} p s k.
Arguments match_times {A} n p s k.
Arguments match_regex {A} r s capture k.

(** [s.match(r)] for a pattern without the [g] flag: the match that starts
    leftmost, as its capture 1 ([None] in [Some] is a group that took no
    part); [None] is [null]. *)
Fixpoint String_match (r : regex) (s : string) : option (option string) :=
  match match_regex r s None (fun _ capture => Some capture) with
  | Some capture => Some capture
  | None =>
      match s with
      | String _ s' => String_match r s'
      | EmptyString => None
      end
  end.

(** Every character of [s] is in the class [p]. *)
Fixpoint all_chars (p : ascii -> bool) (s : string) : bool :=
  match s with
  | EmptyString => true
  | String c rest => p c && all_chars p rest
  end.

(** The continuation [k] fails at [s] and at every later position of [s]. *)
Fixpoint fails_everywhere {A : Type} (k : string -> option A) (s : string) : Prop :=
  k s = None /\
  match s with
  | String _ rest => fails_everywhere k rest
  | EmptyString => True
  end.

End Text.

(** ** [apps/web/src/lib/utils.ts]: the YouTube helpers and the option lists *)

Module UtilsMedia.
Import JS Text.

Definition one_of (chars : string) (c : ascii) : bool :=
  existsb (Ascii.eqb c) (list_ascii_of_string chars).

(** [[^\/]] *)
Definition not_slash (c : ascii) : bool := negb (one_of "/" c).

(** [.] *)
Definition any_char (c : ascii) : bool := negb (is_line_terminator c).

(** [[?&]] *)
Definition query_mark (c : ascii) : bool := one_of "?&" c.

(** The class of the capture, [[^...&?\/\s]] with the double quote first:
    neither a double quote, [&], [?], [/] nor white space. *)
Definition id_char (c : ascii) : bool :=
  negb (Ascii.eqb c (ascii_of_nat 34) || one_of "&?/" c || is_white_space c).

(** [[^\/]+\/.+\/] *)
Definition path_segments : regex :=
  Seq (Plus not_slash) (Seq (Lit "/") (Seq (Plus any_char) (Lit "/"))).

(** [(?:v|e(?:mbed)?)\/] *)
Definition path_embed : regex :=
  Seq (Alt (Lit "v") (Seq (Lit "e") (Opt (Lit "mbed")))) (Lit "/").

(** [.*[?&]v=] *)
Definition path_query : regex :=
  Seq (Star any_char) (Seq (Class query_mark) (Lit "v=")).

(** [(?:youtube\.com\/(?:[^\/]+\/.+\/|(?:v|e(?:mbed)?)\/|.*[?&]v=)|youtu\.be\/)] *)
Definition host_and_path : regex :=
  Alt (Seq (Lit "youtube.com/") (Alt path_segments (Alt path_embed path_query)))
      (Lit "youtu.be/").

(** The capturing group: eleven characters of that class. *)
Definition video_id : regex := Group (Times 11 id_char).

Definition youtube_regex : regex := Seq host_and_path video_id.

(** [match ? match[1] : null] *)
Definition extractYouTubeId (url : string) : option string :=
  match String_match youtube_regex url with
  | Some (Some id) => Some id
  | _ => None
  end.

(** [videoId ? `https://img.youtube.com/vi/${videoId}/mqdefault.jpg` : null] *)
Definition getYouTubeThumbnail (url : string) : option string :=
  match extractYouTubeId url with
  | Some videoId =>
      if truthy_string videoId
      then Some ("https://img.youtube.com/vi/" ++ videoId ++ "/mqdefault.jpg")
      else None
  | None => None
  end.

Definition DAYS_OF_WEEK : list string :=
  ["Sunday"; "Monday"; "Tuesday"; "Wednesday"; "Thursday"; "Friday"; "Saturday"].

Definition EQUIPMENT_OPTIONS : list string :=
  ["Barbell"; "Dumbbells"; "Kettlebells"; "Resistance Bands"; "Pull-up Bar"; "Bench";
   "Cable Machine"; "Squat Rack"; "Treadmill"; "Rowing Machine"; "Bike";
   "Medicine Ball"; "Foam Roller"; "Yoga Mat"; "None (Bodyweight)"].

(** The [value]s of [PRIORITY_FOCUS_OPTIONS]. *)
Definition PRIORITY_FOCUS_VALUES : list string :=
  ["fat_loss"; "muscle_gain"; "strength"; "endurance"; "flexibility"; "mobility";
   "sports_performance"; "general_fitness"; "injury_rehab"].

End UtilsMedia.

(** ** [apps/web/src/app/clients/[id]/page.tsx]: the rest of the wizard

    Every [useState] cell is a value of its own; a handler is a function from
    the cells it reads to the cell it sets. *)

Module Wizard.
Import JS Text Utils UtilsMedia AssessmentPage.
Local Open Scope float_scope.

Definition STEPS : list string :=
  ["Personal Info"; "Body Metrics"; "Health History"; "Injuries"; "Goals";
   "Exercise History"; "Lifestyle"; "Availability"; "Strength"; "Cardio";
   "FMS Assessment"].

(** [disabled={currentStep === 0}] of the Previous button *)
Definition previousDisabled (currentStep : number) : bool := strict_eq currentStep 0.

(** [currentStep === STEPS.length - 1]: the Save button replaces Next *)
Definition isLastStep (currentStep : number) : bool :=
  strict_eq currentStep (array_length STEPS - 1).

(** [setCurrentStep(currentStep - 1)] and [setCurrentStep(currentStep + 1)] *)
Definition onPrevious (currentStep : number) : number := currentStep - 1.
Definition onNext (currentStep : number) : number := currentStep + 1.

(** A click on an enabled navigation button. *)
Inductive navigates : number -> number -> Prop :=
| click_previous currentStep :
    previousDisabled currentStep = false -> navigates currentStep (onPrevious currentStep)
| click_next currentStep :
    isLastStep currentStep = false -> navigates currentStep (onNext currentStep).

(** The steps the wizard has shown since the page was opened, the current one
    first: [useState(0)], then clicks. *)
Inductive step_history : list number -> Prop :=
| history_start : step_history [0]
| history_click currentStep next earlier :
    step_history (currentStep :: earlier) -> navigates currentStep next ->
    step_history (next :: currentStep :: earlier).

(** [STEPS[currentStep]] *)
Definition stepTitle (currentStep : number) : option string := array_get STEPS currentStep.

(** [Step {currentStep + 1} of {STEPS.length}] *)
Definition stepNumber (currentStep : number) : number := currentStep + 1.

(** The percentage in [width: `${((currentStep + 1) / STEPS.length) * 100}%`] *)
Definition progressWidth (currentStep : number) : number :=
  (currentStep + 1) / array_length STEPS * 100.

(** The [switch (currentStep)] of [renderStepContent]: the label of the case
    that is taken, [None] for [default: return null]. *)
Definition renderStepContent (currentStep : number) : option Z :=
  find (fun label => strict_eq currentStep (of_Z label)) [0; 1; 2; 3; 4; 5; 6; 7; 8; 9; 10]%Z.

(** The click handler of the option buttons (priority focus, preferred days,
    equipment):
    [arr.includes(x) ? arr.filter((f) => f !== x) : [...arr, x]] *)
Definition toggleItem (arr : list string) (x : string) : list string :=
  if includes arr x then without arr x else arr ++ [x].

(** The lists that clicks on the buttons of [options] lead to, from the
    initial empty list. *)
Inductive toggled (options : list string) : list string -> Prop :=
| toggled_initial : toggled options []
| toggled_click arr x :
    toggled options arr -> In x options -> toggled options (toggleItem arr x).

(** [ArrayInput]: the text of the box and the items of the parent. *)
Record ArrayInput : Set := {
  items : list string;
  value : string
}.

(** [handleAdd], with the [onAdd] every use passes: [[...items, value]]. *)
Definition handleAdd (st : ArrayInput) : ArrayInput :=
  if truthy_string (trim (value st))
  then {| items := items st ++ [trim (value st)]; value := "" |}
  else st.

(** [onRemove(item)], as every use passes it: [items.filter((i) => i !== item)]. *)
Definition onRemove (st : ArrayInput) (item : string) : ArrayInput :=
  {| items := without (items st) item; value := value st |}.

(** [onChange={(e) => setValue(e.target.value)}] *)
Definition onChange (st : ArrayInput) (text : string) : ArrayInput :=
  {| items := items st; value := text |}.

(** A text as [handleAdd] passes it on: not empty, and without white space at
    either end. *)
Definition trimmed (item : string) : Prop :=
  item <> "" /\ trim item = item /\
  (forall c rest, item = String c rest -> is_white_space c = false) /\
  (forall body c, item = body ++ String c "" -> is_white_space c = false).

(** What the user can do with an [ArrayInput] that starts empty; only the
    items that are displayed have a remove button. *)
Inductive array_input : ArrayInput -> Prop :=
| array_input_initial : array_input {| items := []; value := "" |}
| array_input_typed st text : array_input st -> array_input (onChange st text)
| array_input_added st : array_input st -> array_input (handleAdd st)
| array_input_removed st item :
    array_input st -> In item (items st) -> array_input (onRemove st item).

(** [addListItem] and [removeListItem], as the new value of the list. *)
Definition addListItem (arr : list string) (value : string) : list string :=
  if truthy_string (trim value) && negb (includes arr (trim value))
  then arr ++ [trim value]
  else arr.

Definition removeListItem (arr : list string) (value : string) : list string :=
  without arr value.

(** The inputs of the body metrics step. *)
Definition onHeightChange (bm : BodyMetrics) (text : string) : BodyMetrics :=
  {| height_cm := Number text;
     weight_kg := weight_kg bm;
     body_fat_percentage := body_fat_percentage bm |}.

Definition onWeightChange (bm : BodyMetrics) (text : string) : BodyMetrics :=
  {| height_cm := height_cm bm;
     weight_kg := Number text;
     body_fat_percentage := body_fat_percentage bm |}.

(** [e.target.value ? Number(e.target.value) : undefined] *)
Definition onBodyFatChange (bm : BodyMetrics) (text : string) : BodyMetrics :=
  {| height_cm := height_cm bm;
     weight_kg := weight_kg bm;
     body_fat_percentage := if truthy_string text then Some (Number text) else None |}.

(** [{calculateBMI(bodyMetrics.weight_kg, bodyMetrics.height_cm)}] *)
Definition calculatedBMI (bm : BodyMetrics) : completion number :=
  calculateBMI (weight_kg bm) (height_cm bm).

(** [fmsScores[key]] *)
Definition scoreOf (s : FMSSubScores) (key : FmsKey) : number :=
  match key with
  | key_deep_squat => deep_squat s
  | key_hurdle_step => hurdle_step s
  | key_inline_lunge => inline_lunge s
  | key_shoulder_mobility => shoulder_mobility s
  | key_active_straight_leg_raise => active_straight_leg_raise s
  | key_trunk_stability_pushup => trunk_stability_pushup s
  | key_rotary_stability => rotary_stability s
  end.

(** [fmsScores[key] === score]: the button is drawn as the selected one. *)
Definition isSelected (s : FMSSubScores) (key : FmsKey) (score : number) : bool :=
  strict_eq (scoreOf s key) score.

End Wizard.

(** ** The pages that show what was stored *)

Module ClientPage.
Import JS Text AssessmentPage.

(** What a JSX expression renders: a number or a text. *)
Inductive rendered : Set :=
| RenderedNumber (n : number)
| RenderedText (s : string).

(** [{assessment.fms_scores?.total_score || "N/A"}] *)
Definition fmsScoreShown (fms_scores : option FMSScores) : rendered :=
  match fms_scores with
  | None => RenderedText "N/A"
  | Some f =>
      if truthy_number (total_score f) then RenderedNumber (total_score f)
      else RenderedText "N/A"
  end.

End ClientPage.

Module ExercisesPage.
Import JS Text UtilsMedia.

(** [exercise.youtube_url && getYouTubeThumbnail(exercise.youtube_url) ? <img
    src={getYouTubeThumbnail(exercise.youtube_url)!} /> : <placeholder />]:
    the [src] of the image, [None] for the placeholder. *)
Definition thumbnailShown (youtube_url : option string) : option string :=
  match youtube_url with
  | None => None
  | Some url =>
      if truthy_string url then
        match getYouTubeThumbnail url with
        | Some src => if truthy_string src then Some src else None
        | None => None
        end
      else None
  end.

End ExercisesPage.

(** ** [apps/web/src/app/plans/page.tsx]: the week view of a plan *)

Module PlanPage.
Import JS Text UtilsMedia.

(** The fields of a [WorkoutDay] that place it in the view. *)
Record WorkoutDay : Set := {
  id : string;
  week_number : number;
  day_of_week : number;
  focus : string
}.

(** [arr.map((item, index) => f(item, index))], the indexes counted from [i]. *)
Fixpoint map_indexed_from {A B : Type} (f : A -> number -> B) (i : Z) (arr : list A) : list B :=
  match arr with
  | [] => []
  | item :: rest => f item (of_Z i) :: map_indexed_from f (i + 1) rest
  end.

(** [days.filter((day) => day.week_number === selectedWeek)] *)
Definition weekDays (days : list WorkoutDay) (selectedWeek : number) : list WorkoutDay :=
  filter (fun day => strict_eq (week_number day) selectedWeek) days.

(** The seven cards of the week view: the name of the day and
    [weekDays.find((d) => d.day_of_week === dayIndex)], [None] being the card
    that reads Rest day. *)
Definition weekView (days : list WorkoutDay) (selectedWeek : number)
  : list (string * option WorkoutDay) :=
  map_indexed_from
    (fun dayName dayIndex =>
       (dayName, find (fun d => strict_eq (day_of_week d) dayIndex) (weekDays days selectedWeek)))
    0 DAYS_OF_WEEK.

End PlanPage.

Import Text UtilsMedia Wizard ClientPage ExercisesPage PlanPage.
(** * The scores and the risk band *)

(** ** Small integers as numbers *)

(** A property of every integer of a range follows from its instances. *)
Lemma Z_range_cases (P : Z -> Prop) (lo : Z) (n : nat) :
  Forall P (map (fun i => lo + Z.of_nat i) (seq 0 n)) ->
  forall z, lo <= z < lo + Z.of_nat n -> P z.
Proof.
  intros HF z Hz.
  rewrite Forall_forall in HF. apply HF.
  apply in_map_iff. exists (Z.to_nat (z - lo)). split.
  - lia.
  - apply in_seq. lia.
Qed.

Ltac split_Forall :=
  repeat match goal with
         | |- Forall _ (_ :: _) => apply Forall_cons
         | |- Forall _ [] => apply Forall_nil
         end.

Ltac each_integer z lo n :=
  pattern z; apply (Z_range_cases _ lo n);
  [ let l := eval vm_compute in (map (fun i => lo + Z.of_nat i) (seq 0 n)) in
    change (map (fun i => lo + Z.of_nat i) (seq 0 n)) with l;
    split_Forall; cbv beta
  | lia ].

Example of_Z_15 : of_Z 15 = 15%float.
Proof. vm_compute. reflexivity. Qed.

Example total_all_twos : calculateFMSTotal (fmsScores initialState) = Return 14%float.
Proof. vm_compute. reflexivity. Qed.

(** ** The risk band *)

Lemma getFMSRiskLevel_bands (z : Z) :
  0 <= z <= 21 ->
  getFMSRiskLevel (of_Z z) =
  Return (if 15 <=? z then lowRisk else if 12 <=? z then moderateRisk else highRisk).
Proof.
  intros Hz. each_integer z 0 22%nat; vm_compute; reflexivity.
Qed.

(** Whatever the number, NaN and the infinities among them, a branch is taken. *)
Lemma getFMSRiskLevel_total (t : number) :
  getFMSRiskLevel t = Return lowRisk \/
  getFMSRiskLevel t = Return moderateRisk \/
  getFMSRiskLevel t = Return highRisk.
Proof.
  unfold getFMSRiskLevel.
  destruct (ge t 15%float); [ left; reflexivity | ].
  destruct (ge t 12%float); [ right; left; reflexivity | right; right; reflexivity ].
Qed.

(** ** Integer scores *)

Lemma SFeqb_finite (a : spec_float) (s : bool) (m : positive) (e : Z) :
  SFeqb a (S754_finite s m e) = true -> a = S754_finite s m e.
Proof.
  unfold SFeqb, SFcompare.
  destruct a as [sa | sa | | sa ma ea]; try destruct sa; destruct s;
    try (intros H; discriminate H);
    destruct (Z.compare_spec ea e) as [He | He | He]; try (intros H; discriminate H);
    destruct (Pos.compare_cont Eq ma m) eqn:Hm; try (intros H; discriminate H);
    intros _; apply Pos.compare_eq in Hm; subst; reflexivity.
Qed.

Lemma strict_eq_finite (x y : number) (s : bool) (m : positive) (e : Z) :
  Prim2SF y = S754_finite s m e -> strict_eq x y = true -> x = y.
Proof.
  unfold strict_eq. rewrite eqb_spec. intros Hy H. rewrite Hy in H.
  apply SFeqb_finite in H. apply Prim2SF_inj. congruence.
Qed.

Lemma strict_eq_zero (x : number) :
  strict_eq x zero = true -> x = zero \/ x = neg_zero.
Proof.
  unfold strict_eq. rewrite eqb_spec. intros H.
  rewrite <- (SF2Prim_Prim2SF x).
  destruct (Prim2SF x) as [[|] | [|] | | [|] m e]; try discriminate H.
  - right; reflexivity.
  - left; reflexivity.
Qed.

(** The numbers that are an integer of [0,3]: 0 with either sign, 1, 2, 3. *)
Lemma valid_score_cases (x : number) :
  valid_score x -> In x [zero; neg_zero; 1%float; 2%float; 3%float].
Proof.
  intros (z & Hz & H). unfold is_integer in H. revert H.
  each_integer z 0 4%nat; intros H.
  - apply strict_eq_zero in H. destruct H as [-> | ->]; [ left | right; left ]; reflexivity.
  - apply (strict_eq_finite x _ false 4503599627370496 (-52)) in H; [ | vm_compute; reflexivity ].
    subst x. do 2 right. left. vm_compute. reflexivity.
  - apply (strict_eq_finite x _ false 4503599627370496 (-51)) in H; [ | vm_compute; reflexivity ].
    subst x. do 3 right. left. vm_compute. reflexivity.
  - apply (strict_eq_finite x _ false 6755399441055744 (-51)) in H; [ | vm_compute; reflexivity ].
    subst x. do 4 right. left. vm_compute. reflexivity.
Qed.

Lemma valid_score_value (x : number) :
  valid_score x -> 0 <= integer_value x <= 3.
Proof.
  intros H. apply valid_score_cases in H. simpl in H.
  repeat destruct H as [H | H]; try contradiction; subst x; vm_compute; split; discriminate.
Qed.

(** One step of the reduction: adding a score to an exact partial sum is exact. *)
Lemma add_valid_score (t : Z) (x : number) :
  0 <= t <= 18 -> valid_score x ->
  (of_Z t + x)%float = of_Z (t + integer_value x).
Proof.
  intros Ht H. apply valid_score_cases in H. simpl in H.
  repeat destruct H as [H | H]; try contradiction; subst x;
    each_integer t 0 19%nat; vm_compute; reflexivity.
Qed.

(** *** Objects and their fields *)

(** The values of a record of the declared type, in the order of the
    declaration. *)
Lemma Object_values_properties (s : FMSSubScores) :
  Object_values s =
  [ deep_squat s; hurdle_step s; inline_lunge s; shoulder_mobility s;
    active_straight_leg_raise s; trunk_stability_pushup s; rotary_stability s ].
Proof. reflexivity. Qed.

Lemma sum_of_fields_properties (s : FMSSubScores) :
  sum_of_fields s =
  integer_value (deep_squat s) + integer_value (hurdle_step s)
  + integer_value (inline_lunge s) + integer_value (shoulder_mobility s)
  + integer_value (active_straight_leg_raise s) + integer_value (trunk_stability_pushup s)
  + integer_value (rotary_stability s).
Proof. reflexivity. Qed.

(** A sum of integers does not depend on the order. *)
Lemma sum_permutation {A : Type} (f : A -> Z) (l l' : list A) :
  Permutation l l' -> fold_right Z.add 0 (map f l) = fold_right Z.add 0 (map f l').
Proof.
  induction 1 as [ | x l l' _ IH | x y l | l l' l'' _ IH1 _ IH2]; cbn [map fold_right];
    [ reflexivity | rewrite IH; reflexivity | lia | congruence ].
Qed.

(** In an object, whose names are distinct, an entry is what the name gives. *)
Lemma property_In (scores : ScoresObject) (name : string) (score : number) :
  NoDup (map fst scores) -> In (name, score) scores -> property scores name = Some score.
Proof.
  induction scores as [ | [key x] rest IH]; cbn [map fst property]; intros Hnd Hin.
  - destruct Hin.
  - inversion Hnd as [ | k l Hk Hrest ]; subst.
    destruct Hin as [Hin | Hin].
    + injection Hin as -> ->. rewrite String.eqb_refl. reflexivity.
    + destruct (String.eqb_spec key name) as [-> | _]; [ | exact (IH Hrest Hin) ].
      contradiction Hk. change name with (fst (name, score)). apply in_map, Hin.
Qed.

Lemma seven_fields_NoDup (scores : ScoresObject) :
  seven_fields scores -> NoDup (map fst scores).
Proof.
  unfold seven_fields. intros H. apply (Permutation_NoDup (Permutation_sym H)).
  unfold score_names.
  repeat (apply NoDup_cons; [ cbn [In]; intuition discriminate | ]).
  apply NoDup_nil.
Qed.

(** The values in the order of enumeration and the fields by their names
    have the same sum. *)
Lemma sum_of_values_by_name (scores : ScoresObject) :
  seven_fields scores ->
  fold_right Z.add 0 (map integer_value (Object_values scores)) = sum_of_fields scores.
Proof.
  intros H. pose proof (seven_fields_NoDup scores H) as Hnd.
  transitivity (fold_right Z.add 0 (map (field scores) (map fst scores))).
  - unfold Object_values. rewrite !map_map. f_equal. apply map_ext_in.
    intros [name score] Hin. cbn [fst snd]. unfold field.
    rewrite (property_In scores name score Hnd Hin). reflexivity.
  - rewrite (sum_permutation (field scores) _ _ H).
    unfold sum_of_fields, score_names. cbn [map fold_right]. lia.
Qed.

Lemma valid_scores_values (scores : ScoresObject) :
  valid_scores scores -> Forall valid_score (Object_values scores).
Proof.
  intros [H Hvalid]. pose proof (seven_fields_NoDup scores H) as Hnd.
  unfold Object_values. apply Forall_forall. intros x Hx.
  apply in_map_iff in Hx. destruct Hx as ([name score] & <- & Hin). cbn [snd].
  assert (Hname : In name score_names).
  { apply (Permutation_in _ H). change name with (fst (name, score)). apply in_map, Hin. }
  destruct (Hvalid name Hname) as (score' & Hget & Hscore).
  rewrite (property_In scores name score Hnd Hin) in Hget. injection Hget as <-.
  exact Hscore.
Qed.

(** The reduction over valid scores: each partial sum is exact. *)
Lemma fold_valid_scores (values : list number) (t : Z) :
  Forall valid_score values ->
  0 <= t -> t + 3 * Z.of_nat (List.length values) <= 21 ->
  fold_left (fun sum score => (sum + score)%float) values (of_Z t)
  = of_Z (t + fold_right Z.add 0 (map integer_value values)) /\
  0 <= fold_right Z.add 0 (map integer_value values) <= 3 * Z.of_nat (List.length values).
Proof.
  intros H. revert t. induction H as [ | x values Hx _ IH]; intros t Ht Hlen.
  - cbn [fold_left map fold_right List.length]. split; [ f_equal; lia | lia ].
  - cbn [List.length] in Hlen. rewrite Nat2Z.inj_succ in Hlen.
    pose proof (valid_score_value x Hx) as Hv.
    cbn [fold_left map fold_right List.length]. rewrite Nat2Z.inj_succ.
    rewrite add_valid_score by (assumption || lia).
    destruct (IH (t + integer_value x) ltac:(lia) ltac:(lia)) as [E R].
    rewrite E. split; [ f_equal; lia | lia ].
Qed.

Lemma calculateFMSTotal_valid (scores : ScoresObject) :
  valid_scores scores ->
  calculateFMSTotal scores = Return (of_Z (sum_of_fields scores)) /\
  0 <= sum_of_fields scores <= 21.
Proof.
  intros H. pose proof (valid_scores_values scores H) as Hvalues.
  destruct H as [H _].
  assert (Hlen : List.length (Object_values scores) = 7%nat).
  { unfold Object_values. rewrite length_map, <- (length_map fst).
    rewrite (Permutation_length H). reflexivity. }
  destruct (fold_valid_scores (Object_values scores) 0 Hvalues ltac:(lia) ltac:(lia))
    as [E R].
  rewrite (sum_of_values_by_name scores H), Hlen in *.
  split; [ | lia ].
  unfold calculateFMSTotal. change 0%float with (of_Z 0). rewrite E. reflexivity.
Qed.

(** For a record of the declared type it is enough that its seven values are
    valid. *)
Lemma record_valid (s : FMSSubScores) :
  Forall valid_score (Object_values s) -> valid_scores s.
Proof.
  rewrite Object_values_properties. intros H.
  repeat match goal with
         | H : Forall _ (_ :: _) |- _ => inversion H; subst; clear H
         end.
  split; [ apply Permutation_refl | ].
  intros name Hname. unfold score_names in Hname. cbn [In] in Hname.
  repeat destruct Hname as [Hname | Hname]; try contradiction; subst name;
    (eexists; split; [ reflexivity | assumption ]).
Qed.

Lemma allTwos_valid : valid_scores allTwos.
Proof.
  apply record_valid.
  change (Object_values allTwos) with [2; 2; 2; 2; 2; 2; 2]%float.
  split_Forall; (exists 2; split; [ lia | vm_compute; reflexivity ]).
Qed.

(** *** Scores of 2 and 4, in any order *)

Lemma add_two (t : Z) : 0 <= t <= 22 -> (of_Z t + 2)%float = of_Z (t + 2).
Proof. intros Ht. each_integer t 0 23%nat; vm_compute; reflexivity. Qed.

Lemma add_four (t : Z) : 0 <= t <= 20 -> (of_Z t + 4)%float = of_Z (t + 4).
Proof. intros Ht. each_integer t 0 21%nat; vm_compute; reflexivity. Qed.

Lemma fold_twos_and_fours (values : list number) (t : Z) :
  Forall (fun x => x = 2%float \/ x = 4%float) values ->
  0 <= t -> t + fold_right Z.add 0 (map integer_value values) <= 24 ->
  fold_left (fun sum score => (sum + score)%float) values (of_Z t)
  = of_Z (t + fold_right Z.add 0 (map integer_value values)).
Proof.
  intros H. revert t. induction H as [ | x values Hx Hrest IH]; intros t Ht Hsum.
  - cbn [fold_left map fold_right]. f_equal. lia.
  - assert (Hpos : 0 <= fold_right Z.add 0 (map integer_value values)).
    { clear - Hrest. induction Hrest as [ | y l [-> | ->] _ IHl]; cbn [map fold_right].
      - lia.
      - change (integer_value 2%float) with 2. lia.
      - change (integer_value 4%float) with 4. lia. }
    cbn [fold_left map fold_right] in *. destruct Hx as [-> | ->].
    + change (integer_value 2%float) with 2 in *.
      rewrite add_two by lia. rewrite IH by lia. f_equal. lia.
    + change (integer_value 4%float) with 4 in *.
      rewrite add_four by lia. rewrite IH by lia. f_equal. lia.
Qed.

Lemma float_neq (x y : number) : Prim2SF x <> Prim2SF y -> x <> y.
Proof. intros H E. apply H. rewrite E. reflexivity. Qed.

Lemma Return_neq (x y : number) :
  Prim2SF x <> Prim2SF y -> @Return number x <> Return y.
Proof.
  intros H E. apply H.
  rewrite (f_equal (fun c => match c with Return v => v | Throw _ => x end) E).
  reflexivity.
Qed.

Lemma four_not_valid : ~ valid_score 4%float.
Proof.
  intros H. apply valid_score_cases in H. simpl in H.
  repeat destruct H as [H | H]; try contradiction;
    symmetry in H; revert H; apply float_neq; vm_compute; discriminate.
Qed.

(** ** The scores of the form *)

Lemma scoreButtons_valid (score : number) : In score scoreButtons -> valid_score score.
Proof.
  unfold scoreButtons. simpl. intros H.
  repeat destruct H as [H | H]; try contradiction; subst score.
  - exists 0. split; [ lia | reflexivity ].
  - exists 1. split; [ lia | reflexivity ].
  - exists 2. split; [ lia | reflexivity ].
  - exists 3. split; [ lia | reflexivity ].
Qed.

Lemma withScore_valid (s : FMSSubScores) (key : FmsKey) (score : number) :
  Forall valid_score (Object_values s) -> valid_score score ->
  Forall valid_score (Object_values (withScore s key score)).
Proof.
  rewrite !Object_values_properties. destruct s as [a b c d e f g].
  cbn [deep_squat hurdle_step inline_lunge shoulder_mobility
    active_straight_leg_raise trunk_stability_pushup rotary_stability]. intros H Hs.
  repeat match goal with
         | H : Forall _ (_ :: _) |- _ => inversion H; subst; clear H
         end.
  destruct key; cbn [withScore deep_squat hurdle_step inline_lunge
    shoulder_mobility active_straight_leg_raise trunk_stability_pushup rotary_stability];
    split_Forall; assumption.
Qed.

Lemma reachable_values_valid (st : FormState) :
  reachable st -> Forall valid_score (Object_values (fmsScores st)).
Proof.
  induction 1 as [ | st key score _ IH Hin].
  - change (Object_values (fmsScores initialState)) with [2; 2; 2; 2; 2; 2; 2]%float.
    split_Forall; (exists 2; split; [ lia | vm_compute; reflexivity ]).
  - cbn [setFmsScore fmsScores]. apply withScore_valid; [ exact IH | ].
    apply scoreButtons_valid. exact Hin.
Qed.

(** The buttons of the FMS step only lead to scores that are integers of
    [0,3]: the form never holds anything else. *)
Lemma reachable_scores_valid (st : FormState) :
  reachable st -> valid_scores (fmsScores st).
Proof.
  intros H. apply record_valid, reachable_values_valid, H.
Qed.

(** Every form that can be submitted has valid scores, so its total is an
    integer of [0,21]. *)
Lemma reachable_total (st : FormState) :
  reachable st ->
  calculateFMSTotal (fmsScores st) = Return (of_Z (sum_of_fields (fmsScores st))) /\
  0 <= sum_of_fields (fmsScores st) <= 21.
Proof.
  intros H. apply calculateFMSTotal_valid, reachable_scores_valid. exact H.
Qed.

(** On the initial form, of total 14, the FMS step shows a low risk in green,
    where the shared helper says moderate. *)
Example fmsStepDisplay_initial :
  fmsStepDisplay (fmsScores initialState) = Return ("text-green-600", "Low injury risk") /\
  (total <- calculateFMSTotal (fmsScores initialState) ;; getFMSRiskLevel total)
  = Return moderateRisk.
Proof. split; vm_compute; reflexivity. Qed.

(** * The built-ins *)

(** ** The models at work *)

Example NumberValue_tenth : NumberValue (1 # 10) = 0x1.999999999999ap-4%float.
Proof. vm_compute. reflexivity. Qed.

Example NumberValue_third : NumberValue (1 # 3) = (1 / 3)%float.
Proof. vm_compute. reflexivity. Qed.

Example NumberValue_ties_to_even :
  NumberValue (inject_Z (2 ^ 53 + 1)) = 9007199254740992%float /\
  NumberValue (inject_Z (2 ^ 53 + 3)) = 9007199254740996%float.
Proof. split; vm_compute; reflexivity. Qed.

Example NumberValue_overflow : NumberValue (inject_Z (2 ^ 1024)) = infinity.
Proof. vm_compute. reflexivity. Qed.

Example toFixed_of_the_initial_form :
  Number_prototype_toFixed (70 / (170 / 100 * (170 / 100)))%float 1 = Return "24.2".
Proof. vm_compute. reflexivity. Qed.

Example toFixed_half_goes_up :
  Number_prototype_toFixed 0.25%float 1 = Return "0.3" /\
  Number_prototype_toFixed (-0.25)%float 1 = Return "-0.3" /\
  Number_prototype_toFixed 2.5%float 0 = Return "3".
Proof. repeat split; vm_compute; reflexivity. Qed.

Example toFixed_pads_with_zeroes :
  Number_prototype_toFixed 0%float 1 = Return "0.0" /\
  Number_prototype_toFixed (-0)%float 1 = Return "0.0" /\
  Number_prototype_toFixed 0.0078125%float 4 = Return "0.0078".
Proof. repeat split; vm_compute; reflexivity. Qed.

Example toFixed_of_large_numbers :
  Number_prototype_toFixed 1e21%float 1 = Return "1e+21" /\
  Number_prototype_toFixed 1180591620717411303424%float 1 = Return "1.1805916207174113e+21" /\
  Number_prototype_toFixed 590295810358705651712%float 1 = Return "590295810358705651712.0".
Proof. repeat split; vm_compute; reflexivity. Qed.

Example toFixed_not_finite :
  Number_prototype_toFixed nan 1 = Return "NaN" /\
  Number_prototype_toFixed infinity 1 = Return "Infinity" /\
  Number_prototype_toFixed neg_infinity 1 = Return "-Infinity".
Proof. repeat split; reflexivity. Qed.

Example toFixed_range :
  Number_prototype_toFixed 1%float 101 =
  Throw (RangeError "toFixed() digits argument must be between 0 and 100").
Proof. reflexivity. Qed.

Example Number_of_strings :
  Number "24.2" = 0x1.8333333333333p+4%float /\
  Number "-0.0" = neg_zero /\
  Number "" = zero /\
  Number "1.5e+21" = 1.5e21%float /\
  Number "12.5e-1" = 1.25%float /\
  Number "Infinity" = infinity /\
  Number "NaN" = nan /\
  Number "1e" = nan.
Proof. repeat split; vm_compute; reflexivity. Qed.

(** ** Strings of digits *)

Lemma digit_char_spec (d : Z) :
  0 <= d <= 9 -> is_digit (digit_char d) = true /\ digit_value (digit_char d) = d.
Proof.
  intros Hd. each_integer d 0 10%nat; vm_compute; split; reflexivity.
Qed.

Lemma string_length_app (a b : string) : length (a ++ b) = (length a + length b)%nat.
Proof. induction a as [ | c a IH]; simpl; [ reflexivity | rewrite IH; reflexivity ]. Qed.

Lemma string_app_assoc (a b c : string) : (a ++ b) ++ c = a ++ (b ++ c).
Proof. induction a as [ | x a IH]; simpl; [ reflexivity | rewrite IH; reflexivity ]. Qed.

Lemma string_app_nil_r (a : string) : a ++ "" = a.
Proof. induction a as [ | x a IH]; simpl; [ reflexivity | rewrite IH; reflexivity ]. Qed.

Lemma all_digits_app (a b : string) :
  all_digits (a ++ b) = all_digits a && all_digits b.
Proof.
  induction a as [ | c a IH]; simpl; [ reflexivity | ].
  rewrite IH. apply andb_assoc.
Qed.

Lemma digits_value_from_shift (s : string) (acc : Z) :
  digits_value_from acc s = acc * 10 ^ Z.of_nat (length s) + digits_value s.
Proof.
  unfold digits_value. revert acc.
  induction s as [ | c r IH]; intros acc.
  - simpl. lia.
  - cbn [digits_value_from length]. rewrite (IH (10 * acc + digit_value c)).
    rewrite (IH (10 * 0 + digit_value c)).
    rewrite Nat2Z.inj_succ, Z.pow_succ_r by lia. ring.
Qed.

Lemma digits_value_cons (c : ascii) (r : string) :
  digits_value (String c r) = digit_value c * 10 ^ Z.of_nat (length r) + digits_value r.
Proof.
  unfold digits_value at 1. cbn [digits_value_from].
  rewrite digits_value_from_shift. ring.
Qed.

Lemma digits_value_app (a b : string) :
  digits_value (a ++ b) = digits_value a * 10 ^ Z.of_nat (length b) + digits_value b.
Proof.
  induction a as [ | c a IH].
  - cbn [append]. change (digits_value "") with 0. lia.
  - cbn [append]. rewrite !digits_value_cons, IH, string_length_app.
    rewrite Nat2Z.inj_add, Z.pow_add_r by lia. ring.
Qed.

Lemma decimal_aux_digits (fuel : nat) (n : Z) (acc : string) :
  0 <= n -> all_digits acc = true -> all_digits (decimal_aux fuel n acc) = true.
Proof.
  revert n acc. induction fuel as [ | fuel IH]; intros n acc Hn Hacc; [ exact Hacc | ].
  cbn [decimal_aux].
  assert (Hd : all_digits (String (digit_char (n mod 10)) acc) = true).
  { cbn [all_digits]. rewrite Hacc.
    destruct (digit_char_spec (n mod 10)) as [-> _]; [ | reflexivity ].
    pose proof (Z.mod_pos_bound n 10). lia. }
  destruct (n / 10 =? 0); [ exact Hd | ].
  apply IH; [ apply Z.div_pos; lia | exact Hd ].
Qed.

Lemma decimal_aux_value (fuel : nat) (n : Z) (acc : string) :
  0 <= n < 2 ^ Z.of_nat fuel ->
  digits_value (decimal_aux fuel n acc) = n * 10 ^ Z.of_nat (length acc) + digits_value acc.
Proof.
  revert n acc. induction fuel as [ | fuel IH]; intros n acc Hn.
  - simpl in Hn. assert (n = 0) by lia. subst n. simpl. reflexivity.
  - cbn [decimal_aux].
    assert (Hm : 0 <= n mod 10 <= 9) by (pose proof (Z.mod_pos_bound n 10); lia).
    destruct (digit_char_spec (n mod 10) Hm) as [_ Hv].
    pose proof (Z.div_mod n 10 ltac:(lia)) as Hdm.
    destruct (Z.eqb_spec (n / 10) 0) as [Hq | Hq].
    + rewrite digits_value_cons, Hv. rewrite Hq in Hdm.
      replace (n mod 10) with n by lia. reflexivity.
    + rewrite IH.
      * cbn [length]. rewrite digits_value_cons, Hv.
        rewrite Nat2Z.inj_succ, Z.pow_succ_r by lia.
        transitivity ((10 * (n / 10) + n mod 10) * 10 ^ Z.of_nat (length acc)
                      + digits_value acc); [ ring | rewrite <- Hdm; reflexivity ].
      * rewrite Nat2Z.inj_succ, Z.pow_succ_r in Hn by lia.
        split; [ apply Z.div_pos; lia | ].
        apply Z.div_lt_upper_bound; lia.
Qed.

Lemma decimal_aux_length (fuel : nat) (n : Z) (acc : string) :
  (length acc <= length (decimal_aux fuel n acc))%nat.
Proof.
  revert n acc. induction fuel as [ | fuel IH]; intros n acc; [ apply Nat.le_refl | ].
  cbn [decimal_aux]. destruct (n / 10 =? 0).
  - simpl. lia.
  - etransitivity; [ | apply IH ]. simpl. lia.
Qed.

Lemma decimal_value (n : Z) : 0 <= n -> digits_value (decimal n) = n.
Proof.
  intros Hn. unfold decimal. rewrite decimal_aux_value.
  - simpl. unfold digits_value. simpl. lia.
  - split; [ exact Hn | ].
    destruct (Z.eq_dec n 0) as [-> | Hz]; [ simpl; lia | ].
    rewrite Nat2Z.inj_succ, Z2Nat.id by apply Z.log2_nonneg.
    apply Z.log2_spec. lia.
Qed.

Lemma decimal_digits (n : Z) : 0 <= n -> all_digits (decimal n) = true.
Proof. intros Hn. apply decimal_aux_digits; [ exact Hn | reflexivity ]. Qed.

Lemma decimal_nonempty (n : Z) : exists c r, decimal n = String c r.
Proof.
  unfold decimal. cbn [decimal_aux].
  destruct (n / 10 =? 0); [ eauto | ].
  match goal with |- context [decimal_aux ?f ?m ?a] =>
    pose proof (decimal_aux_length f m a) as H; destruct (decimal_aux f m a) end.
  - simpl in H. lia.
  - eauto.
Qed.

Lemma zeros_length (k : nat) : length (zeros k) = k.
Proof. induction k as [ | k IH]; simpl; [ reflexivity | rewrite IH; reflexivity ]. Qed.

Lemma zeros_digits (k : nat) : all_digits (zeros k) = true.
Proof. induction k as [ | k IH]; simpl; [ reflexivity | exact IH ]. Qed.

Lemma zeros_value (k : nat) : digits_value (zeros k) = 0.
Proof.
  induction k as [ | k IH]; [ reflexivity | ].
  cbn [zeros]. rewrite digits_value_cons, IH. reflexivity.
Qed.

Lemma substring_all (m : string) : substring 0 (length m) m = m.
Proof. induction m as [ | c m IH]; simpl; [ reflexivity | rewrite IH; reflexivity ]. Qed.

Lemma substring_split (m : string) (i : nat) :
  (i <= length m)%nat ->
  substring 0 i m ++ substring i (length m - i) m = m.
Proof.
  revert i. induction m as [ | c m IH]; intros i Hi.
  - destruct i; reflexivity.
  - destruct i as [ | i].
    + cbn [substring]. rewrite Nat.sub_0_r. cbn [length substring append].
      rewrite substring_all. reflexivity.
    + cbn [substring length Nat.sub append]. rewrite IH; [ reflexivity | simpl in Hi; lia ].
Qed.

Lemma substring_length (m : string) (i j : nat) :
  (i + j <= length m)%nat -> length (substring i j m) = j.
Proof.
  revert i j. induction m as [ | c m IH]; intros i j H.
  - simpl in H. destruct i, j; try reflexivity; lia.
  - destruct i as [ | i].
    + destruct j as [ | j]; [ reflexivity | ].
      cbn [substring length]. rewrite IH; [ reflexivity | simpl in H; lia ].
    + cbn [substring]. apply IH. simpl in H. lia.
Qed.

(** ** Reading a literal *)

Lemma span_digits_app (a r : string) :
  all_digits a = true ->
  (r = "" \/ exists c r', r = String c r' /\ is_digit c = false) ->
  span_digits (a ++ r) = (a, r).
Proof.
  intros Ha Hr. induction a as [ | c a IH].
  - destruct Hr as [-> | (c & r' & -> & Hc)]; simpl; [ reflexivity | rewrite Hc; reflexivity ].
  - cbn [all_digits] in Ha. apply andb_prop in Ha. destruct Ha as [Hc Ha].
    cbn [append span_digits]. rewrite Hc, (IH Ha). reflexivity.
Qed.

Lemma span_digits_all (a : string) : all_digits a = true -> span_digits a = (a, "").
Proof.
  intros Ha. rewrite <- (string_app_nil_r a) at 1. apply span_digits_app; auto.
Qed.

Lemma NumberValue_Qeq (p q : Q) : (p == q)%Q -> NumberValue p = NumberValue q.
Proof.
  intros H. unfold NumberValue. rewrite (Qred_complete p q H). reflexivity.
Qed.

Lemma is_digit_neq (c c' : ascii) : is_digit c = true -> is_digit c' = false -> c <> c'.
Proof. intros H H' E. subst c'. congruence. Qed.

Lemma not_Infinity (c : ascii) (r : string) :
  is_digit c = true -> String.eqb (String c r) "Infinity" = false.
Proof.
  intros Hc. apply String.eqb_neq. intros E. injection E as Ec _.
  revert Ec. apply is_digit_neq; [ exact Hc | reflexivity ].
Qed.

(** A literal with a point: digits, a point, digits. *)
Lemma parse_unsigned_point (c : ascii) (a b : string) :
  all_digits (String c a) = true -> all_digits b = true ->
  parse_unsigned (String c a ++ "." ++ b) =
  Some (LitDecimal (inject_Z (digits_value (String c a ++ b))
                    * 10 ^ (0 - Z.of_nat (length b)))%Q).
Proof.
  intros Ha Hb. unfold parse_unsigned.
  assert (Hc : is_digit c = true) by (cbn [all_digits] in Ha; apply andb_prop in Ha; tauto).
  cbn [append]. rewrite not_Infinity by exact Hc.
  change (String c (a ++ String "." b)) with (String c a ++ String "." b).
  rewrite span_digits_app; [ | exact Ha | right; exists "."%char, b; split; reflexivity ].
  cbv iota beta. rewrite (span_digits_all b Hb). reflexivity.
Qed.

Lemma Number_unsigned (c : ascii) (r : string) :
  is_digit c = true ->
  Number (String c r) =
  match parse_unsigned (String c r) with
  | Some l => literal_value l
  | None => nan
  end.
Proof.
  intros Hc. destruct c as [[|] [|] [|] [|] [|] [|] [|] [|]]; try discriminate Hc; reflexivity.
Qed.

(** ** Fixed notation with one decimal *)

Lemma fixed_notation_1 (n : Z) :
  0 <= n ->
  exists c a b,
    fixed_notation n 1 = String c a ++ "." ++ b /\
    all_digits (String c a) = true /\ all_digits b = true /\
    length b = 1%nat /\ digits_value (String c a ++ b) = n.
Proof.
  intros Hn. unfold fixed_notation.
  pose proof (decimal_digits n Hn) as Hd.
  pose proof (decimal_value n Hn) as Hv.
  destruct (decimal_nonempty n) as (c & r & Hm).
  rewrite Hm in *. clear Hm.
  destruct r as [ | c' r].
  - exists "0"%char, "", (String c "").
    split; [ reflexivity | ]. split; [ reflexivity | ]. split; [ exact Hd | ].
    split; [ reflexivity | ].
    cbn [append]. rewrite digits_value_cons. cbn [length]. rewrite Hv. reflexivity.
  - set (m := String c (String c' r)) in *.
    assert (Hk : (length m = S (S (length r)))%nat) by reflexivity.
    replace (length m <=? 1)%nat with false by (symmetry; apply Nat.leb_gt; lia).
    pose proof (substring_split m (length m - 1) ltac:(lia)) as Hsplit.
    replace (length m - (length m - 1))%nat with 1%nat in Hsplit by lia.
    pose proof (substring_length m 0 (length m - 1) ltac:(lia)) as Hla.
    pose proof (substring_length m (length m - 1) 1 ltac:(lia)) as Hlb.
    destruct (substring 0 (length m - 1) m) as [ | ca a] eqn:Ea; [ simpl in Hla; lia | ].
    exists ca, a, (substring (length m - 1) 1 m).
    rewrite <- Hsplit, all_digits_app in Hd. apply andb_prop in Hd. destruct Hd as [Hda Hdb].
    repeat split; try assumption.
    rewrite Hsplit. exact Hv.
Qed.

(** ** Numbers that are not finite *)

Lemma Prim2SF_nan (x : number) : Prim2SF x = S754_nan -> x = nan.
Proof. intros H. rewrite <- (SF2Prim_Prim2SF x), H. reflexivity. Qed.

Lemma Prim2SF_infinity (x : number) (s : bool) :
  Prim2SF x = S754_infinity s -> x = if s then neg_infinity else infinity.
Proof. intros H. rewrite <- (SF2Prim_Prim2SF x), H. destruct s; reflexivity. Qed.

(** ** [toFixed(1)] below 10 ^ 21 *)

Lemma Number_minus (r : string) :
  Number (String "-" r) =
  match parse_unsigned r with
  | Some l => (- literal_value l)%float
  | None => nan
  end.
Proof. reflexivity. Qed.

Lemma tenths_nonneg (r : Q) : 0 <= Qfloor (Qabs r * 10 + (1 # 2))%Q.
Proof.
  change 0 with (Qfloor 0). apply Qfloor_resp_le.
  pose proof (Qabs_nonneg r). lra.
Qed.

(** The tenths that [round_to_one_decimal] and [toFixed(1)] take are the
    nearest: within one twentieth of the value, the upper ones at a half. *)
Lemma tenths_nearest (r : Q) :
  (Qabs r - (1 # 20) < inject_Z (Qfloor (Qabs r * 10 + (1 # 2))) / 10 <= Qabs r + (1 # 20))%Q.
Proof.
  pose proof (Qfloor_le (Qabs r * 10 + (1 # 2))) as L.
  pose proof (Qlt_floor (Qabs r * 10 + (1 # 2))) as U.
  rewrite inject_Z_plus in U. change (inject_Z 1) with 1%Q in U.
  split.
  - apply Qlt_shift_div_l; [ reflexivity | lra ].
  - apply Qle_shift_div_r; [ reflexivity | lra ].
Qed.

Lemma Number_fixed_notation (neg : bool) (n : Z) :
  0 <= n ->
  Number ((if neg then "-" else "") ++ fixed_notation n 1) =
  if neg then (- NumberValue (inject_Z n / 10)%Q)%float
  else NumberValue (inject_Z n / 10)%Q.
Proof.
  intros Hn.
  destruct (fixed_notation_1 n Hn) as (c & a & b & E & Ha & Hb & Hl & Hv).
  rewrite E.
  assert (Hc : is_digit c = true) by (cbn [all_digits] in Ha; apply andb_prop in Ha; tauto).
  assert (Hq : NumberValue (inject_Z (digits_value (String c a ++ b))
                            * 10 ^ (0 - Z.of_nat (length b)))%Q
               = NumberValue (inject_Z n / 10)%Q).
  { rewrite Hv, Hl. apply NumberValue_Qeq. reflexivity. }
  destruct neg.
  - change ("-" ++ (String c a ++ "." ++ b)) with (String "-" (String c a ++ "." ++ b)).
    rewrite Number_minus, parse_unsigned_point by assumption.
    cbn [literal_value]. rewrite Hq. reflexivity.
  - change ("" ++ (String c a ++ "." ++ b)) with (String c (a ++ "." ++ b)).
    rewrite Number_unsigned by exact Hc.
    change (String c (a ++ "." ++ b)) with (String c a ++ "." ++ b).
    rewrite parse_unsigned_point by assumption.
    cbn [literal_value]. exact Hq.
Qed.

Lemma toFixed_1_not_finite (x : number) :
  is_finite x = false ->
  exists s, Number_prototype_toFixed x 1 = Return s /\ Number s = x.
Proof.
  unfold is_finite, Number_prototype_toFixed.
  change ((1 <? 0) || (100 <? 1)) with false. cbv iota.
  destruct (Prim2SF x) as [sx | sx | | sx mx ex] eqn:E; try discriminate; intros _.
  - apply Prim2SF_infinity in E. destruct sx; subst x; eexists; split; reflexivity.
  - apply Prim2SF_nan in E. subst x. eexists; split; reflexivity.
Qed.

Lemma toFixed_1_small (x : number) :
  is_finite x = true ->
  Qle_bool (10 ^ 21) (Qabs (MathValue x)) = false ->
  Number_prototype_toFixed x 1 =
  Return ((if Qle_bool 0 (MathValue x) then "" else "-")
          ++ fixed_notation (Qfloor (Qabs (MathValue x) * 10 + (1 # 2))%Q) 1).
Proof.
  unfold is_finite, Number_prototype_toFixed.
  change ((1 <? 0) || (100 <? 1)) with false. cbv iota zeta.
  intros Hf Hs. rewrite Hs.
  destruct (Prim2SF x) as [sx | sx | | sx mx ex]; try discriminate Hf; reflexivity.
Qed.

Lemma toFixed_1_large (x : number) :
  is_finite x = true ->
  Qle_bool (10 ^ 21) (Qabs (MathValue x)) = true ->
  Number_prototype_toFixed x 1 =
  Return ((if Qle_bool 0 (MathValue x) then "" else "-") ++ Number_toString_large (abs x)).
Proof.
  unfold is_finite, Number_prototype_toFixed.
  change ((1 <? 0) || (100 <? 1)) with false. cbv iota zeta.
  intros Hf Hs. rewrite Hs.
  destruct (Prim2SF x) as [sx | sx | | sx mx ex]; try discriminate Hf; reflexivity.
Qed.

Lemma round_to_one_decimal_not_finite (x : number) :
  is_finite x = false -> round_to_one_decimal x = x.
Proof.
  unfold is_finite, round_to_one_decimal.
  destruct (Prim2SF x); try discriminate; reflexivity.
Qed.

Lemma round_to_one_decimal_finite (x : number) :
  is_finite x = true ->
  round_to_one_decimal x =
  let v := NumberValue (inject_Z (Qfloor (Qabs (MathValue x) * 10 + (1 # 2))) / 10)%Q in
  if Qle_bool 0 (MathValue x) then v else (- v)%float.
Proof.
  unfold is_finite, round_to_one_decimal.
  destruct (Prim2SF x); try discriminate; reflexivity.
Qed.

(** Below 10 ^ 21, the number read back from [toFixed(1)] is the rounding to
    one decimal. *)
Lemma Number_toFixed_1_small (x : number) :
  is_finite x = true ->
  Qle_bool (10 ^ 21) (Qabs (MathValue x)) = false ->
  exists s, Number_prototype_toFixed x 1 = Return s /\ Number s = round_to_one_decimal x.
Proof.
  intros Hf Hs. eexists. split; [ apply toFixed_1_small; assumption | ].
  rewrite round_to_one_decimal_finite by exact Hf. cbv zeta.
  pose proof (tenths_nonneg (MathValue x)) as Hn.
  destruct (Qle_bool 0 (MathValue x)).
  - apply (Number_fixed_notation false). exact Hn.
  - apply (Number_fixed_notation true). exact Hn.
Qed.

(** ** Numbers whose value is an integer *)

Lemma digits2_pos_spec (a : positive) :
  2 ^ (Zpos (digits2_pos a) - 1) <= Zpos a < 2 ^ Zpos (digits2_pos a).
Proof.
  induction a as [a IH | a IH | ]; cbn [digits2_pos]; [ | | simpl; lia ].
  - rewrite Pos2Z.inj_succ. change (Zpos a~1) with (2 * Zpos a + 1).
    replace (Z.succ (Zpos (digits2_pos a)) - 1) with (Z.succ (Zpos (digits2_pos a) - 1)) by lia.
    rewrite !Z.pow_succ_r by lia. lia.
  - rewrite Pos2Z.inj_succ. change (Zpos a~0) with (2 * Zpos a).
    replace (Z.succ (Zpos (digits2_pos a)) - 1) with (Z.succ (Zpos (digits2_pos a) - 1)) by lia.
    rewrite !Z.pow_succ_r by lia. lia.
Qed.

Lemma digits2_pos_shift (a m : positive) (e : Z) :
  0 <= e -> Zpos a = Zpos m * 2 ^ e ->
  Zpos (digits2_pos a) = Zpos (digits2_pos m) + e.
Proof.
  intros He Ha.
  pose proof (digits2_pos_spec a) as [La Ua].
  pose proof (digits2_pos_spec m) as [Lm Um].
  set (da := Zpos (digits2_pos a)) in *. set (dm := Zpos (digits2_pos m)) in *.
  assert (Hda : 1 <= da) by (unfold da; lia).
  assert (Hdm : 1 <= dm) by (unfold dm; lia).
  assert (P : 0 < 2 ^ e) by (apply Z.pow_pos_nonneg; lia).
  assert (L : 2 ^ (dm - 1 + e) <= Zpos a).
  { rewrite Z.pow_add_r by lia. rewrite Ha. apply Z.mul_le_mono_nonneg_r; lia. }
  assert (U : Zpos a < 2 ^ (dm + e)).
  { rewrite Z.pow_add_r by lia. rewrite Ha. apply Z.mul_lt_mono_pos_r; lia. }
  destruct (Z.lt_trichotomy da (dm + e)) as [H | [H | H]]; [ | exact H | ].
  - exfalso. assert (2 ^ da <= 2 ^ (dm - 1 + e)) by (apply Z.pow_le_mono_r; lia). lia.
  - exfalso. assert (2 ^ (dm + e) <= 2 ^ (da - 1)) by (apply Z.pow_le_mono_r; lia). lia.
Qed.

Lemma bounded_facts (m : positive) (e : Z) :
  bounded prec emax m e = true ->
  Zpos (digits2_pos m) <= 53 /\ -1074 <= e <= 971 /\
  fexp prec emax (Zpos (digits2_pos m) + e) = e.
Proof.
  unfold bounded, canonical_mantissa. intros H. apply andb_prop in H. destruct H as [Hc He].
  apply Z.eqb_eq in Hc. apply Z.leb_le in He.
  split; [ | split; [ | exact Hc ] ];
    revert Hc He; unfold fexp, emin, prec, emax; lia.
Qed.

Lemma iter_pos_nat {A : Type} (f : A -> A) (p : positive) (x : A) :
  iter_pos f p x = Nat.iter (Pos.to_nat p) f x.
Proof.
  revert x. induction p as [p IH | p IH | ]; intros x; cbn [iter_pos].
  - rewrite !IH, Pos2Nat.inj_xI.
    rewrite Nat.iter_succ_r. replace (2 * Pos.to_nat p)%nat with (Pos.to_nat p + Pos.to_nat p)%nat by lia.
    rewrite Nat.iter_add. reflexivity.
  - rewrite !IH, Pos2Nat.inj_xO.
    replace (2 * Pos.to_nat p)%nat with (Pos.to_nat p + Pos.to_nat p)%nat by lia.
    rewrite Nat.iter_add. reflexivity.
  - reflexivity.
Qed.

(** Shifting out the zero bits of a multiple of a power of two loses nothing. *)
Lemma shr_1_iter (n : nat) (m a : positive) :
  Zpos a = Zpos m * 2 ^ Z.of_nat n ->
  Nat.iter n shr_1 (Build_shr_record (Zpos a) false false)
  = Build_shr_record (Zpos m) false false.
Proof.
  revert a. induction n as [ | n IH]; intros a Ha.
  - change (Z.of_nat 0) with 0 in Ha. rewrite Z.pow_0_r in Ha.
    assert (a = m) by lia. subst a. reflexivity.
  - rewrite Nat.iter_succ_r.
    rewrite Nat2Z.inj_succ, Z.pow_succ_r in Ha by lia.
    destruct a as [a | a | ]; [ exfalso; lia | | exfalso; lia ].
    cbn [shr_1 orb]. apply IH. lia.
Qed.

Lemma shr_fexp_exact (m q : positive) (e e' : Z) :
  bounded prec emax m e = true -> e' <= e -> Zpos q = Zpos m * 2 ^ (e - e') ->
  shr_fexp prec emax (Zpos q) e' loc_Exact = (Build_shr_record (Zpos m) false false, e).
Proof.
  intros Hb He Hq. destruct (bounded_facts m e Hb) as (_ & _ & Hf).
  unfold shr_fexp. cbn [Zdigits2 shr_record_of_loc].
  rewrite (digits2_pos_shift q m (e - e')) by (assumption || lia).
  replace (Zpos (digits2_pos m) + (e - e') + e') with (Zpos (digits2_pos m) + e) by lia.
  rewrite Hf. unfold shr.
  destruct (e - e') as [ | p | p] eqn:Ed; [ | | lia ].
  - rewrite Z.pow_0_r in Hq. assert (q = m) by lia. subst q. f_equal. lia.
  - rewrite iter_pos_nat, (shr_1_iter _ m).
    + f_equal. lia.
    + rewrite positive_nat_Z. exact Hq.
Qed.

Lemma binary_round_aux_exact (m q : positive) (e e' : Z) :
  bounded prec emax m e = true -> e' <= e -> Zpos q = Zpos m * 2 ^ (e - e') ->
  binary_round_aux prec emax false (Zpos q) e' loc_Exact = S754_finite false m e.
Proof.
  intros Hb He Hq. unfold binary_round_aux.
  rewrite (shr_fexp_exact m q e e' Hb He Hq).
  cbn [shr_m loc_of_shr_record round_nearest_even].
  rewrite (shr_fexp_exact m m e e Hb (Z.le_refl e))
    by (rewrite Z.sub_diag, Z.mul_1_r; reflexivity).
  cbn [shr_m].
  destruct (bounded_facts m e Hb) as (_ & Hr & _).
  replace (e <=? emax - prec) with true; [ reflexivity | ].
  symmetry. apply Z.leb_le. unfold emax, prec. lia.
Qed.

Lemma fexp_normal (x : Z) : -1021 <= x -> fexp prec emax x = x - 53.
Proof. unfold fexp, emin, prec, emax. lia. Qed.

Lemma div_eucl_1 (x : Z) : Z.div_eucl x 1 = (x, 0).
Proof.
  pose proof (Z.div_1_r x) as Hq. pose proof (Z.mod_1_r x) as Hr.
  unfold Z.div, Z.modulo in *. destruct (Z.div_eucl x 1) as [q r]. congruence.
Qed.

(** The quotient of an integer that is a number by 1 is that number. *)
Lemma SFdiv_by_one (m a : positive) (e : Z) :
  bounded prec emax m e = true -> 0 <= e -> Zpos a = Zpos m * 2 ^ e ->
  SFdiv prec emax (S754_finite false a 0) (S754_finite false 1 0) = S754_finite false m e.
Proof.
  intros Hb He Ha. destruct (bounded_facts m e Hb) as (Hd & Hr & Hf).
  assert (Hm : Zpos (digits2_pos m) = 53).
  { revert Hf. unfold fexp, emin, prec, emax. lia. }
  pose proof (digits2_pos_shift a m e He Ha) as Hda. rewrite Hm in Hda.
  unfold SFdiv, SFdiv_core_binary. cbn [Zdigits2 digits2_pos xorb].
  rewrite Hda. rewrite fexp_normal by lia.
  destruct (Z.eq_dec e 0) as [-> | Hne].
  - cbn [Z.add Z.sub Z.opp Z.min Z.compare Z.pos_sub Pos.add Pos.compare Pos.compare_cont
         Pos.pred_double Z.succ_double Z.pred_double Z.double Pos.succ].
    change (Z.shiftl (Zpos a) 1) with (Zpos a~0).
    rewrite div_eucl_1. cbn [new_location Z.even new_location_odd Z.eqb].
    apply binary_round_aux_exact; [ exact Hb | lia | ].
    rewrite Z.pow_0_r in Ha. assert (a = m) by lia. subst a.
    change (0 - -1) with 1. rewrite Z.pow_1_r. lia.
  - replace (Z.min (53 + e + 0 - (1 + 0) - 53) (0 - 0)) with 0 by lia.
    cbn [Z.sub Z.add Z.opp].
    rewrite div_eucl_1. cbn [new_location Z.even new_location_odd Z.eqb].
    apply binary_round_aux_exact; [ exact Hb | lia | ].
    rewrite Z.sub_0_r. exact Ha.
Qed.

Lemma NumberValue_integer (a : positive) :
  NumberValue (inject_Z (Zpos a))
  = SF2Prim (SFdiv prec emax (S754_finite false a 0) (S754_finite false 1 0)).
Proof.
  unfold NumberValue. rewrite Qred_identity; [ reflexivity | ].
  exact (Z.gcd_1_r (Zpos a)).
Qed.

(** An integer that is the value of a number is read back as that number. *)
Lemma NumberValue_exact (y : number) (m : positive) (e : Z) :
  Prim2SF y = S754_finite false m e -> 0 <= e ->
  NumberValue (inject_Z (Zpos m * 2 ^ e)) = y.
Proof.
  intros Hy He.
  pose proof (Prim2SF_valid y) as Hv. rewrite Hy in Hv. cbn [SpecFloat.valid_binary] in Hv.
  assert (P : 0 < 2 ^ e) by (apply Z.pow_pos_nonneg; lia).
  destruct (Zpos m * 2 ^ e) as [ | a | a] eqn:Ea; [ lia | | lia ].
  rewrite NumberValue_integer, (SFdiv_by_one m a e Hv He) by (symmetry; exact Ea).
  rewrite <- Hy. apply SF2Prim_Prim2SF.
Qed.

(** ** The value of a finite number *)

Lemma MathValue_finite (x : number) (sg : bool) (m : positive) (e : Z) :
  Prim2SF x = S754_finite sg m e ->
  MathValue x = if sg then (- (inject_Z (Zpos m) * 2 ^ e))%Q else (inject_Z (Zpos m) * 2 ^ e)%Q.
Proof. intros H. unfold MathValue. rewrite H. reflexivity. Qed.

Lemma MathValue_zero (x : number) (sg : bool) :
  Prim2SF x = S754_zero sg -> MathValue x = 0%Q.
Proof. intros H. unfold MathValue. rewrite H. reflexivity. Qed.

Lemma magnitude_positive (m : positive) (e : Z) : (0 < inject_Z (Zpos m) * 2 ^ e)%Q.
Proof.
  apply Qmult_lt_0_compat; [ reflexivity | apply Qpower_0_lt; reflexivity ].
Qed.

Lemma magnitude_integer (m : positive) (e : Z) :
  0 <= e -> (inject_Z (Zpos m) * 2 ^ e == inject_Z (Zpos m * 2 ^ e))%Q.
Proof.
  intros He. rewrite inject_Z_mult, Zpower_Qpower by exact He. reflexivity.
Qed.

Lemma Qabs_MathValue (x : number) (sg : bool) (m : positive) (e : Z) :
  Prim2SF x = S754_finite sg m e ->
  (Qabs (MathValue x) == inject_Z (Zpos m) * 2 ^ e)%Q.
Proof.
  intros H. rewrite (MathValue_finite x sg m e H).
  pose proof (magnitude_positive m e) as P.
  destruct sg; rewrite ?Qabs_opp; apply Qabs_pos; apply Qlt_le_weak; exact P.
Qed.

Lemma sign_MathValue (x : number) (sg : bool) (m : positive) (e : Z) :
  Prim2SF x = S754_finite sg m e -> Qle_bool 0 (MathValue x) = negb sg.
Proof.
  intros H. rewrite (MathValue_finite x sg m e H).
  pose proof (magnitude_positive m e) as P.
  destruct sg; cbn [negb].
  - destruct (Qle_bool 0 (- (inject_Z (Zpos m) * 2 ^ e))) eqn:E; [ | reflexivity ].
    apply Qle_bool_iff in E. lra.
  - apply Qle_bool_iff. lra.
Qed.

Lemma pow2_nonpositive (e : Z) : e < 0 -> (2 ^ e <= 1)%Q.
Proof.
  intros He. destruct e as [ | p | p]; [ lia | lia | ].
  rewrite (Qpower_decomp_neg_pos p 2 1).
  unfold Qle. cbn [Qnum Qden]. rewrite Z.pow_1_l by lia. lia.
Qed.

(** Below 2 ^ 53 times a power of two there is no number from 10 ^ 21 on, unless the
    exponent is positive: such a number is an integer. *)
Lemma large_exponent (x : number) (sg : bool) (m : positive) (e : Z) :
  Prim2SF x = S754_finite sg m e ->
  Qle_bool (10 ^ 21) (Qabs (MathValue x)) = true -> 0 <= e.
Proof.
  intros H Hl. apply Qle_bool_iff in Hl. rewrite (Qabs_MathValue x sg m e H) in Hl.
  destruct (Z.le_gt_cases 0 e) as [He | He]; [ exact He | exfalso ].
  pose proof (Prim2SF_valid x) as Hv. rewrite H in Hv. cbn [SpecFloat.valid_binary] in Hv.
  destruct (bounded_facts m e Hv) as (Hd & _ & _).
  pose proof (digits2_pos_spec m) as [_ Um].
  assert (Hm : Zpos m < 2 ^ 53).
  { eapply Z.lt_le_trans; [ exact Um | apply Z.pow_le_mono_r; lia ]. }
  pose proof (pow2_nonpositive e He) as Hp.
  assert (Hq : (inject_Z (Zpos m) * 2 ^ e <= inject_Z (Zpos m) * 1)%Q).
  { apply Qmult_le_l; [ reflexivity | exact Hp ]. }
  assert (Hs : (inject_Z (Zpos m) < 10 ^ 21)%Q).
  { change (10 ^ 21)%Q with (inject_Z (10 ^ 21)). rewrite <- Zlt_Qlt.
    eapply Z.lt_le_trans; [ exact Hm | ]. vm_compute. discriminate. }
  lra.
Qed.

Lemma abs_finite (x : number) (sg : bool) (m : positive) (e : Z) :
  Prim2SF x = S754_finite sg m e -> Prim2SF (abs x) = S754_finite false m e.
Proof. intros H. rewrite abs_spec, H. reflexivity. Qed.

Lemma abs_sign (x : number) (sg : bool) (m : positive) (e : Z) :
  Prim2SF x = S754_finite sg m e -> x = if sg then (- abs x)%float else abs x.
Proof.
  intros H. apply Prim2SF_inj. destruct sg.
  - rewrite opp_spec, abs_spec, H. reflexivity.
  - rewrite abs_spec, H. reflexivity.
Qed.

(** From 10 ^ 21 on a number is its own rounding to one decimal. *)
Lemma tenths_of_integer (X : Z) (r : Q) :
  (r == inject_Z X)%Q -> Qfloor (r * 10 + (1 # 2))%Q = 10 * X.
Proof.
  intros H. rewrite H.
  assert (E : (inject_Z X * 10 + (1 # 2) == (10 * X * 2 + 1) # 2)%Q).
  { unfold Qeq. cbn [Qnum Qden Qplus Qmult inject_Z]. lia. }
  rewrite E. unfold Qfloor. rewrite Z.div_add_l by lia. change (1 / 2) with 0. lia.
Qed.

Lemma round_to_one_decimal_large (x : number) :
  is_finite x = true ->
  Qle_bool (10 ^ 21) (Qabs (MathValue x)) = true ->
  round_to_one_decimal x = x.
Proof.
  intros Hf Hl. rewrite round_to_one_decimal_finite by exact Hf. cbv zeta.
  unfold is_finite in Hf.
  destruct (Prim2SF x) as [sx | sx | | sg m e] eqn:E; try discriminate Hf.
  - rewrite (MathValue_zero x sx E) in Hl. discriminate Hl.
  - pose proof (large_exponent x sg m e E Hl) as He.
    rewrite (tenths_of_integer (Zpos m * 2 ^ e)).
    + rewrite (NumberValue_Qeq _ (inject_Z (Zpos m * 2 ^ e))).
      * rewrite (NumberValue_exact (abs x) m e (abs_finite x sg m e E) He).
        rewrite (sign_MathValue x sg m e E).
        rewrite (abs_sign x sg m e E) at 3. destruct sg; reflexivity.
      * rewrite inject_Z_mult. field.
    + rewrite (Qabs_MathValue x sg m e E). apply magnitude_integer. exact He.
Qed.

(** ** [Number::toString] from 10 ^ 21 on *)

Lemma is_representation_true (y : number) (s : Z) (n : nat) :
  is_representation y s n = true -> NumberValue (candidate_value s n) = y.
Proof. unfold is_representation. apply FloatAxioms.Leibniz.eqb_spec. Qed.

(** The digits that the search returns stand for the number, whatever the
    step at which it stops. *)
Lemma shortest_digits_spec (fuel k : nat) (y : number) (X : Z) (n0 : nat) :
  0 <= X -> (1 <= n0)%nat -> NumberValue (candidate_value X n0) = y ->
  let (s, n) := shortest_digits fuel k y X n0 in
  0 <= s /\ (1 <= n)%nat /\ NumberValue (candidate_value s n) = y.
Proof.
  intros HX Hn HXy. revert k. induction fuel as [ | fuel IH]; intros k.
  - cbn [shortest_digits]. auto.
  - cbn [shortest_digits]. cbv zeta.
    set (p := 10 ^ Z.of_nat (n0 - k)).
    assert (Hp : 0 < p) by (apply Z.pow_pos_nonneg; lia).
    assert (Hlo : 0 <= X / p) by (apply Z.div_pos; lia).
    destruct (X / p + 1 =? 10 ^ Z.of_nat k); cbn [fst snd].
    + destruct (is_representation y (X / p) n0) eqn:Elo;
        destruct (is_representation y (10 ^ Z.of_nat (k - 1)) (S n0)) eqn:Eup;
        cbn [andb orb negb];
        try match goal with |- context [if ?c then _ else _] => destruct c end;
        try apply IH;
        (split; [ try assumption; apply Z.pow_nonneg; lia
                | split; [ lia | apply is_representation_true; assumption ] ]).
    + destruct (is_representation y (X / p) n0) eqn:Elo;
        destruct (is_representation y (X / p + 1) n0) eqn:Eup;
        cbn [andb orb negb];
        try match goal with |- context [if ?c then _ else _] => destruct c end;
        try apply IH;
        (split; [ lia | split; [ lia | apply is_representation_true; assumption ] ]).
Qed.

Lemma parse_exponent_plus (E : Z) :
  0 <= E -> parse_exponent ("e+" ++ decimal E) = Some E.
Proof.
  intros HE. unfold parse_exponent. cbn [append]. cbv iota beta.
  change (Ascii.eqb "e" "e" || Ascii.eqb "e" "E") with true. cbv iota beta.
  rewrite (span_digits_all (decimal E) (decimal_digits E HE)).
  destruct (decimal_nonempty E) as (d & ds & Hd).
  pose proof (decimal_value E HE) as Hv. rewrite Hd in *. rewrite Hv.
  f_equal. lia.
Qed.

Lemma parse_unsigned_exponent (d : ascii) (rest : string) (E : Z) :
  all_digits (String d rest) = true -> 0 <= E ->
  parse_unsigned
    (match rest with
     | "" => String d ""
     | _ => String d ("." ++ rest)
     end ++ "e+" ++ decimal E) =
  Some (LitDecimal (inject_Z (digits_value (String d rest))
                    * 10 ^ (E - Z.of_nat (length rest)))%Q).
Proof.
  intros Hall HE.
  pose proof (parse_exponent_plus E HE) as Hexp.
  change ("e+" ++ decimal E) with (String "e" (String "+" (decimal E))) in *.
  assert (Hd : is_digit d = true) by (cbn [all_digits] in Hall; apply andb_prop in Hall; tauto).
  assert (Hnd : forall t, String "e" t = "" \/
                          exists c r', String "e" t = String c r' /\ is_digit c = false).
  { intros t. right. exists "e"%char, t. split; reflexivity. }
  unfold parse_unsigned. destruct rest as [ | c' r'].
  - change (String d "" ++ String "e" (String "+" (decimal E)))
      with (String d (String "e" (String "+" (decimal E)))) at 1.
    rewrite not_Infinity by exact Hd.
    rewrite (span_digits_app (String d "") _ Hall (Hnd _)).
    cbv iota beta. rewrite Hexp.
    replace (E - Z.of_nat (length "")) with E by (simpl; lia). reflexivity.
  - change (String d ("." ++ String c' r') ++ String "e" (String "+" (decimal E)))
      with (String d (String "." (String c' r' ++ String "e" (String "+" (decimal E))))) at 1.
    rewrite not_Infinity by exact Hd.
    change (String d ("." ++ String c' r') ++ String "e" (String "+" (decimal E)))
      with (String d "" ++ String "." (String c' r' ++ String "e" (String "+" (decimal E)))).
    rewrite (span_digits_app (String d "")).
    + cbv iota beta.
      cbn [all_digits] in Hall. apply andb_prop in Hall. destruct Hall as [_ Hrest].
      rewrite (span_digits_app (String c' r') _ Hrest (Hnd _)).
      cbn [append]. rewrite Hexp. reflexivity.
    + cbn [all_digits]. rewrite Hd. reflexivity.
    + right. eexists "."%char, _. split; reflexivity.
Qed.

Lemma Number_toString_large_spec (y : number) (m : positive) (e : Z) :
  Prim2SF y = S754_finite false m e -> 0 <= e ->
  exists c r l,
    Number_toString_large y = String c r /\ is_digit c = true /\
    parse_unsigned (String c r) = Some l /\ literal_value l = y.
Proof.
  intros Hy He. unfold Number_toString_large.
  assert (HX : Qfloor (MathValue y) = Zpos m * 2 ^ e).
  { rewrite (MathValue_finite y false m e Hy), (magnitude_integer m e He). apply Qfloor_Z. }
  rewrite HX. set (X := Zpos m * 2 ^ e) in *.
  assert (HX0 : 0 <= X).
  { unfold X. apply Z.mul_nonneg_nonneg; [ lia | apply Z.pow_nonneg; lia ]. }
  assert (Hn0 : (1 <= length (decimal X))%nat).
  { destruct (decimal_nonempty X) as (c & r & ->). simpl. lia. }
  assert (HXy : NumberValue (candidate_value X (length (decimal X))) = y).
  { rewrite <- (NumberValue_exact y m e Hy He). apply NumberValue_Qeq.
    unfold candidate_value. rewrite Z.sub_diag. fold X. change (10 ^ 0)%Q with 1%Q. ring. }
  pose proof (shortest_digits_spec (length (decimal X) - 1) 1 y X (length (decimal X))
                HX0 Hn0 HXy) as Hs.
  destruct (shortest_digits (length (decimal X) - 1) 1 y X (length (decimal X))) as [s n].
  destruct Hs as (Hs0 & Hn & Hrep).
  pose proof (decimal_digits s Hs0) as Hall. pose proof (decimal_value s Hs0) as Hval.
  unfold candidate_value in Hrep.
  destruct (decimal_nonempty s) as (d & rest & Hd). rewrite Hd in *.
  assert (HE : 0 <= Z.of_nat n - 1) by lia.
  pose proof (parse_unsigned_exponent d rest (Z.of_nat n - 1) Hall HE) as P.
  assert (Hd1 : is_digit d = true) by (cbn [all_digits] in Hall; apply andb_prop in Hall; tauto).
  assert (Hlit : literal_value
                   (LitDecimal (inject_Z (digits_value (String d rest))
                                * 10 ^ (Z.of_nat n - 1 - Z.of_nat (length rest)))%Q) = y).
  { cbn [literal_value]. rewrite Hval. rewrite <- Hrep. do 3 f_equal.
    cbn [length]. lia. }
  destruct rest as [ | c' r']; do 3 eexists;
    (split; [ reflexivity | split; [ exact Hd1 | split; [ exact P | exact Hlit ] ] ]).
Qed.

(** ** The number read back from [toFixed(1)] *)

Lemma Number_toFixed_1_large (x : number) :
  is_finite x = true ->
  Qle_bool (10 ^ 21) (Qabs (MathValue x)) = true ->
  exists s, Number_prototype_toFixed x 1 = Return s /\ Number s = x.
Proof.
  intros Hf Hl. eexists. split; [ apply toFixed_1_large; assumption | ].
  unfold is_finite in Hf.
  destruct (Prim2SF x) as [sx | sx | | sg m e] eqn:E; try discriminate Hf.
  - rewrite (MathValue_zero x sx E) in Hl. discriminate Hl.
  - pose proof (large_exponent x sg m e E Hl) as He.
    destruct (Number_toString_large_spec (abs x) m e (abs_finite x sg m e E) He)
      as (c & r & l & Hs & Hc & Hp & Hv).
    rewrite Hs, (sign_MathValue x sg m e E).
    rewrite (abs_sign x sg m e E) at 1. destruct sg; cbn [negb].
    + change ("-" ++ String c r) with (String "-" (String c r)).
      rewrite Number_minus, Hp, Hv. reflexivity.
    + change ("" ++ String c r) with (String c r).
      rewrite Number_unsigned, Hp, Hv by exact Hc. reflexivity.
Qed.

(** Reading back what [toFixed(1)] prints rounds to one decimal. *)
Lemma Number_toFixed_1 (x : number) :
  exists s, Number_prototype_toFixed x 1 = Return s /\ Number s = round_to_one_decimal x.
Proof.
  destruct (is_finite x) eqn:Hf.
  - destruct (Qle_bool (10 ^ 21) (Qabs (MathValue x))) eqn:Hl.
    + rewrite (round_to_one_decimal_large x Hf Hl). apply Number_toFixed_1_large; assumption.
    + apply Number_toFixed_1_small; assumption.
  - rewrite (round_to_one_decimal_not_finite x Hf). apply toFixed_1_not_finite. exact Hf.
Qed.

Lemma calculateBMI_binary64 (weightKg heightCm : number) :
  calculateBMI weightKg heightCm = Return (binary64_BMI weightKg heightCm).
Proof.
  unfold calculateBMI, binary64_BMI. cbv zeta.
  destruct (Number_toFixed_1 (weightKg / (heightCm / 100 * (heightCm / 100)))%float)
    as (s & Hs & Hn).
  rewrite Hs. cbn [bind]. rewrite Hn. reflexivity.
Qed.

(** ** The sign of the height *)

Lemma binary_round_aux_opp (s : bool) (m e : Z) (l : location) :
  binary_round_aux prec emax (negb s) m e l = SFopp (binary_round_aux prec emax s m e l).
Proof.
  unfold binary_round_aux.
  destruct (shr_fexp prec emax m e l) as [mrs e1].
  destruct (shr_fexp prec emax _ e1 loc_Exact) as [mrs' e2].
  destruct (shr_m mrs') as [ | p | p]; [ reflexivity | | reflexivity ].
  destruct (e2 <=? emax - prec); reflexivity.
Qed.

Lemma SFdiv_opp_l (a b : spec_float) :
  SFdiv prec emax (SFopp a) b = SFopp (SFdiv prec emax a b).
Proof.
  destruct a as [sa | sa | | sa ma ea], b as [sb | sb | | sb mb eb];
    cbn [SFdiv SFopp]; try reflexivity;
    try (rewrite <- negb_xorb_l; reflexivity).
  destruct (SFdiv_core_binary prec emax (Zpos ma) ea (Zpos mb) eb) as [[mz ez] lz].
  rewrite <- negb_xorb_l. apply binary_round_aux_opp.
Qed.

Lemma SFmul_opp_opp (a : spec_float) :
  SFmul prec emax (SFopp a) (SFopp a) = SFmul prec emax a a.
Proof.
  destruct a as [sa | sa | | sa ma ea]; cbn [SFmul SFopp]; try reflexivity;
    destruct sa; reflexivity.
Qed.

Lemma div_opp_l (x y : number) : (- x / y)%float = (- (x / y))%float.
Proof.
  apply Prim2SF_inj. rewrite opp_spec, !div_spec, opp_spec. apply SFdiv_opp_l.
Qed.

Lemma mul_opp_opp (x : number) : (- x * - x)%float = (x * x)%float.
Proof.
  apply Prim2SF_inj. rewrite !mul_spec, opp_spec. apply SFmul_opp_opp.
Qed.

(** ** A height of zero *)

Lemma square_of_zero_height (h : number) :
  strict_eq h 0%float = true -> (h / 100 * (h / 100))%float = zero.
Proof.
  intros H. apply strict_eq_zero in H. destruct H as [-> | ->]; reflexivity.
Qed.

(** What a division by +0 gives, by the sign of the dividend. *)
Lemma div_by_zero (w : number) :
  ((0 <? w)%float = true -> (w / zero)%float = infinity) /\
  ((w <? 0)%float = true -> (w / zero)%float = neg_infinity) /\
  (strict_eq w 0%float = true -> (w / zero)%float = nan).
Proof.
  unfold strict_eq. rewrite !ltb_spec, eqb_spec.
  change (Prim2SF 0%float) with (S754_zero false).
  repeat split; intros H; apply Prim2SF_inj; rewrite div_spec;
    change (Prim2SF zero) with (S754_zero false);
    destruct (Prim2SF w) as [[|] | [|] | | [|] m e]; try discriminate H; reflexivity.
Qed.

(** ** The index on the ranges of the form *)

Lemma Zrange_In (lo : Z) (n : nat) (z : Z) :
  lo <= z < lo + Z.of_nat n -> In z (Zrange lo n).
Proof.
  intros Hz. unfold Zrange. apply in_map_iff. exists (Z.to_nat (z - lo)). split.
  - lia.
  - apply in_seq. lia.
Qed.

Lemma small_number_of_Z (z : Z) : 30 <= z <= 300 -> of_Z z = small_number z.
Proof.
  intros Hz.
  assert (H : forallb (fun z => PrimFloat.Leibniz.eqb (of_Z z) (small_number z)) (Zrange 30 271)
              = true) by (vm_compute; reflexivity).
  rewrite forallb_forall in H.
  apply FloatAxioms.Leibniz.eqb_spec, H, Zrange_In. lia.
Qed.

(** The weights 30..300 and the heights 100..250 that the inputs of the form
    ask for, one by one. *)
Lemma nearest_tenth_check_form :
  forallb (fun w => forallb (nearest_tenth_check w) (Zrange 100 151)) (Zrange 30 271) = true.
Proof. vm_compute. reflexivity. Qed.

(** The tenths of a positive number [m / 2 ^ k]. *)
Lemma tenths_of_fraction (m k : positive) :
  Qfloor (Qabs (inject_Z (Zpos m) * 2 ^ Zneg k) * 10 + (1 # 2))%Q
  = Z.shiftr (20 * Zpos m + Z.shiftl 1 (Zpos k)) (Zpos k + 1).
Proof.
  rewrite Z.shiftr_div_pow2, Z.shiftl_1_l by lia.
  assert (E : (Qabs (inject_Z (Zpos m) * 2 ^ Zneg k) * 10 + (1 # 2)
               == (20 * Zpos m + 2 ^ Zpos k) # (2 ^ (k + 1))%positive)%Q).
  { rewrite Qabs_pos by (apply Qlt_le_weak, magnitude_positive).
    rewrite (Qpower_decomp_neg_pos k 2 1).
    unfold Qeq. cbn [Qnum Qden Qmult Qplus inject_Z].
    rewrite !Pos2Z.inj_mul, !Pos2Z.inj_pow, Pos2Z.inj_add, Z.pow_1_l by lia.
    rewrite Z.pow_add_r by lia. ring. }
  rewrite E. unfold Qfloor. rewrite Pos2Z.inj_pow, Pos2Z.inj_add. reflexivity.
Qed.

(** A tenth [n / 10] within one twentieth of [10000 * w / h ^ 2]. *)
Lemma near_exact_BMI (n w h : Z) :
  0 < h ->
  Z.abs (2 * n * (h * h) - 200000 * w) <= h * h ->
  (Qabs (inject_Z n / 10 - exact_BMI w h) <= 1 # 20)%Q.
Proof.
  intros Hh Hd. unfold exact_BMI.
  assert (Hq : (inject_Z 0 < inject_Z h)%Q) by (rewrite <- Zlt_Qlt; exact Hh).
  change (inject_Z 0) with 0%Q in Hq.
  assert (E : (inject_Z n / 10 - inject_Z w / (inject_Z h / 100 * (inject_Z h / 100))
               == inject_Z (2 * n * (h * h) - 200000 * w) / inject_Z (20 * (h * h)))%Q).
  { unfold Z.sub. rewrite inject_Z_plus, inject_Z_opp, !inject_Z_mult.
    field. lra. }
  rewrite E.
  assert (Hc : (inject_Z 0 < inject_Z (20 * (h * h)))%Q) by (rewrite <- Zlt_Qlt; nia).
  change (inject_Z 0) with 0%Q in Hc.
  apply Qabs_Qle_condition. split.
  - apply Qle_shift_div_l; [ exact Hc | ].
    rewrite inject_Z_mult. change (inject_Z 20) with 20%Q.
    setoid_replace (- (1 # 20) * (20 * inject_Z (h * h)))%Q
      with (inject_Z (- (h * h))) by (rewrite inject_Z_opp; ring).
    rewrite <- Zle_Qle. lia.
  - apply Qle_shift_div_r; [ exact Hc | ].
    rewrite inject_Z_mult. change (inject_Z 20) with 20%Q.
    setoid_replace ((1 # 20) * (20 * inject_Z (h * h)))%Q
      with (inject_Z (h * h)) by ring.
    rewrite <- Zle_Qle. lia.
Qed.

(** On those ranges the result is the number of a tenth [n / 10], with [n]
    within [h ^ 2] of [200000 * w / (2 * h ^ 2)]. *)
Lemma calculateBMI_tenths (weightKg heightCm : Z) :
  30 <= weightKg <= 300 -> 100 <= heightCm <= 250 ->
  exists n,
    calculateBMI (of_Z weightKg) (of_Z heightCm) = Return (NumberValue (inject_Z n / 10)) /\
    Z.abs (2 * n * (heightCm * heightCm) - 200000 * weightKg) <= heightCm * heightCm.
Proof.
  intros Hw Hh.
  pose proof nearest_tenth_check_form as H. rewrite forallb_forall in H.
  specialize (H weightKg (Zrange_In 30 271 weightKg ltac:(lia))).
  rewrite forallb_forall in H.
  specialize (H heightCm (Zrange_In 100 151 heightCm ltac:(lia))).
  unfold nearest_tenth_check in H. cbv zeta in H.
  rewrite <- !small_number_of_Z in H by lia.
  set (q := (of_Z weightKg / (of_Z heightCm / 100 * (of_Z heightCm / 100)))%float) in *.
  destruct (Prim2SF q) as [sx | sx | | [ | ] m [ | e | k]] eqn:E; try discriminate H.
  apply Z.leb_le in H.
  exists (Z.shiftr (20 * Zpos m + Z.shiftl 1 (Zpos k)) (Zpos k + 1)). split.
  - rewrite calculateBMI_binary64. unfold binary64_BMI. cbv zeta. fold q.
    assert (Hfin : is_finite q = true) by (unfold is_finite; rewrite E; reflexivity).
    rewrite (round_to_one_decimal_finite q Hfin). cbv zeta.
    rewrite (sign_MathValue q false m (Zneg k) E). cbn [negb].
    rewrite (MathValue_finite q false m (Zneg k) E), tenths_of_fraction. reflexivity.
  - exact H.
Qed.

(** On those ranges the result is a tenth nearest to the exact index: it is
    the exact index rounded to one decimal place, a half going either way. *)
Lemma calculateBMI_on_the_form (weightKg heightCm : Z) :
  30 <= weightKg <= 300 -> 100 <= heightCm <= 250 ->
  exists n,
    calculateBMI (of_Z weightKg) (of_Z heightCm) = Return (NumberValue (inject_Z n / 10)) /\
    (Qabs (inject_Z n / 10 - exact_BMI weightKg heightCm) <= 1 # 20)%Q.
Proof.
  intros Hw Hh. destruct (calculateBMI_tenths weightKg heightCm Hw Hh) as (n & E & H).
  exists n. split; [ exact E | ]. apply near_exact_BMI; [ lia | exact H ].
Qed.

(** The tenths up to 300.0 as numbers: the quotient of the integer by 10, in
    binary64, is the number nearest to the tenth; it is finite, and positive
    but for 0. *)
Lemma tenth_numbers :
  forallb (fun n =>
             PrimFloat.Leibniz.eqb (NumberValue (inject_Z n / 10)) (small_number n / 10)%float
             && is_finite (small_number n / 10)%float
             && ((n =? 0) || (0 <? small_number n / 10)%float))
          (Zrange 0 3001) = true.
Proof. vm_compute. reflexivity. Qed.

(** The same with the numbers written by the primitive operations only. *)
Lemma calculateBMI_form_number (weightKg heightCm : Z) :
  30 <= weightKg <= 300 -> 100 <= heightCm <= 250 ->
  exists n,
    calculateBMI (small_number weightKg) (small_number heightCm)
    = Return (small_number n / 10)%float /\
    (Qabs (inject_Z n / 10 - exact_BMI weightKg heightCm) <= 1 # 20)%Q /\
    is_finite (small_number n / 10)%float = true /\
    (0 <? small_number n / 10)%float = true.
Proof.
  intros Hw Hh. destruct (calculateBMI_tenths weightKg heightCm Hw Hh) as (n & E & H).
  assert (Hn : 1 <= n <= 3000) by nia.
  pose proof tenth_numbers as Hall. rewrite forallb_forall in Hall.
  specialize (Hall n (Zrange_In 0 3001 n ltac:(lia))).
  apply andb_true_iff in Hall. destruct Hall as [Hall Hpos].
  apply andb_true_iff in Hall. destruct Hall as [Heq Hfin].
  apply FloatAxioms.Leibniz.eqb_spec in Heq.
  destruct (Z.eqb_spec n 0) as [-> | _]; [ lia | ]. cbn [orb] in Hpos.
  exists n. rewrite <- !small_number_of_Z by lia. rewrite E, Heq.
  split; [ reflexivity | ]. split; [ apply near_exact_BMI; [ lia | exact H ] | ].
  split; assumption.
Qed.

(** * The properties of the specification *)

(** ** Risk classification *)

Example risk_of_21 : getFMSRiskLevel 21%float = Return lowRisk.
Proof. vm_compute. reflexivity. Qed.

Example risk_of_15 : getFMSRiskLevel 15%float = Return lowRisk.
Proof. vm_compute. reflexivity. Qed.

Example risk_of_12 : getFMSRiskLevel 12%float = Return moderateRisk.
Proof. vm_compute. reflexivity. Qed.

Example risk_of_11 : getFMSRiskLevel 11%float = Return highRisk.
Proof. vm_compute. reflexivity. Qed.

(** C1: for every integer total of [0,21], [getFMSRiskLevel] returns the band
    low when the total is at least 15, moderate when it is at least 12 and
    below 15, and high when it is below 12. *)
Theorem getFMSRiskLevel_classifies (total : Z) :
  0 <= total <= 21 ->
  returns (getFMSRiskLevel (of_Z total)) (fun r =>
    (15 <= total -> level r = low) /\
    (12 <= total < 15 -> level r = moderate) /\
    (total < 12 -> level r = high)).
Proof.
  intros Ht. rewrite getFMSRiskLevel_bands by assumption. unfold returns.
  destruct (15 <=? total) eqn:H15; [ | destruct (12 <=? total) eqn:H12 ];
    cbn [level lowRisk moderateRisk highRisk];
    repeat split; intros; try reflexivity; lia.
Qed.

(** The boundary values of C1: 21 and 15 are low, 12 is moderate, 11 is high. *)
Lemma getFMSRiskLevel_classifies_boundaries :
  returns (getFMSRiskLevel (of_Z 21)) (fun r => level r = low) /\
  returns (getFMSRiskLevel (of_Z 15)) (fun r => level r = low) /\
  returns (getFMSRiskLevel (of_Z 12)) (fun r => level r = moderate) /\
  returns (getFMSRiskLevel (of_Z 11)) (fun r => level r = high).
Proof.
  assert (H21 := getFMSRiskLevel_classifies 21).
  assert (H15 := getFMSRiskLevel_classifies 15).
  assert (H12 := getFMSRiskLevel_classifies 12).
  assert (H11 := getFMSRiskLevel_classifies 11).
  unfold returns in *.
  destruct (getFMSRiskLevel (of_Z 21)); [ | exfalso; apply H21; lia ].
  destruct (getFMSRiskLevel (of_Z 15)); [ | exfalso; apply H15; lia ].
  destruct (getFMSRiskLevel (of_Z 12)); [ | exfalso; apply H12; lia ].
  destruct (getFMSRiskLevel (of_Z 11)); [ | exfalso; apply H11; lia ].
  repeat split.
  - apply H21; lia.
  - apply H15; lia.
  - apply H12; lia.
  - apply H11; lia.
Defined.

(** C7: a total that [calculateFMSTotal] returns for valid sub-scores is an
    integer of [0,21], and on it [getFMSRiskLevel] does not throw: it returns
    one of its three results, of band low, moderate or high. *)
Theorem getFMSRiskLevel_never_throws (s : FMSSubScores) (t : number) :
  valid_scores s ->
  calculateFMSTotal s = Return t ->
  (exists z, 0 <= z <= 21 /\ t = of_Z z) /\
  (getFMSRiskLevel t = Return lowRisk \/
   getFMSRiskLevel t = Return moderateRisk \/
   getFMSRiskLevel t = Return highRisk).
Proof.
  intros Hs Ht. split.
  - destruct (calculateFMSTotal_valid s Hs) as [E R].
    exists (sum_of_fields s). split; [ exact R | congruence ].
  - apply getFMSRiskLevel_total.
Qed.

Lemma getFMSRiskLevel_never_throws_witness :
  valid_scores allTwos /\
  calculateFMSTotal allTwos = Return 14%float /\
  getFMSRiskLevel 14%float = Return moderateRisk.
Proof.
  split; [ exact allTwos_valid | ].
  split; [ vm_compute; reflexivity | ].
  destruct (getFMSRiskLevel_never_throws allTwos 14%float allTwos_valid eq_refl)
    as [_ [H | [H | H]]].
  - vm_compute in H. discriminate H.
  - exact H.
  - vm_compute in H. discriminate H.
Defined.

(** ** The FMS total *)

(** C5: for every object that has the seven sub-scores and nothing else, in
    whatever order, each of them an integer of [0,3], [calculateFMSTotal]
    returns the sum of the seven fields, each taken by its name, and the sum
    is in [0,21]. *)
Theorem calculateFMSTotal_sums_valid_scores (scores : ScoresObject) :
  valid_scores scores ->
  calculateFMSTotal scores = Return (of_Z (sum_of_fields scores)) /\
  0 <= sum_of_fields scores <= 21.
Proof.
  intros H. exact (calculateFMSTotal_valid scores H).
Qed.

Lemma otherOrder_valid : valid_scores otherOrder.
Proof.
  split.
  - unfold seven_fields. apply NoDup_Permutation.
    + cbn [map fst otherOrder].
      repeat (apply NoDup_cons; [ cbn [In]; intuition discriminate | ]). apply NoDup_nil.
    + unfold score_names.
      repeat (apply NoDup_cons; [ cbn [In]; intuition discriminate | ]). apply NoDup_nil.
    + intros name. cbn [map fst otherOrder score_names In]. tauto.
  - intros name Hname. unfold score_names in Hname. cbn [In] in Hname.
    repeat destruct Hname as [Hname | Hname]; try contradiction; subst name;
      (eexists; split; [ reflexivity | ]).
    + exists 0. split; [ lia | reflexivity ].
    + exists 3. split; [ lia | reflexivity ].
    + exists 1. split; [ lia | reflexivity ].
    + exists 0. split; [ lia | reflexivity ].
    + exists 1. split; [ lia | reflexivity ].
    + exists 2. split; [ lia | reflexivity ].
    + exists 3. split; [ lia | reflexivity ].
Qed.

(** The all-twos record yields 14; an object with the fields 0, 3, 1, 0, 1,
    2, 3, created in another order, yields 10. *)
Lemma calculateFMSTotal_all_twos :
  valid_scores allTwos /\
  sum_of_fields allTwos = 14 /\
  calculateFMSTotal allTwos = Return 14%float /\
  valid_scores otherOrder /\
  sum_of_fields otherOrder = 10 /\
  calculateFMSTotal otherOrder = Return 10%float.
Proof.
  split; [ exact allTwos_valid | ].
  split; [ vm_compute; reflexivity | ].
  split.
  { destruct (calculateFMSTotal_sums_valid_scores allTwos allTwos_valid) as [E _].
    rewrite E. vm_compute. reflexivity. }
  split; [ exact otherOrder_valid | ].
  split; [ vm_compute; reflexivity | ].
  destruct (calculateFMSTotal_sums_valid_scores otherOrder otherOrder_valid) as [E _].
  rewrite E. vm_compute. reflexivity.
Defined.

(** C3, as the code has it: [calculateFMSTotal] checks no range and never
    throws.  Whatever object it is given, it returns the sum of the values of
    the properties, added from the left to 0 in the order in which the object
    enumerates them: 0 for no property, and with one more property the
    former sum plus the new value.  For an object whose seven properties were
    created in the order of the declaration this is the sum of the seven
    fields in that order; for one sub-score of 4 among six of 2, in whatever
    order, it is 16. *)
Theorem calculateFMSTotal_sums_any_scores (scores : ScoresObject) :
  (exists total, calculateFMSTotal scores = Return total) /\
  (forall e, calculateFMSTotal scores <> Throw e) /\
  calculateFMSTotal [] = Return 0%float /\
  (forall name score,
     calculateFMSTotal (scores ++ [(name, score)])%list =
     (total <- calculateFMSTotal scores ;; Return (total + score)%float)) /\
  (forall a b c d e f g : number,
     calculateFMSTotal
       [ ("deep_squat", a); ("hurdle_step", b); ("inline_lunge", c);
         ("shoulder_mobility", d); ("active_straight_leg_raise", e);
         ("trunk_stability_pushup", f); ("rotary_stability", g) ] =
     Return (0 + a + b + c + d + e + f + g)%float) /\
  (Permutation (map snd scores) [4; 2; 2; 2; 2; 2; 2]%float ->
   calculateFMSTotal scores = Return 16%float).
Proof.
  split; [ eexists; reflexivity | ].
  split; [ intros e H; discriminate H | ].
  split; [ reflexivity | ].
  split; [ | split ].
  - intros name score. unfold calculateFMSTotal, Object_values.
    rewrite map_app, fold_left_app. reflexivity.
  - intros a b c d e f g. reflexivity.
  - intros H. unfold calculateFMSTotal, Object_values.
    change 0%float with (of_Z 0).
    assert (Hsum : fold_right Z.add 0 (map integer_value (map snd scores)) = 16).
    { rewrite (sum_permutation integer_value _ _ H). reflexivity. }
    rewrite fold_twos_and_fours.
    + rewrite Hsum. reflexivity.
    + apply (Permutation_Forall (Permutation_sym H)).
      split_Forall; auto.
    + lia.
    + lia.
Qed.

(** The record with a 4 among twos, and the same seven properties with the 4
    created last: both calls return 16, and a further property of 1 gives
    17. *)
Lemma calculateFMSTotal_sums_any_scores_witness :
  calculateFMSTotal oneFour = Return 16%float /\
  calculateFMSTotal fourLast = Return 16%float /\
  calculateFMSTotal (fourLast ++ [("total_score", 1%float)])%list = Return 17%float.
Proof.
  destruct (calculateFMSTotal_sums_any_scores oneFour) as (_ & _ & _ & _ & _ & Hfirst).
  destruct (calculateFMSTotal_sums_any_scores fourLast) as (_ & _ & _ & Hmore & _ & Hlast).
  assert (H : calculateFMSTotal fourLast = Return 16%float).
  { apply Hlast.
    apply Permutation_sym, (Permutation_cons_append [2; 2; 2; 2; 2; 2]%float 4%float). }
  split; [ apply Hfirst; apply Permutation_refl | ].
  split; [ exact H | ].
  rewrite Hmore, H. reflexivity.
Defined.

(** The order shows in the sum: the same seven fields give 2 ^ 53 + 2 when
    2 ^ 53 is added last and 2 ^ 53 when it is added first. *)
Remark calculateFMSTotal_order :
  (forall name, In name score_names -> property largeFirst name = property largeLast name) /\
  calculateFMSTotal largeLast = Return 0x1.0000000000001p+53%float /\
  calculateFMSTotal largeFirst = Return 0x1p+53%float.
Proof.
  split; [ | split; vm_compute; reflexivity ].
  intros name Hname. unfold score_names in Hname. cbn [In] in Hname.
  repeat destruct Hname as [Hname | Hname]; try contradiction; subst name; reflexivity.
Qed.

(** C3 fails on the record with one sub-score of 4: the scores are not valid,
    and the call returns 16 instead of throwing. *)
Lemma calculateFMSTotal_accepts_a_four :
  ~ valid_scores oneFour /\
  calculateFMSTotal oneFour = Return 16%float /\
  forall e, calculateFMSTotal oneFour <> Throw e.
Proof.
  split; [ | split ].
  - intros [_ H].
    destruct (H "deep_squat" ltac:(left; reflexivity)) as (score & Hget & Hscore).
    injection Hget as <-. exact (four_not_valid Hscore).
  - vm_compute. reflexivity.
  - intros e H. discriminate H.
Qed.

(** ** The two threshold rules *)

(** C6: on the integers of [0,21] the shared helper calls a total low from
    15 on and the inline display of the wizard from 14 on, both leave the
    high band at 12, and the colour they give differs exactly at 14. *)
Theorem risk_thresholds_disagree_at_14 (total : Z) :
  0 <= total <= 21 ->
  returns (getFMSRiskLevel (of_Z total)) (fun r =>
    (level r = low <-> 15 <= total) /\
    (level r = high <-> total < 12) /\
    (color r <> inlineRiskColor (of_Z total) <-> total = 14)) /\
  (inlineRiskText (of_Z total) = "Low injury risk" <-> 14 <= total) /\
  (inlineRiskColor (of_Z total) = "text-green-600" <-> 14 <= total) /\
  (inlineRiskColor (of_Z total) = "text-red-600" <-> total < 12).
Proof.
  intros Ht. rewrite getFMSRiskLevel_bands by assumption.
  each_integer total 0 22%nat;
    (split; [ | split; [ | split ] ]);
    try (cbv zeta iota beta delta [Z.leb Z.compare Pos.compare Pos.compare_cont returns
           lowRisk moderateRisk highRisk level color]);
    repeat split;
    try (intros H; first [ lia | reflexivity | discriminate H
                         | vm_compute in H; first [ discriminate H | congruence ] ]);
    try (intros _; first [ lia | vm_compute; first [ reflexivity | discriminate ] ]).
Qed.

(** At 14 the shared helper says moderate, in yellow, and the wizard says low,
    in green. *)
Lemma risk_thresholds_disagree_at_14_witness :
  returns (getFMSRiskLevel 14%float) (fun r =>
    level r = moderate /\ color r = "text-yellow-600") /\
  inlineRiskColor 14%float = "text-green-600" /\
  inlineRiskText 14%float = "Low injury risk" /\
  returns (getFMSRiskLevel (of_Z 14)) (fun r => color r <> inlineRiskColor (of_Z 14)).
Proof.
  split; [ vm_compute; split; reflexivity | ].
  split; [ vm_compute; reflexivity | ].
  split; [ vm_compute; reflexivity | ].
  assert (H := risk_thresholds_disagree_at_14 14).
  unfold returns in *.
  destruct (getFMSRiskLevel (of_Z 14)); [ | apply H; lia ].
  apply H; [ lia | reflexivity ].
Defined.

(** ** The body mass index *)

Example number_24_2 : NumberValue (242 # 10) = 24.2%float.
Proof. vm_compute. reflexivity. Qed.

(** C4, as the code has it: for a weight and a height that are whole numbers
    within the bounds of the form (30 to 300 kg, 100 to 250 cm),
    [calculateBMI] returns the number of a tenth that is nearest to the
    exact index weight / (height / 100) ^ 2: a multiple of one tenth at most
    one twentieth away from it.  When the exact index is halfway between two
    tenths, the result is one of the two. *)
Theorem calculateBMI_nearest_tenth (weightKg heightCm : Z) :
  30 <= weightKg <= 300 -> 100 <= heightCm <= 250 ->
  exists tenths : Z,
    calculateBMI (small_number weightKg) (small_number heightCm)
    = Return (small_number tenths / 10)%float /\
    (Qabs (inject_Z tenths / 10 - exact_BMI weightKg heightCm) <= 1 # 20)%Q.
Proof.
  intros Hw Hh.
  destruct (calculateBMI_form_number weightKg heightCm Hw Hh) as (n & E & Hnear & _).
  exists n. split; assumption.
Qed.

(** [calculateBMI(70, 170)] is 24.2, the tenth nearest to 70 / 1.7 ^ 2. *)
Lemma calculateBMI_70_170 :
  calculateBMI 70%float 170%float = Return 24.2%float /\
  (Qabs ((242 # 10) - exact_BMI 70 170) <= 1 # 20)%Q /\
  exists tenths : Z,
    calculateBMI 70%float 170%float = Return (small_number tenths / 10)%float /\
    (Qabs (inject_Z tenths / 10 - exact_BMI 70 170) <= 1 # 20)%Q.
Proof.
  split; [ vm_compute; reflexivity | ].
  split; [ vm_compute; discriminate | ].
  apply (calculateBMI_nearest_tenth 70 170); lia.
Defined.

(** C4 fails at 48 kg and 160 cm: the exact index is 18.75, which rounded to
    one decimal place is 18.8, a half going up (or to the even digit), and
    the call returns 18.7.  Nor does a half go down: at 101 kg and 200 cm the
    exact index is 25.25 and the call returns 25.3.  And not every positive
    height has an index at all: for 70 kg and 2 ^ -600 cm the call returns
    Infinity. *)
Lemma calculateBMI_48_160 :
  ((0 <? 0x1p-600)%float = true /\
   calculateBMI 70%float 0x1p-600%float = Return infinity) /\
  (exact_BMI 48 160 == 1875 # 100)%Q /\
  tenths_half_up (exact_BMI 48 160) = 188 /\
  calculateBMI 48%float 160%float = Return 18.7%float /\
  calculateBMI 48%float 160%float
  <> Return (small_number (tenths_half_up (exact_BMI 48 160)) / 10)%float /\
  (exact_BMI 101 200 == 2525 # 100)%Q /\
  tenths_half_down (exact_BMI 101 200) = 252 /\
  calculateBMI 101%float 200%float = Return 25.3%float /\
  calculateBMI 101%float 200%float
  <> Return (small_number (tenths_half_down (exact_BMI 101 200)) / 10)%float.
Proof.
  split; [ split; vm_compute; reflexivity | ].
  split; [ vm_compute; reflexivity | ].
  split; [ vm_compute; reflexivity | ].
  split; [ vm_compute; reflexivity | ].
  split.
  { change (calculateBMI 48%float 160%float) with (@Return number 18.7%float).
    apply Return_neq. vm_compute. discriminate. }
  split; [ vm_compute; reflexivity | ].
  split; [ vm_compute; reflexivity | ].
  split; [ vm_compute; reflexivity | ].
  change (calculateBMI 101%float 200%float) with (@Return number 25.3%float).
  apply Return_neq. vm_compute. discriminate.
Qed.

(** The rounding is that of the computed quotient.  At 48 kg and 160 cm the
    exact quotient is 18.75, halfway between two tenths, the computed one is
    just below, and the result is 18.7; at 101 kg and 200 cm the quotient
    25.25 is computed exactly, and the result is 25.3. *)
Remark calculateBMI_halfway :
  (48 / ((160 # 100) * (160 # 100)) == 75 # 4)%Q /\
  (MathValue (48 / (160 / 100 * (160 / 100)))%float < 75 # 4)%Q /\
  calculateBMI 48%float 160%float = Return (NumberValue (187 # 10)) /\
  (MathValue (101 / (200 / 100 * (200 / 100)))%float == 101 # 4)%Q /\
  calculateBMI 101%float 200%float = Return (NumberValue (253 # 10)).
Proof.
  repeat split; vm_compute; reflexivity.
Qed.

(** C2, as the code has it: [calculateBMI] checks nothing and never throws.
    For every weight and height it returns a number; for a height of zero
    that number is Infinity for a positive weight, -Infinity for a negative
    one and NaN for a weight of zero. *)
Theorem calculateBMI_never_fails (weightKg heightCm : number) :
  exists v,
    calculateBMI weightKg heightCm = Return v /\
    (strict_eq heightCm 0%float = true ->
     ((0 <? weightKg)%float = true -> v = infinity) /\
     ((weightKg <? 0)%float = true -> v = neg_infinity) /\
     (strict_eq weightKg 0%float = true -> v = nan)).
Proof.
  exists (binary64_BMI weightKg heightCm). split; [ apply calculateBMI_binary64 | ].
  intros Hh. unfold binary64_BMI. cbv zeta. rewrite (square_of_zero_height heightCm Hh).
  destruct (div_by_zero weightKg) as (Hpos & Hneg & Hzero).
  repeat split; intros Hw;
    [ rewrite (Hpos Hw) | rewrite (Hneg Hw) | rewrite (Hzero Hw) ]; reflexivity.
Qed.

(** C2 fails at a weight of 70 and a height of 0: the call returns Infinity,
    and throws nothing; with a weight of 0 as well it returns NaN. *)
Lemma calculateBMI_zero_height_returns :
  calculateBMI 70%float 0%float = Return infinity /\
  (forall e, calculateBMI 70%float 0%float <> Throw e) /\
  calculateBMI 0%float 0%float = Return nan.
Proof.
  split; [ vm_compute; reflexivity | ].
  split; [ intros e H; vm_compute in H; discriminate H | vm_compute; reflexivity ].
Qed.

(** C9, as the code has it: for every weight and every height, zero
    included, the height and its opposite give the same result, and neither
    call is rejected.  That result is a finite, positive index for the whole
    numbers of the form (a weight of 30 to 300 and a height of 100 to 250,
    taken with either sign), at most one twentieth away from the exact index
    of the positive height; it is not finite for every height other than
    zero. *)
Theorem calculateBMI_ignores_height_sign (weightKg heightCm : number) :
  calculateBMI weightKg (- heightCm)%float = calculateBMI weightKg heightCm /\
  (exists v, calculateBMI weightKg (- heightCm)%float = Return v) /\
  (forall w h : Z,
     30 <= w <= 300 -> 100 <= h <= 250 ->
     weightKg = small_number w -> heightCm = small_number h ->
     exists tenths : Z,
       calculateBMI weightKg (- heightCm)%float = Return (small_number tenths / 10)%float /\
       is_finite (small_number tenths / 10)%float = true /\
       (0 <? small_number tenths / 10)%float = true /\
       (Qabs (inject_Z tenths / 10 - exact_BMI w h) <= 1 # 20)%Q).
Proof.
  assert (E : calculateBMI weightKg (- heightCm)%float = calculateBMI weightKg heightCm).
  { unfold calculateBMI. cbv zeta. rewrite div_opp_l, mul_opp_opp. reflexivity. }
  split; [ exact E | ]. split.
  - rewrite E. eexists. apply calculateBMI_binary64.
  - intros w h Hw Hh -> ->. rewrite E.
    destruct (calculateBMI_form_number w h Hw Hh) as (n & En & Hnear & Hfin & Hpos).
    exists n. repeat split; assumption.
Qed.

(** A height of -170 gives the 24.2 of 170, a finite and positive number. *)
Lemma calculateBMI_ignores_height_sign_witness :
  calculateBMI 70%float (- 170)%float = calculateBMI 70%float 170%float /\
  calculateBMI 70%float (- 170)%float = Return 24.2%float /\
  is_finite 24.2%float = true /\
  (0 <? 24.2)%float = true /\
  exists tenths : Z,
    calculateBMI 70%float (- 170)%float = Return (small_number tenths / 10)%float /\
    is_finite (small_number tenths / 10)%float = true /\
    (0 <? small_number tenths / 10)%float = true /\
    (Qabs (inject_Z tenths / 10 - exact_BMI 70 170) <= 1 # 20)%Q.
Proof.
  destruct (calculateBMI_ignores_height_sign 70%float 170%float) as (E & _ & H).
  split; [ exact E | ]. split; [ vm_compute; reflexivity | ].
  split; [ reflexivity | ]. split; [ reflexivity | ].
  apply (H 70 170); [ lia | lia | reflexivity | reflexivity ].
Defined.

(** C9 fails at a weight of 70 and a height of 2 ^ -600, which is not zero:
    the square of the height in metres, of either sign, is smaller than
    every positive number and becomes 0, and both calls return Infinity,
    which is not a finite index. *)
Lemma calculateBMI_tiny_height :
  strict_eq 0x1p-600%float 0%float = false /\
  strict_eq (- 0x1p-600)%float 0%float = false /\
  calculateBMI 70%float (- 0x1p-600)%float = Return infinity /\
  calculateBMI 70%float 0x1p-600%float = Return infinity /\
  is_finite infinity = false.
Proof.
  repeat split; vm_compute; reflexivity.
Qed.

(** ** The submitted record *)

(** C10: in every assessment that [handleSubmit] posts, the seven sub-scores
    of the FMS record are those of the form and its total is the sum of
    these seven fields of the same record: added from the left to 0 as
    numbers, which is what [calculateFMSTotal] returns on them, and, for
    every form that the score buttons can lead to, their sum as integers,
    between 0 and 21. *)
Theorem handleSubmit_total_consistent
  (session : option Session) (now : string) (st : FormState) (data : AssessmentData) :
  handleSubmit session now st = Return data ->
  sub_scores (fms_scores data) = fmsScores st /\
  calculateFMSTotal (sub_scores (fms_scores data)) = Return (total_score (fms_scores data)) /\
  total_score (fms_scores data)
  = (0 + fms_deep_squat (fms_scores data) + fms_hurdle_step (fms_scores data)
     + fms_inline_lunge (fms_scores data) + fms_shoulder_mobility (fms_scores data)
     + fms_active_straight_leg_raise (fms_scores data)
     + fms_trunk_stability_pushup (fms_scores data)
     + fms_rotary_stability (fms_scores data))%float /\
  (reachable st ->
   total_score (fms_scores data) = of_Z (stored_sum (fms_scores data)) /\
   0 <= stored_sum (fms_scores data) <= 21).
Proof.
  unfold handleSubmit. destruct session as [sess | ]; [ | discriminate ].
  cbn [bind calculateFMSTotal]. intros H. injection H as <-.
  cbn [fms_scores].
  split; [ destruct (fmsScores st); reflexivity | ].
  split; [ destruct (fmsScores st); reflexivity | ].
  split; [ reflexivity | ].
  intros Hst. destruct (reachable_total st Hst) as [Htotal Hrange].
  unfold calculateFMSTotal in Htotal. injection Htotal as Htotal.
  split; [ exact Htotal | exact Hrange ].
Qed.

(** With a session, the initial form is posted with the total 14, the sum of
    its seven twos; after a click on the 0 of the deep squat, with 12. *)
Lemma handleSubmit_total_consistent_witness :
  (exists data,
     handleSubmit (Some someSession) someDate initialState = Return data /\
     total_score (fms_scores data) = 14%float /\
     stored_sum (fms_scores data) = 14) /\
  (exists data,
     handleSubmit (Some someSession) someDate (setFmsScore initialState key_deep_squat 0%float)
     = Return data /\
     total_score (fms_scores data) = 12%float /\
     stored_sum (fms_scores data) = 12).
Proof.
  split.
  - eexists. split; [ reflexivity | ].
    destruct (handleSubmit_total_consistent (Some someSession) someDate initialState _ eq_refl)
      as (_ & _ & _ & H).
    destruct (H reachable_initial) as [Htotal _].
    split; [ rewrite Htotal; vm_compute; reflexivity | vm_compute; reflexivity ].
  - eexists. split; [ reflexivity | ].
    assert (Hst : reachable (setFmsScore initialState key_deep_squat 0%float)).
    { apply reachable_click; [ exact reachable_initial | left; reflexivity ]. }
    destruct (handleSubmit_total_consistent (Some someSession) someDate
                (setFmsScore initialState key_deep_squat 0%float) _ eq_refl)
      as (_ & _ & _ & H).
    destruct (H Hst) as [Htotal _].
    split; [ rewrite Htotal; vm_compute; reflexivity | vm_compute; reflexivity ].
Defined.

(** * Further properties of the code *)

(** ** The order of the numbers *)

Lemma SFleb_trans (a b c : spec_float) :
  SFleb a b = true -> SFleb b c = true -> SFleb a c = true.
Proof.
  unfold SFleb, SFcompare.
  destruct a as [sa | sa | | sa ma ea], b as [sb | sb | | sb mb eb], c as [sc | sc | | sc mc ec];
    try destruct sa; try destruct sb; try destruct sc;
    try reflexivity; try (intros H; discriminate H); try (intros _ H; discriminate H);
    change (PosDef.Pos.compare_cont Eq ?x ?y) with (Pos.compare x y);
    destruct (Z.compare_spec ea eb), (Z.compare_spec eb ec), (Z.compare_spec ea ec);
    try lia; try reflexivity; try (intros H; discriminate H); try (intros _ H; discriminate H);
    destruct (Pos.compare_spec ma mb), (Pos.compare_spec mb mc), (Pos.compare_spec ma mc);
    try lia; simpl; intros Hx Hy;
    first [ reflexivity | discriminate Hx | discriminate Hy ].
Qed.

(** [a >= b] and [b >= c] give [a >= c]. *)
Lemma ge_trans (a b c : number) : ge a b = true -> ge b c = true -> ge a c = true.
Proof.
  unfold ge. rewrite !leb_spec. intros Hab Hbc.
  exact (SFleb_trans _ _ _ Hbc Hab).
Qed.

Lemma ge_15_14 (t : number) : ge t 15%float = true -> ge t 14%float = true.
Proof. intros H. apply (ge_trans t 15%float 14%float H). reflexivity. Qed.

Lemma ge_14_12 (t : number) : ge t 14%float = true -> ge t 12%float = true.
Proof. intros H. apply (ge_trans t 14%float 12%float H). reflexivity. Qed.

Lemma ge_15_12 (t : number) : ge t 15%float = true -> ge t 12%float = true.
Proof. intros H. apply ge_14_12, ge_15_14, H. Qed.

(** ** The two risk displays, on every number *)

(** X1: for every number, NaN and the infinities included, the colour of
    getFMSRiskLevel and the colour of the inline display of the wizard are the
    same unless 14 <= total < 15; there the helper says yellow (moderate) and
    the wizard green. *)
Theorem risk_colours_differ_from_14_to_15 (total : number) :
  returns (getFMSRiskLevel total) (fun risk =>
    (color risk = inlineRiskColor total <->
     ge total 14%float && negb (ge total 15%float) = false) /\
    (color risk <> inlineRiskColor total ->
     color risk = "text-yellow-600" /\ level risk = moderate /\
     inlineRiskColor total = "text-green-600" /\
     inlineRiskText total = "Low injury risk")).
Proof.
  unfold getFMSRiskLevel, inlineRiskColor, inlineRiskText.
  destruct (ge total 15%float) eqn:H15.
  - rewrite (ge_15_14 _ H15). cbn. split; [ split; reflexivity | ].
    intros H. contradiction H. reflexivity.
  - destruct (ge total 14%float) eqn:H14.
    + rewrite (ge_14_12 _ H14). cbn. split.
      * split; intros H; discriminate H.
      * intros _. repeat split.
    + destruct (ge total 12%float); cbn; (split; [ split; reflexivity | ]);
        intros H; contradiction H; reflexivity.
Qed.

(** X2: getFMSRiskLevel is monotone: when [a <= b], the band of [b] is never
    worse than the band of [a], the bands being ranked high, moderate, low. *)
Theorem getFMSRiskLevel_monotone (a b : number) :
  (a <=? b)%float = true ->
  returns (getFMSRiskLevel a) (fun risk_a =>
  returns (getFMSRiskLevel b) (fun risk_b =>
    band_rank (level risk_a) <= band_rank (level risk_b))).
Proof.
  intros Hab. change ((a <=? b)%float) with (ge b a) in Hab.
  unfold getFMSRiskLevel.
  destruct (ge a 15%float) eqn:Ha15.
  - rewrite (ge_trans _ _ _ Hab Ha15). cbn. lia.
  - destruct (ge a 12%float) eqn:Ha12.
    + pose proof (ge_trans _ _ _ Hab Ha12) as Hb12. rewrite Hb12.
      destruct (ge b 15%float); cbn; lia.
    + destruct (ge b 15%float); [ | destruct (ge b 12%float) ]; cbn; lia.
Qed.

(** From high to moderate, from moderate to low, and within a band. *)
Lemma getFMSRiskLevel_monotone_witness :
  returns (getFMSRiskLevel 11%float) (fun risk_a =>
  returns (getFMSRiskLevel 14.5%float) (fun risk_b =>
    level risk_a = high /\ level risk_b = moderate /\
    band_rank (level risk_a) <= band_rank (level risk_b))) /\
  returns (getFMSRiskLevel 14.5%float) (fun risk_a =>
  returns (getFMSRiskLevel 15%float) (fun risk_b =>
    level risk_a = moderate /\ level risk_b = low /\
    band_rank (level risk_a) <= band_rank (level risk_b))) /\
  returns (getFMSRiskLevel 15%float) (fun risk_a =>
  returns (getFMSRiskLevel infinity) (fun risk_b =>
    level risk_a = low /\ level risk_b = low /\
    band_rank (level risk_a) <= band_rank (level risk_b))) /\
  returns (getFMSRiskLevel neg_infinity) (fun risk_a =>
  returns (getFMSRiskLevel 11%float) (fun risk_b =>
    level risk_a = high /\ level risk_b = high /\
    band_rank (level risk_a) <= band_rank (level risk_b))).
Proof.
  pose proof (getFMSRiskLevel_monotone 11%float 14.5%float eq_refl) as H1.
  pose proof (getFMSRiskLevel_monotone 14.5%float 15%float eq_refl) as H2.
  pose proof (getFMSRiskLevel_monotone 15%float infinity eq_refl) as H3.
  pose proof (getFMSRiskLevel_monotone neg_infinity 11%float eq_refl) as H4.
  repeat split; assumption.
Defined.

(** ** The score buttons of the FMS step *)

Lemma button_cases (score : number) :
  In score scoreButtons ->
  score = 0%float \/ score = 1%float \/ score = 2%float \/ score = 3%float.
Proof.
  unfold scoreButtons. simpl. intros H.
  repeat destruct H as [H | H]; try contradiction; subst score; auto.
Qed.

Lemma button_value (score : number) :
  In score scoreButtons ->
  0 <= integer_value score <= 3 /\ (integer_value score = 0 <-> score = 0%float).
Proof.
  intros H. apply button_cases in H.
  destruct H as [-> | [-> | [-> | ->]]]; (split; [ vm_compute; split; discriminate | ]);
    split; intros H; try reflexivity; discriminate H.
Qed.

Lemma withScore_buttons (s : FMSSubScores) (key : FmsKey) (score : number) :
  Forall (fun x => In x scoreButtons) (Object_values s) ->
  In score scoreButtons ->
  Forall (fun x => In x scoreButtons) (Object_values (withScore s key score)).
Proof.
  rewrite !Object_values_properties. destruct s as [a b c d e f g].
  cbn [deep_squat hurdle_step inline_lunge shoulder_mobility
       active_straight_leg_raise trunk_stability_pushup rotary_stability].
  intros H Hs.
  repeat match goal with
         | H : Forall _ (_ :: _) |- _ => inversion H; subst; clear H
         end.
  destruct key;
    cbn [withScore deep_squat hurdle_step inline_lunge shoulder_mobility
         active_straight_leg_raise trunk_stability_pushup rotary_stability];
    split_Forall; assumption.
Qed.

Lemma reachable_buttons (st : FormState) :
  reachable st -> Forall (fun x => In x scoreButtons) (Object_values (fmsScores st)).
Proof.
  induction 1 as [ | st key score _ IH Hin].
  - change (Object_values (fmsScores initialState)) with [2; 2; 2; 2; 2; 2; 2]%float.
    split_Forall; right; right; left; reflexivity.
  - cbn [setFmsScore fmsScores]. apply withScore_buttons; assumption.
Qed.

Lemma sum_of_fields_withScore (s : FMSSubScores) (key : FmsKey) (score : number) :
  sum_of_fields (withScore s key score) =
  sum_of_fields s - integer_value (scoreOf s key) + integer_value score.
Proof.
  rewrite !sum_of_fields_properties. destruct s as [a b c d e f g].
  destruct key;
    cbn [withScore scoreOf deep_squat hurdle_step inline_lunge
         shoulder_mobility active_straight_leg_raise trunk_stability_pushup
         rotary_stability]; lia.
Qed.

Lemma scoreOf_In (s : FMSSubScores) (key : FmsKey) : In (scoreOf s key) (Object_values s).
Proof.
  rewrite Object_values_properties. destruct s as [a b c d e f g].
  destruct key; cbn [scoreOf deep_squat hurdle_step inline_lunge shoulder_mobility
         active_straight_leg_raise trunk_stability_pushup rotary_stability In]; tauto.
Qed.

(** X3: whatever buttons are clicked, each of the seven scores of the form,
    row by row, is one of the numbers 0, 1, 2, 3 of the buttons, and the
    total that is displayed is the integer sum of the scores of the seven
    rows, between 0 and 21. *)
Theorem fms_clicks_keep_scores_in_range (st : FormState) :
  reachable st ->
  (forall key, In (scoreOf (fmsScores st) key) [0; 1; 2; 3]%float) /\
  exists total : Z,
    total = integer_value (scoreOf (fmsScores st) key_deep_squat)
            + integer_value (scoreOf (fmsScores st) key_hurdle_step)
            + integer_value (scoreOf (fmsScores st) key_inline_lunge)
            + integer_value (scoreOf (fmsScores st) key_shoulder_mobility)
            + integer_value (scoreOf (fmsScores st) key_active_straight_leg_raise)
            + integer_value (scoreOf (fmsScores st) key_trunk_stability_pushup)
            + integer_value (scoreOf (fmsScores st) key_rotary_stability) /\
    calculateFMSTotal (fmsScores st) = Return (of_Z total) /\
    0 <= total <= 21.
Proof.
  intros H. split.
  - intros key. pose proof (reachable_buttons st H) as HF.
    rewrite Forall_forall in HF. apply HF, scoreOf_In.
  - exists (sum_of_fields (fmsScores st)).
    split; [ apply sum_of_fields_properties | exact (reachable_total st H) ].
Qed.

(** After a click on the 3 of the deep squat the seven scores are 3, 2, 2,
    2, 2, 2, 2 and the total is 15. *)
Lemma fms_clicks_keep_scores_in_range_witness :
  reachable (setFmsScore initialState key_deep_squat 3%float) /\
  map (scoreOf (fmsScores (setFmsScore initialState key_deep_squat 3%float)))
    [key_deep_squat; key_hurdle_step; key_inline_lunge; key_shoulder_mobility;
     key_active_straight_leg_raise; key_trunk_stability_pushup; key_rotary_stability]
  = [3; 2; 2; 2; 2; 2; 2]%float /\
  calculateFMSTotal (fmsScores (setFmsScore initialState key_deep_squat 3%float))
  = Return 15%float.
Proof.
  assert (Hst : reachable (setFmsScore initialState key_deep_squat 3%float)).
  { apply reachable_click; [ exact reachable_initial | ].
    simpl. right; right; right; left; reflexivity. }
  destruct (fms_clicks_keep_scores_in_range _ Hst) as (_ & total & Hsum & Htotal & _).
  split; [ exact Hst | ]. split; [ reflexivity | ].
  rewrite Htotal, Hsum. vm_compute. reflexivity.
Defined.

(** X4: a click on a score button changes the displayed total by the
    difference between the new score and the one it replaces. *)
Theorem fms_click_changes_total (st : FormState) (key : FmsKey) (score : number) :
  reachable st -> In score scoreButtons ->
  exists before after : Z,
    calculateFMSTotal (fmsScores st) = Return (of_Z before) /\
    calculateFMSTotal (fmsScores (setFmsScore st key score)) = Return (of_Z after) /\
    after = before - integer_value (scoreOf (fmsScores st) key) + integer_value score.
Proof.
  intros Hst Hscore.
  exists (sum_of_fields (fmsScores st)),
         (sum_of_fields (fmsScores (setFmsScore st key score))).
  split; [ apply reachable_total, Hst | ].
  split; [ apply reachable_total, reachable_click; assumption | ].
  cbn [setFmsScore fmsScores]. apply sum_of_fields_withScore.
Qed.

Lemma fms_click_changes_total_witness :
  exists before after : Z,
    calculateFMSTotal (fmsScores initialState) = Return (of_Z before) /\
    calculateFMSTotal (fmsScores (setFmsScore initialState key_hurdle_step 0%float))
    = Return (of_Z after) /\
    after = before - integer_value (scoreOf (fmsScores initialState) key_hurdle_step)
            + integer_value 0%float.
Proof.
  apply (fms_click_changes_total initialState key_hurdle_step 0%float).
  - exact reachable_initial.
  - simpl. left. reflexivity.
Defined.

(** Reading a key after writing it, and after writing another one. *)
Lemma scoreOf_withScore_same (s : FMSSubScores) (key : FmsKey) (score : number) :
  scoreOf (withScore s key score) key = score.
Proof. destruct key; reflexivity. Qed.

Lemma scoreOf_withScore_other (s : FMSSubScores) (key other : FmsKey) (score : number) :
  other <> key -> scoreOf (withScore s key score) other = scoreOf s other.
Proof.
  intros H. destruct key, other; try reflexivity; contradiction H; reflexivity.
Qed.

Lemma button_selected (a b : number) :
  In a scoreButtons -> In b scoreButtons -> (strict_eq a b = true <-> a = b).
Proof.
  intros Ha Hb. apply button_cases in Ha, Hb.
  destruct Ha as [-> | [-> | [-> | ->]]], Hb as [-> | [-> | [-> | ->]]];
    split; intros H; try reflexivity; try discriminate H;
    exfalso; revert H; apply float_neq; vm_compute; discriminate.
Qed.

(** X5: in every state of the FMS step each row has exactly one selected
    button, the one of its score; after a click it is the clicked button, and
    the scores of the other rows are unchanged. *)
Theorem fms_row_has_one_selected_button (st : FormState) (key : FmsKey) :
  reachable st ->
  (exists selected, In selected scoreButtons /\
     forall score, In score scoreButtons ->
       (isSelected (fmsScores st) key score = true <-> score = selected)) /\
  (forall score, In score scoreButtons ->
     isSelected (fmsScores (setFmsScore st key score)) key score = true /\
     forall other, other <> key ->
       scoreOf (fmsScores (setFmsScore st key score)) other = scoreOf (fmsScores st) other).
Proof.
  intros Hst. split.
  - exists (scoreOf (fmsScores st) key).
    assert (Hin : In (scoreOf (fmsScores st) key) scoreButtons).
    { pose proof (reachable_buttons st Hst) as HF. rewrite Forall_forall in HF.
      apply HF, scoreOf_In. }
    split; [ exact Hin | ].
    intros score Hscore. unfold isSelected.
    rewrite (button_selected _ _ Hin Hscore). split; intros H; symmetry; exact H.
  - intros score Hscore. cbn [setFmsScore fmsScores]. split.
    + unfold isSelected. rewrite scoreOf_withScore_same.
      apply button_selected; [ exact Hscore | exact Hscore | reflexivity ].
    + intros other Hother. apply scoreOf_withScore_other, Hother.
Qed.

Lemma fms_row_has_one_selected_button_witness :
  (exists selected, In selected scoreButtons /\
     forall score, In score scoreButtons ->
       (isSelected (fmsScores initialState) key_rotary_stability score = true
        <-> score = selected)) /\
  (forall score, In score scoreButtons ->
     isSelected (fmsScores (setFmsScore initialState key_rotary_stability score))
       key_rotary_stability score = true /\
     forall other, other <> key_rotary_stability ->
       scoreOf (fmsScores (setFmsScore initialState key_rotary_stability score)) other
       = scoreOf (fmsScores initialState) other).
Proof.
  exact (fms_row_has_one_selected_button initialState key_rotary_stability reachable_initial).
Defined.

(** ** The stored total on the client page *)

Lemma truthy_total (z : Z) :
  0 <= z <= 21 -> truthy_number (of_Z z) = negb (z =? 0).
Proof.
  intros Hz. each_integer z 0 22%nat; vm_compute; reflexivity.
Qed.

Lemma sum_of_buttons_zero (s : FMSSubScores) :
  Forall (fun x => In x scoreButtons) (Object_values s) ->
  (sum_of_fields s = 0 <-> Forall (fun x => x = 0%float) (Object_values s)).
Proof.
  rewrite sum_of_fields_properties, Object_values_properties.
  destruct s as [a b c d e f g].
  cbn [deep_squat hurdle_step inline_lunge shoulder_mobility
       active_straight_leg_raise trunk_stability_pushup rotary_stability].
  intros H.
  repeat match goal with
         | H : Forall _ (_ :: _) |- _ => inversion H; subst; clear H
         end.
  repeat match goal with
         | H : In ?x scoreButtons |- _ => apply button_value in H; destruct H as [? [? ?]]
         end.
  split.
  - intros Hsum. split_Forall;
      match goal with
      | H : integer_value ?x = 0 -> ?x = _ |- ?x = _ => apply H; lia
      end.
  - intros HF.
    repeat match goal with
           | H : Forall _ (_ :: _) |- _ => inversion H; subst; clear H
           end.
    vm_compute. reflexivity.
Qed.

(** X6: the total the client page shows for an assessment submitted from the
    wizard: the page shows N/A instead of the total exactly when all seven
    scores are 0 (the stored total 0 is falsy), and otherwise the total,
    between 1 and 21. *)
Theorem fms_score_shown_after_submit (st : FormState) (session : Session) (now : string) :
  reachable st ->
  returns (handleSubmit (Some session) now st) (fun data =>
    (fmsScoreShown (Some (fms_scores data)) = RenderedText "N/A" <->
     Forall (fun x => x = 0%float) (Object_values (fmsScores st))) /\
    (fmsScoreShown (Some (fms_scores data)) <> RenderedText "N/A" ->
     exists total, 1 <= total <= 21 /\
       fmsScoreShown (Some (fms_scores data)) = RenderedNumber (of_Z total))).
Proof.
  intros Hst.
  destruct (reachable_total st Hst) as [Htotal Hrange].
  pose proof (sum_of_buttons_zero _ (reachable_buttons st Hst)) as Hzero.
  unfold handleSubmit. rewrite Htotal.
  cbn [bind returns fms_scores fmsScoreShown withTotal total_score].
  rewrite (truthy_total _ Hrange).
  destruct (Z.eqb_spec (sum_of_fields (fmsScores st)) 0) as [He | Hne]; cbn [negb].
  - split.
    + split; [ intros _; apply Hzero, He | reflexivity ].
    + intros H. contradiction H. reflexivity.
  - split.
    + split; [ intros H; discriminate H | ].
      intros H. apply Hzero in H. contradiction.
    + intros _. exists (sum_of_fields (fmsScores st)). split; [ lia | reflexivity ].
Qed.

Lemma fms_score_shown_after_submit_witness :
  returns (handleSubmit (Some someSession) someDate initialState) (fun data =>
    (fmsScoreShown (Some (fms_scores data)) = RenderedText "N/A" <->
     Forall (fun x => x = 0%float) (Object_values (fmsScores initialState))) /\
    (fmsScoreShown (Some (fms_scores data)) <> RenderedText "N/A" ->
     exists total, 1 <= total <= 21 /\
       fmsScoreShown (Some (fms_scores data)) = RenderedNumber (of_Z total))).
Proof.
  exact (fms_score_shown_after_submit initialState someSession someDate reachable_initial).
Defined.

(** ** The steps of the wizard *)

Lemma onNext_integer (k : Z) : 0 <= k <= 9 -> onNext (of_Z k) = of_Z (k + 1).
Proof. intros Hk. each_integer k 0 10%nat; vm_compute; reflexivity. Qed.

Lemma onPrevious_integer (k : Z) : 1 <= k <= 10 -> onPrevious (of_Z k) = of_Z (k - 1).
Proof. intros Hk. each_integer k 1 10%nat; vm_compute; reflexivity. Qed.

Lemma previousDisabled_integer (k : Z) :
  0 <= k <= 10 -> previousDisabled (of_Z k) = (k =? 0).
Proof. intros Hk. each_integer k 0 11%nat; vm_compute; reflexivity. Qed.

Lemma isLastStep_integer (k : Z) : 0 <= k <= 10 -> isLastStep (of_Z k) = (k =? 10).
Proof. intros Hk. each_integer k 0 11%nat; vm_compute; reflexivity. Qed.

Lemma navigates_integer (k : Z) (next : number) :
  0 <= k <= 10 -> navigates (of_Z k) next ->
  (1 <= k /\ next = of_Z (k - 1)) \/ (k <= 9 /\ next = of_Z (k + 1)).
Proof.
  intros Hk H. inversion H as [cs Hen | cs Hen]; subst.
  - rewrite (previousDisabled_integer k Hk) in Hen. apply Z.eqb_neq in Hen.
    left. split; [ lia | ]. apply onPrevious_integer. lia.
  - rewrite (isLastStep_integer k Hk) in Hen. apply Z.eqb_neq in Hen.
    right. split; [ lia | ]. apply onNext_integer. lia.
Qed.

(** The current step is an integer from 0 to 10, and every step up to it has
    been shown. *)
Lemma step_history_integer (history : list number) :
  step_history history ->
  exists k earlier,
    history = of_Z k :: earlier /\ 0 <= k <= 10 /\
    forall j, 0 <= j <= k -> In (of_Z j) history.
Proof.
  induction 1 as [ | cs next earlier _ IH Hnav].
  - exists 0, []. split; [ reflexivity | ]. split; [ lia | ].
    intros j Hj. left. replace j with 0 by lia. reflexivity.
  - destruct IH as (k & earlier' & Heq & Hk & Hseen).
    injection Heq as -> ->.
    destruct (navigates_integer k next Hk Hnav) as [[Hk' ->] | [Hk' ->]].
    + exists (k - 1), (of_Z k :: earlier'). split; [ reflexivity | ]. split; [ lia | ].
      intros j Hj. right. apply Hseen. lia.
    + exists (k + 1), (of_Z k :: earlier'). split; [ reflexivity | ]. split; [ lia | ].
      intros j Hj. destruct (Z.eq_dec j (k + 1)) as [-> | Hne].
      * left. reflexivity.
      * right. apply Hseen. lia.
Qed.

Lemma step_facts (k : Z) :
  0 <= k <= 10 ->
  stepTitle (of_Z k) = nth_error STEPS (Z.to_nat k) /\
  renderStepContent (of_Z k) = Some k /\
  stepNumber (of_Z k) = of_Z (k + 1).
Proof.
  intros Hk. each_integer k 0 11%nat; vm_compute; repeat split; reflexivity.
Qed.

(** X7: whatever navigation buttons are clicked, the current step of the
    wizard is an integer from 0 to 10: its title [STEPS[currentStep]] is
    defined, [renderStepContent] takes the case of that step and never the
    default, and the header shows a step number from 1 to 11. *)
Theorem wizard_step_stays_in_range (currentStep : number) (earlier : list number) :
  step_history (currentStep :: earlier) ->
  exists (k : Z) (title : string),
    0 <= k <= 10 /\ currentStep = of_Z k /\
    stepTitle currentStep = Some title /\
    nth_error STEPS (Z.to_nat k) = Some title /\
    renderStepContent currentStep = Some k /\
    stepNumber currentStep = of_Z (k + 1).
Proof.
  intros H. apply step_history_integer in H.
  destruct H as (k & earlier' & Heq & Hk & _). injection Heq as -> _.
  destruct (step_facts k Hk) as (Htitle & Hrender & Hnumber).
  destruct (nth_error STEPS (Z.to_nat k)) as [title | ] eqn:Hnth.
  - exists k, title. repeat split; try assumption; lia.
  - exfalso. apply nth_error_None in Hnth. change (List.length STEPS) with 11%nat in Hnth. lia.
Qed.

Lemma wizard_step_stays_in_range_witness :
  exists (k : Z) (title : string),
    0 <= k <= 10 /\ onNext 0%float = of_Z k /\
    stepTitle (onNext 0%float) = Some title /\
    nth_error STEPS (Z.to_nat k) = Some title /\
    renderStepContent (onNext 0%float) = Some k /\
    stepNumber (onNext 0%float) = of_Z (k + 1).
Proof.
  apply (wizard_step_stays_in_range (onNext 0%float) [0%float]).
  apply history_click; [ exact history_start | ].
  apply click_next. reflexivity.
Defined.

(** X8: the Save button, which calls handleSubmit, is only offered on the
    last step, FMS Assessment, and by then every one of the eleven steps has
    been shown: the wizard cannot be submitted with a step skipped. *)
Theorem save_only_after_every_step (currentStep : number) (earlier : list number) :
  step_history (currentStep :: earlier) ->
  isLastStep currentStep = true ->
  stepTitle currentStep = Some "FMS Assessment" /\
  forall k, 0 <= k <= 10 -> In (of_Z k) (currentStep :: earlier).
Proof.
  intros H Hlast. apply step_history_integer in H.
  destruct H as (k & earlier' & Heq & Hk & Hseen).
  injection Heq as -> ->.
  rewrite (isLastStep_integer k Hk) in Hlast. apply Z.eqb_eq in Hlast. subst k.
  split; [ reflexivity | exact Hseen ].
Qed.

Lemma save_only_after_every_step_witness :
  stepTitle 10%float = Some "FMS Assessment" /\
  forall k, 0 <= k <= 10 -> In (of_Z k) [10; 9; 8; 7; 6; 5; 4; 3; 2; 1; 0]%float.
Proof.
  apply (save_only_after_every_step 10%float [9; 8; 7; 6; 5; 4; 3; 2; 1; 0]%float).
  - apply (history_click 9%float 10%float); [ | exact (click_next 9%float eq_refl) ].
    apply (history_click 8%float 9%float); [ | exact (click_next 8%float eq_refl) ].
    apply (history_click 7%float 8%float); [ | exact (click_next 7%float eq_refl) ].
    apply (history_click 6%float 7%float); [ | exact (click_next 6%float eq_refl) ].
    apply (history_click 5%float 6%float); [ | exact (click_next 5%float eq_refl) ].
    apply (history_click 4%float 5%float); [ | exact (click_next 4%float eq_refl) ].
    apply (history_click 3%float 4%float); [ | exact (click_next 3%float eq_refl) ].
    apply (history_click 2%float 3%float); [ | exact (click_next 2%float eq_refl) ].
    apply (history_click 1%float 2%float); [ | exact (click_next 1%float eq_refl) ].
    apply (history_click 0%float 1%float); [ | exact (click_next 0%float eq_refl) ].
    exact history_start.
  - reflexivity.
Defined.

(** X9: Next and Previous undo each other: after Next the Previous button is
    enabled and leads back, and after Previous the Next button is offered and
    leads back. *)
Theorem next_and_previous_are_inverse (currentStep : number) (earlier : list number) :
  step_history (currentStep :: earlier) ->
  (isLastStep currentStep = false ->
   previousDisabled (onNext currentStep) = false /\
   onPrevious (onNext currentStep) = currentStep) /\
  (previousDisabled currentStep = false ->
   isLastStep (onPrevious currentStep) = false /\
   onNext (onPrevious currentStep) = currentStep).
Proof.
  intros H. apply step_history_integer in H.
  destruct H as (k & earlier' & Heq & Hk & _). injection Heq as -> _.
  rewrite (isLastStep_integer k Hk), (previousDisabled_integer k Hk).
  split; intros Hen; apply Z.eqb_neq in Hen.
  - rewrite onNext_integer by lia.
    rewrite previousDisabled_integer, onPrevious_integer by lia.
    split; [ apply Z.eqb_neq; lia | f_equal; lia ].
  - rewrite onPrevious_integer by lia.
    rewrite isLastStep_integer, onNext_integer by lia.
    split; [ apply Z.eqb_neq; lia | f_equal; lia ].
Qed.

Lemma next_and_previous_are_inverse_witness :
  (isLastStep 0%float = false ->
   previousDisabled (onNext 0%float) = false /\ onPrevious (onNext 0%float) = 0%float) /\
  (previousDisabled 0%float = false ->
   isLastStep (onPrevious 0%float) = false /\ onNext (onPrevious 0%float) = 0%float).
Proof. exact (next_and_previous_are_inverse 0%float [] history_start). Defined.

Lemma progressWidth_integer (k : Z) :
  0 <= k <= 10 ->
  (0 <? progressWidth (of_Z k))%float = true /\
  (progressWidth (of_Z k) <=? 100)%float = true /\
  (strict_eq (progressWidth (of_Z k)) 100%float = (k =? 10)) /\
  (k <= 9 -> (progressWidth (of_Z k) <? progressWidth (of_Z (k + 1)))%float = true).
Proof.
  intros Hk. each_integer k 0 11%nat; vm_compute; repeat split; intros H; try reflexivity; lia.
Qed.

(** X10: the progress bar: its width is above 0 and at most 100 per cent, it
    is 100 exactly on the last step, and Next makes it longer. *)
Theorem progress_bar_full_on_last_step (currentStep : number) (earlier : list number) :
  step_history (currentStep :: earlier) ->
  (0 <? progressWidth currentStep)%float = true /\
  (progressWidth currentStep <=? 100)%float = true /\
  strict_eq (progressWidth currentStep) 100%float = isLastStep currentStep /\
  (isLastStep currentStep = false ->
   (progressWidth currentStep <? progressWidth (onNext currentStep))%float = true).
Proof.
  intros H. apply step_history_integer in H.
  destruct H as (k & earlier' & Heq & Hk & _). injection Heq as -> _.
  destruct (progressWidth_integer k Hk) as (Hpos & Hmax & Hfull & Hnext).
  rewrite (isLastStep_integer k Hk).
  repeat split; try assumption.
  intros Hen. apply Z.eqb_neq in Hen. rewrite onNext_integer by lia. apply Hnext. lia.
Qed.

Lemma progress_bar_full_on_last_step_witness :
  (0 <? progressWidth 0%float)%float = true /\
  (progressWidth 0%float <=? 100)%float = true /\
  strict_eq (progressWidth 0%float) 100%float = isLastStep 0%float /\
  (isLastStep 0%float = false ->
   (progressWidth 0%float <? progressWidth (onNext 0%float))%float = true).
Proof. exact (progress_bar_full_on_last_step 0%float [] history_start). Defined.

(** ** Arrays of strings *)

Lemma includes_In (arr : list string) (x : string) : includes arr x = true <-> In x arr.
Proof.
  unfold includes. rewrite existsb_exists. split.
  - intros (y & Hy & He). apply String.eqb_eq in He. subst y. exact Hy.
  - intros H. exists x. split; [ exact H | apply String.eqb_refl ].
Qed.

Lemma includes_not_In (arr : list string) (x : string) :
  includes arr x = false <-> ~ In x arr.
Proof.
  rewrite <- includes_In. destruct (includes arr x).
  - split; [ intros H; discriminate H | intros H; contradiction H; reflexivity ].
  - split; [ intros _ H; discriminate H | reflexivity ].
Qed.

Lemma without_In (arr : list string) (x y : string) :
  In y (without arr x) <-> In y arr /\ y <> x.
Proof.
  unfold without. rewrite filter_In, negb_true_iff, String.eqb_neq. reflexivity.
Qed.

Lemma without_absent (arr : list string) (x : string) : ~ In x arr -> without arr x = arr.
Proof.
  induction arr as [ | a arr IH]; intros H; [ reflexivity | ].
  cbn [without filter]. destruct (String.eqb_spec a x) as [-> | Hne].
  - contradiction H. left. reflexivity.
  - cbn [negb]. f_equal. apply IH. intros Hin. apply H. right. exact Hin.
Qed.

Lemma without_snoc (arr : list string) (x : string) :
  without (arr ++ [x]) x = without arr x.
Proof.
  unfold without. rewrite filter_app. cbn [filter]. rewrite String.eqb_refl.
  apply app_nil_r.
Qed.

Lemma NoDup_snoc (arr : list string) (x : string) :
  NoDup arr -> ~ In x arr -> NoDup (arr ++ [x]).
Proof.
  induction 1 as [ | a arr Ha Hnd IH]; intros Hx.
  - constructor; [ intros [] | constructor ].
  - cbn [app]. constructor.
    + rewrite in_app_iff. intros [Hin | [-> | []]]; [ contradiction | ].
      apply Hx. left. reflexivity.
    + apply IH. intros Hin. apply Hx. right. exact Hin.
Qed.

Lemma count_occ_snoc (arr : list string) (x : string) :
  count_occ string_dec (arr ++ [x]) x = S (count_occ string_dec arr x).
Proof.
  rewrite count_occ_app. cbn [count_occ].
  destruct (string_dec x x) as [_ | Hne]; [ lia | contradiction Hne; reflexivity ].
Qed.

Lemma count_occ_without (arr : list string) (x other : string) :
  other <> x ->
  count_occ string_dec (without arr x) other = count_occ string_dec arr other.
Proof.
  intros Hne. induction arr as [ | a arr IH]; [ reflexivity | ].
  cbn [without filter]. destruct (String.eqb_spec a x) as [-> | Ha]; cbn [negb].
  - fold (without arr x). rewrite IH. cbn [count_occ].
    destruct (string_dec x other) as [He | _]; [ | reflexivity ].
    contradiction Hne. symmetry. exact He.
  - fold (without arr x). cbn [count_occ]. rewrite IH. reflexivity.
Qed.

(** ** The option buttons *)

(** X11: a click on an option button (priority focus, preferred day,
    equipment) flips whether that option is selected and leaves every other
    option as it was. *)
Theorem toggleItem_flips_one_option (arr : list string) (x : string) :
  includes (toggleItem arr x) x = negb (includes arr x) /\
  forall y, y <> x -> includes (toggleItem arr x) y = includes arr y.
Proof.
  unfold toggleItem. destruct (includes arr x) eqn:Hx; cbn [negb]; split.
  - apply includes_not_In. rewrite without_In. intros [_ H]. contradiction H. reflexivity.
  - intros y Hy. apply eq_true_iff_eq. rewrite !includes_In, without_In. tauto.
  - apply includes_In. rewrite in_app_iff. right. left. reflexivity.
  - intros y Hy. apply eq_true_iff_eq. rewrite !includes_In, in_app_iff. cbn [In].
    split; [ intros [H | [H | []]]; [ exact H | ] | intros H; left; exact H ].
    contradiction Hy. symmetry. exact H.
Qed.

(** X12: the list behind a group of option buttons never holds an option
    twice and holds only options of the group, so it is never longer than
    the group (seven days, fifteen pieces of equipment, nine focus areas). *)
Theorem toggled_list_has_no_duplicates (options arr : list string) :
  toggled options arr ->
  NoDup arr /\ incl arr options /\ (List.length arr <= List.length options)%nat.
Proof.
  intros H.
  assert (Hinv : NoDup arr /\ incl arr options).
  { induction H as [ | arr x _ [Hnd Hincl] Hx].
    - split; [ constructor | intros y [] ].
    - unfold toggleItem. destruct (includes arr x) eqn:Hin.
      + split; [ apply NoDup_filter, Hnd | ].
        intros y Hy. apply without_In in Hy. apply Hincl, Hy.
      + apply includes_not_In in Hin. split; [ apply NoDup_snoc; assumption | ].
        intros y Hy. apply in_app_iff in Hy. destruct Hy as [Hy | [<- | []]];
          [ apply Hincl, Hy | exact Hx ]. }
  destruct Hinv as [Hnd Hincl].
  split; [ exact Hnd | ]. split; [ exact Hincl | ].
  apply NoDup_incl_length; assumption.
Qed.

Lemma toggled_list_has_no_duplicates_witness :
  NoDup (toggleItem (toggleItem [] "Monday") "Friday") /\
  incl (toggleItem (toggleItem [] "Monday") "Friday") DAYS_OF_WEEK /\
  (List.length (toggleItem (toggleItem [] "Monday") "Friday") <= List.length DAYS_OF_WEEK)%nat.
Proof.
  apply (toggled_list_has_no_duplicates DAYS_OF_WEEK).
  apply toggled_click; [ apply toggled_click; [ apply toggled_initial | ] | ].
  - simpl. right; left; reflexivity.
  - simpl. do 5 right. left. reflexivity.
Defined.

(** X13: two clicks on the same option button: an option that was not
    selected leaves the list as it was; an option that was selected ends up
    selected again, but as the last of the list. *)
Theorem toggleItem_twice (arr : list string) (x : string) :
  (~ In x arr -> toggleItem (toggleItem arr x) x = arr) /\
  (In x arr -> toggleItem (toggleItem arr x) x = (without arr x ++ [x])%list).
Proof.
  split; intros H; unfold toggleItem at 2.
  - apply includes_not_In in H. rewrite H. apply includes_not_In in H.
    unfold toggleItem.
    replace (includes (arr ++ [x]) x) with true.
    + rewrite without_snoc. apply without_absent, H.
    + symmetry. apply includes_In, in_app_iff. right. left. reflexivity.
  - apply includes_In in H. rewrite H.
    unfold toggleItem.
    replace (includes (without arr x) x) with false; [ reflexivity | ].
    symmetry. apply includes_not_In. rewrite without_In. intros [_ Hne].
    contradiction Hne. reflexivity.
Qed.

(** ** [trim] *)

Lemma is_blank_app (a b : string) : is_blank (a ++ b) = is_blank a && is_blank b.
Proof.
  induction a as [ | c a IH]; [ reflexivity | ].
  cbn [append is_blank]. rewrite IH. apply andb_assoc.
Qed.

Lemma trimStart_split (s : string) :
  exists pre, s = pre ++ trimStart s /\ is_blank pre = true.
Proof.
  induction s as [ | c s (pre & Heq & Hpre)].
  - exists "". split; reflexivity.
  - cbn [trimStart]. destruct (is_white_space c) eqn:Hc.
    + exists (String c pre). cbn [append is_blank]. rewrite Hc, Hpre, <- Heq.
      split; reflexivity.
    + exists "". split; reflexivity.
Qed.

Lemma trimStart_head (s : string) (c : ascii) (rest : string) :
  trimStart s = String c rest -> is_white_space c = false.
Proof.
  induction s as [ | a s IH]; cbn [trimStart]; [ intros H; discriminate H | ].
  destruct (is_white_space a) eqn:Ha; [ exact IH | ].
  intros H. injection H as <- _. exact Ha.
Qed.

Lemma trimStart_fixed (s : string) :
  (forall c rest, s = String c rest -> is_white_space c = false) -> trimStart s = s.
Proof.
  destruct s as [ | c s]; [ reflexivity | ].
  intros H. cbn [trimStart]. rewrite (H c s eq_refl). reflexivity.
Qed.

Lemma trimEnd_split (s : string) :
  exists post, s = trimEnd s ++ post /\ is_blank post = true.
Proof.
  induction s as [ | c s (post & Heq & Hpost)].
  - exists "". split; reflexivity.
  - cbn [trimEnd]. destruct (trimEnd s) as [ | k kept].
    + cbn [append] in Heq. subst s. destruct (is_white_space c) eqn:Hc.
      * exists (String c post). cbn [append is_blank]. rewrite Hc, Hpost.
        split; reflexivity.
      * exists post. split; [ reflexivity | exact Hpost ].
    + exists post. cbn [append] in *. rewrite <- Heq. split; [ reflexivity | exact Hpost ].
Qed.

Lemma trimEnd_last (s body : string) (c : ascii) :
  trimEnd s = body ++ String c "" -> is_white_space c = false.
Proof.
  revert body. induction s as [ | a s IH]; intros body; cbn [trimEnd].
  - destruct body; intros H; discriminate H.
  - destruct (trimEnd s) as [ | k kept].
    + destruct (is_white_space a) eqn:Ha.
      * destruct body; intros H; discriminate H.
      * destruct body as [ | b body]; cbn [append]; intros H.
        -- injection H as <-. exact Ha.
        -- injection H as _ H. destruct body; discriminate H.
    + destruct body as [ | b body]; cbn [append]; intros H.
      * discriminate H.
      * injection H as _ H. exact (IH body H).
Qed.

Lemma trimEnd_head (s : string) (c : ascii) (rest : string) :
  trimEnd s = String c rest -> exists rest', s = String c rest'.
Proof.
  destruct s as [ | a s]; cbn [trimEnd]; [ intros H; discriminate H | ].
  destruct (trimEnd s); [ destruct (is_white_space a) | ]; intros H;
    try discriminate H; injection H as <- _; exists s; reflexivity.
Qed.

Lemma trimEnd_idempotent (s : string) : trimEnd (trimEnd s) = trimEnd s.
Proof.
  induction s as [ | a s IH]; [ reflexivity | ].
  cbn [trimEnd]. destruct (trimEnd s) as [ | k kept] eqn:Hs.
  - destruct (is_white_space a) eqn:Ha; [ reflexivity | ].
    cbn [trimEnd]. rewrite Ha. reflexivity.
  - change (trimEnd (String a (String k kept)))
      with (match trimEnd (String k kept) with
            | EmptyString => if is_white_space a then EmptyString else String a EmptyString
            | kept' => String a kept'
            end).
    rewrite IH. reflexivity.
Qed.

Lemma trimEnd_empty (s : string) : trimEnd s = "" -> is_blank s = true.
Proof.
  induction s as [ | a s IH]; [ reflexivity | ].
  cbn [trimEnd is_blank]. destruct (trimEnd s).
  - destruct (is_white_space a); [ intros _; apply IH; reflexivity | intros H; discriminate H ].
  - intros H. discriminate H.
Qed.

Lemma trimStart_blank (s : string) : is_blank s = true -> trimStart s = "".
Proof.
  induction s as [ | a s IH]; [ reflexivity | ].
  cbn [is_blank trimStart]. destruct (is_white_space a); [ exact IH | intros H; discriminate H ].
Qed.

Lemma trim_head (s : string) (c : ascii) (rest : string) :
  trim s = String c rest -> is_white_space c = false.
Proof.
  unfold trim. intros H. destruct (trimEnd_head _ _ _ H) as (rest' & H').
  exact (trimStart_head _ _ _ H').
Qed.

Lemma trim_idempotent (s : string) : trim (trim s) = trim s.
Proof.
  unfold trim at 1. rewrite trimStart_fixed.
  - apply trimEnd_idempotent.
  - intros c rest H. exact (trim_head s c rest H).
Qed.

Lemma trim_blank (s : string) : truthy_string (trim s) = negb (is_blank s).
Proof.
  destruct (trimStart_split s) as (pre & Heq & Hpre).
  destruct (is_blank s) eqn:Hs; cbn [negb].
  - unfold trim. rewrite (trimStart_blank s Hs). reflexivity.
  - destruct (trim s) eqn:Ht; [ | reflexivity ].
    apply trimEnd_empty in Ht.
    rewrite Heq, is_blank_app, Hpre, Ht in Hs. discriminate Hs.
Qed.

(** ** [ArrayInput] *)

Lemma trim_trimmed (text : string) : truthy_string (trim text) = true -> trimmed (trim text).
Proof.
  intros H. repeat split.
  - intros He. rewrite He in H. discriminate H.
  - apply trim_idempotent.
  - intros c rest. apply trim_head.
  - intros body c. unfold trim. apply trimEnd_last.
Qed.

(** X14: every item of a list that is edited through an ArrayInput is a
    trimmed text: it is not empty, and has no white space at its start or its
    end. *)
Theorem array_input_items_are_trimmed (st : ArrayInput) :
  array_input st -> Forall trimmed (items st).
Proof.
  induction 1 as [ | st text _ IH | st _ IH | st item _ IH _].
  - constructor.
  - exact IH.
  - unfold handleAdd. destruct (truthy_string (trim (value st))) eqn:Ht; [ | exact IH ].
    cbn [items]. apply Forall_app. split; [ exact IH | ].
    constructor; [ apply trim_trimmed, Ht | constructor ].
  - cbn [onRemove items]. rewrite Forall_forall in *. intros x Hx.
    apply without_In in Hx. apply IH, Hx.
Qed.

Lemma array_input_items_are_trimmed_witness :
  Forall trimmed (items (handleAdd (onChange {| items := []; value := "" |} "  knee pain "))).
Proof.
  apply array_input_items_are_trimmed.
  apply array_input_added, array_input_typed, array_input_initial.
Defined.

(** X15: the Add button of an ArrayInput: a text of white space only changes
    nothing, and the box keeps it; any other text is appended, trimmed, as
    the last item, and the box is emptied.  The items are not compared: a
    text that is already an item is appended once more. *)
Theorem handleAdd_appends_the_trimmed_text (st : ArrayInput) :
  (is_blank (value st) = true -> handleAdd st = st) /\
  (is_blank (value st) = false ->
   handleAdd st = {| items := items st ++ [trim (value st)]; value := "" |} /\
   count_occ string_dec (items (handleAdd st)) (trim (value st))
   = S (count_occ string_dec (items st) (trim (value st)))).
Proof.
  unfold handleAdd. rewrite trim_blank.
  split; intros H; rewrite H; cbn [negb items]; [ reflexivity | ].
  split; [ reflexivity | apply count_occ_snoc ].
Qed.

(** X16: the remove button of an item deletes every copy of the item and
    keeps the other items in their order; removing an item just after adding
    it gives the former list back only if the item was not in it before. *)
Theorem onRemove_after_handleAdd (st : ArrayInput) (text : string) :
  is_blank text = false ->
  items (onRemove (handleAdd (onChange st text)) (trim text)) = without (items st) (trim text) /\
  ~ In (trim text) (items (onRemove (handleAdd (onChange st text)) (trim text))) /\
  (forall other, other <> trim text ->
     count_occ string_dec (items (onRemove (handleAdd (onChange st text)) (trim text))) other
     = count_occ string_dec (items st) other) /\
  (items (onRemove (handleAdd (onChange st text)) (trim text)) = items st <->
   ~ In (trim text) (items st)).
Proof.
  intros Hb.
  assert (Heq : items (onRemove (handleAdd (onChange st text)) (trim text))
                = without (items st) (trim text)).
  { unfold handleAdd. cbn [onChange value items]. rewrite trim_blank, Hb.
    cbn [negb onRemove items]. apply without_snoc. }
  rewrite Heq. split; [ reflexivity | ]. split; [ | split ].
  - rewrite without_In. intros [_ H]. contradiction H. reflexivity.
  - intros other Hne. apply count_occ_without, Hne.
  - split.
    + intros H Hin. rewrite <- H in Hin. apply without_In in Hin.
      destruct Hin as [_ Hne]. contradiction Hne. reflexivity.
    + apply without_absent.
Qed.

Lemma onRemove_after_handleAdd_witness :
  items (onRemove (handleAdd (onChange {| items := ["asthma"]; value := "" |} " asthma"))
           (trim " asthma"))
  = without ["asthma"] (trim " asthma") /\
  ~ In (trim " asthma")
      (items (onRemove (handleAdd (onChange {| items := ["asthma"]; value := "" |} " asthma"))
                (trim " asthma"))) /\
  (forall other, other <> trim " asthma" ->
     count_occ string_dec
       (items (onRemove (handleAdd (onChange {| items := ["asthma"]; value := "" |} " asthma"))
                 (trim " asthma"))) other
     = count_occ string_dec ["asthma"] other) /\
  (items (onRemove (handleAdd (onChange {| items := ["asthma"]; value := "" |} " asthma"))
            (trim " asthma")) = ["asthma"] <->
   ~ In (trim " asthma") ["asthma"]).
Proof.
  exact (onRemove_after_handleAdd {| items := ["asthma"]; value := "" |} " asthma" eq_refl).
Defined.

(** ** [addListItem] and [removeListItem] *)

(** X17: addListItem, unlike the Add button of ArrayInput, keeps a list free
    of duplicates: it appends the trimmed value only if it is not blank and
    not yet in the list, so that adding the same value a second time changes
    nothing; removeListItem of a value just added gives the list back. *)
Theorem addListItem_keeps_items_unique (arr : list string) (value : string) :
  NoDup arr ->
  NoDup (addListItem arr value) /\
  addListItem (addListItem arr value) value = addListItem arr value /\
  (is_blank value = false -> In (trim value) (addListItem arr value)) /\
  (is_blank value = false -> ~ In (trim value) arr ->
   removeListItem (addListItem arr value) (trim value) = arr).
Proof.
  intros Hnd. unfold addListItem, removeListItem. rewrite trim_blank.
  destruct (is_blank value) eqn:Hb; cbn [negb andb].
  - repeat split; try assumption; intros H; discriminate H.
  - destruct (includes arr (trim value)) eqn:Hin; cbn [negb].
    + rewrite Hin. cbn [negb]. apply includes_In in Hin.
      split; [ exact Hnd | ]. split; [ reflexivity | ]. split.
      * intros _. exact Hin.
      * intros _ H. contradiction.
    + pose proof Hin as Hnin. apply includes_not_In in Hnin.
      replace (includes (arr ++ [trim value]) (trim value)) with true.
      * cbn [negb]. repeat split.
        -- apply NoDup_snoc; assumption.
        -- intros _. apply in_app_iff. right. left. reflexivity.
        -- intros _ _. rewrite without_snoc. apply without_absent, Hnin.
      * symmetry. apply includes_In, in_app_iff. right. left. reflexivity.
Qed.

Lemma addListItem_keeps_items_unique_witness :
  NoDup (addListItem ["squash"] " squash ") /\
  addListItem (addListItem ["squash"] " squash ") " squash " = addListItem ["squash"] " squash " /\
  (is_blank " squash " = false -> In (trim " squash ") (addListItem ["squash"] " squash ")) /\
  (is_blank " squash " = false -> ~ In (trim " squash ") ["squash"] ->
   removeListItem (addListItem ["squash"] " squash ") (trim " squash ") = ["squash"]).
Proof.
  apply (addListItem_keeps_items_unique ["squash"] " squash ").
  constructor; [ intros [] | constructor ].
Defined.

(** ** The pattern of the YouTube links *)

(** *** What a match consumes *)

Lemma strip_prefix_app (text s s' : string) :
  strip_prefix text s = Some s' -> s = text ++ s'.
Proof.
  revert s. induction text as [ | a text IH]; intros s; cbn [strip_prefix].
  - intros H. injection H as ->. reflexivity.
  - destruct s as [ | c s]; [ intros H; discriminate H | ].
    destruct (Ascii.eqb_spec a c) as [-> | _]; [ | intros H; discriminate H ].
    intros H. cbn [append]. f_equal. exact (IH s H).
Qed.

Lemma match_star_consumes {A : Type} (p : ascii -> bool) (s : string)
  (k : string -> option A) (v : A) :
  match_star p s k = Some v -> exists a s', s = a ++ s' /\ k s' = Some v.
Proof.
  induction s as [ | c s IH]; cbn [match_star]; intros H.
  - exists "", "". split; [ reflexivity | exact H ].
  - assert (Hhere : k (String c s) = Some v -> exists a s', String c s = a ++ s' /\ k s' = Some v).
    { intros Hk. exists "", (String c s). split; [ reflexivity | exact Hk ]. }
    destruct (p c); [ | exact (Hhere H) ].
    destruct (match_star p s k) as [w | ] eqn:Hs; cbn [or_else] in H; [ | exact (Hhere H) ].
    destruct (IH H) as (a & s' & -> & Hk).
    exists (String c a), s'. split; [ reflexivity | exact Hk ].
Qed.

Lemma match_times_consumes {A : Type} (n : nat) (p : ascii -> bool) (s : string)
  (k : string -> option A) (v : A) :
  match_times n p s k = Some v ->
  exists a s', s = a ++ s' /\ String.length a = n /\ all_chars p a = true /\ k s' = Some v.
Proof.
  revert s. induction n as [ | n IH]; intros s; cbn [match_times]; intros H.
  - exists "", s. repeat split. exact H.
  - destruct s as [ | c s]; [ discriminate H | ].
    destruct (p c) eqn:Hc; [ | discriminate H ].
    destruct (IH s H) as (a & s' & -> & Hlen & Hall & Hk).
    exists (String c a), s'. cbn [append String.length all_chars]. rewrite Hc, Hlen, Hall.
    repeat split. exact Hk.
Qed.

(** A successful match is a success of the continuation on a suffix. *)
Lemma match_regex_consumes {A : Type} (r : regex) :
  forall (s : string) (capture : option string)
         (k : string -> option string -> option A) (v : A),
    match_regex r s capture k = Some v ->
    exists a s' capture', s = a ++ s' /\ k s' capture' = Some v.
Proof.
  induction r as [text | p | p | p | n p | r1 IH1 r2 IH2 | r1 IH1 r2 IH2 | r IH | r IH];
    intros s capture k v; cbn [match_regex]; intros H.
  - destruct (strip_prefix text s) as [s' | ] eqn:Hs; [ | discriminate H ].
    exists text, s', capture. split; [ apply strip_prefix_app, Hs | exact H ].
  - destruct s as [ | c s]; [ discriminate H | ].
    destruct (p c); [ | discriminate H ].
    exists (String c ""), s, capture. split; [ reflexivity | exact H ].
  - destruct (match_star_consumes _ _ _ _ H) as (a & s' & Heq & Hk).
    exists a, s', capture. split; assumption.
  - destruct s as [ | c s]; [ discriminate H | ].
    destruct (p c); [ | discriminate H ].
    destruct (match_star_consumes _ _ _ _ H) as (a & s' & -> & Hk).
    exists (String c a), s', capture. split; [ reflexivity | exact Hk ].
  - destruct (match_times_consumes _ _ _ _ _ H) as (a & s' & Heq & _ & _ & Hk).
    exists a, s', capture. split; assumption.
  - destruct (IH1 _ _ _ _ H) as (a & s1 & c1 & -> & H1).
    destruct (IH2 _ _ _ _ H1) as (b & s2 & c2 & -> & H2).
    exists (a ++ b), s2, c2. split; [ symmetry; apply string_app_assoc | exact H2 ].
  - destruct (match_regex r1 s capture k) as [w | ] eqn:H1; cbn [or_else] in H.
    + injection H as ->. exact (IH1 _ _ _ _ H1).
    + exact (IH2 _ _ _ _ H).
  - destruct (match_regex r s capture k) as [w | ] eqn:H1; cbn [or_else] in H.
    + injection H as ->. exact (IH _ _ _ _ H1).
    + exists "", s, capture. split; [ reflexivity | exact H ].
  - destruct (IH _ _ _ _ H) as (a & s1 & c1 & Heq & H1).
    exists a, s1, (Some (substring 0 (String.length s - String.length s1) s)).
    split; assumption.
Qed.

Lemma substring_prefix (a b : string) :
  substring 0 (String.length (a ++ b) - String.length b) (a ++ b) = a.
Proof.
  rewrite string_length_app.
  replace (String.length a + String.length b - String.length b)%nat
    with (String.length a) by lia.
  induction a as [ | c a IH]; cbn [append String.length substring].
  - destruct b; reflexivity.
  - rewrite IH. reflexivity.
Qed.

(** The capturing group: eleven characters of the class. *)
Lemma video_id_captures {A : Type} (s : string) (capture : option string)
  (k : string -> option string -> option A) (v : A) :
  match_regex video_id s capture k = Some v ->
  exists id s', s = id ++ s' /\ String.length id = 11%nat /\ all_chars id_char id = true /\
                k s' (Some id) = Some v.
Proof.
  unfold video_id. cbn [match_regex]. intros H.
  destruct (match_times_consumes _ _ _ _ _ H) as (id & s' & -> & Hlen & Hall & Hk).
  rewrite substring_prefix in Hk.
  exists id, s'. repeat split; assumption.
Qed.

(** The part before the capture names one of the two hosts. *)
Lemma host_and_path_consumes {A : Type} (s : string) (capture : option string)
  (k : string -> option string -> option A) (v : A) :
  match_regex host_and_path s capture k = Some v ->
  exists host path s' capture',
    s = host ++ path ++ s' /\ k s' capture' = Some v /\
    (host = "youtube.com/" \/ (host = "youtu.be/" /\ path = "")).
Proof.
  unfold host_and_path.
  change (match_regex (Alt ?r1 ?r2) s capture k)
    with (or_else (match_regex r1 s capture k) (match_regex r2 s capture k)).
  match goal with
  | |- or_else ?first _ = _ -> _ => destruct first as [w | ] eqn:H1
  end; cbn [or_else]; intros H.
  - injection H as ->.
    change (match_regex (Seq (Lit ?t) ?r) s capture k)
      with (match strip_prefix t s with
            | Some s' => match_regex r s' capture k
            | None => None
            end) in H1.
    destruct (strip_prefix "youtube.com/" s) as [s1 | ] eqn:Hs; [ | discriminate H1 ].
    apply strip_prefix_app in Hs. subst s.
    destruct (match_regex_consumes _ _ _ _ _ H1) as (path & s' & capture' & -> & Hk).
    exists "youtube.com/", path, s', capture'.
    split; [ reflexivity | ]. split; [ exact Hk | left; reflexivity ].
  - cbn [match_regex] in H.
    destruct (strip_prefix "youtu.be/" s) as [s1 | ] eqn:Hs; [ | discriminate H ].
    apply strip_prefix_app in Hs. subst s.
    exists "youtu.be/", "", s1, capture.
    split; [ reflexivity | ]. split; [ exact H | right; split; reflexivity ].
Qed.

Lemma youtube_regex_match (s : string) (found : option string) :
  match_regex youtube_regex s None (fun _ capture => Some capture) = Some found ->
  exists host path id rest,
    found = Some id /\ s = host ++ path ++ id ++ rest /\
    String.length id = 11%nat /\ all_chars id_char id = true /\
    (host = "youtube.com/" \/ (host = "youtu.be/" /\ path = "")).
Proof.
  unfold youtube_regex.
  change (match_regex (Seq ?r1 ?r2) s None ?k)
    with (match_regex r1 s None (fun s1 c1 => match_regex r2 s1 c1 k)).
  intros H.
  destruct (host_and_path_consumes _ _ _ _ H) as (host & path & s1 & c1 & -> & H1 & Hhost).
  destruct (video_id_captures _ _ _ _ H1) as (id & rest & -> & Hlen & Hall & Hk).
  injection Hk as <-.
  exists host, path, id, rest. repeat split; assumption.
Qed.

Lemma String_match_youtube (url : string) (found : option string) :
  String_match youtube_regex url = Some found ->
  exists before host path id rest,
    found = Some id /\ url = before ++ host ++ path ++ id ++ rest /\
    String.length id = 11%nat /\ all_chars id_char id = true /\
    (host = "youtube.com/" \/ (host = "youtu.be/" /\ path = "")).
Proof.
  induction url as [ | c url IH]; cbn [String_match];
    destruct (match_regex youtube_regex _ None _) as [w | ] eqn:Hm; intros H;
    try discriminate H.
  - injection H as ->.
    destruct (youtube_regex_match _ _ Hm) as (host & path & id & rest & Hf & Hs & Hrest).
    exists "", host, path, id, rest. repeat split; try apply Hrest; assumption.
  - injection H as ->.
    destruct (youtube_regex_match _ _ Hm) as (host & path & id & rest & Hf & Hs & Hrest).
    exists "", host, path, id, rest. repeat split; try apply Hrest; assumption.
  - destruct (IH H) as (before & host & path & id & rest & Hf & -> & Hrest).
    exists (String c before), host, path, id, rest.
    repeat split; try apply Hrest; assumption.
Qed.

(** An id that is found is not the empty string, and nor is the url. *)
Lemma extractYouTubeId_not_empty (url id : string) :
  extractYouTubeId url = Some id -> truthy_string id = true /\ truthy_string url = true.
Proof.
  unfold extractYouTubeId.
  destruct (String_match youtube_regex url) as [found | ] eqn:Hm; [ | intros H; discriminate H ].
  destruct (String_match_youtube url found Hm)
    as (before & host & path & id' & rest & -> & Heq & Hlen & _ & Hhost).
  intros H. injection H as <-. split.
  - destruct id'; [ discriminate Hlen | reflexivity ].
  - subst url. destruct before; [ | reflexivity ].
    destruct Hhost as [-> | [-> _]]; reflexivity.
Qed.

(** X18: what extractYouTubeId returns, when it is not null, is a part of the
    url of exactly eleven characters, none of them a double quote, [&], [?],
    [/] or white space, and the url names youtube.com/ or youtu.be/ before
    it (directly before it for youtu.be/); so a url of fewer than twenty
    characters gives null. *)
Theorem extractYouTubeId_returns_eleven_characters (url id : string) :
  extractYouTubeId url = Some id ->
  String.length id = 11%nat /\ all_chars id_char id = true /\
  (20 <= String.length url)%nat /\
  exists before host path rest,
    url = before ++ host ++ path ++ id ++ rest /\
    (host = "youtube.com/" \/ (host = "youtu.be/" /\ path = "")).
Proof.
  unfold extractYouTubeId.
  destruct (String_match youtube_regex url) as [found | ] eqn:Hm; [ | intros H; discriminate H ].
  destruct (String_match_youtube url found Hm)
    as (before & host & path & id' & rest & -> & Heq & Hlen & Hall & Hhost).
  intros H. injection H as <-.
  split; [ exact Hlen | ]. split; [ exact Hall | ]. split.
  - subst url. rewrite !string_length_app, Hlen.
    destruct Hhost as [-> | [-> _]]; cbn [String.length]; lia.
  - exists before, host, path, rest. split; assumption.
Qed.

Lemma extractYouTubeId_returns_eleven_characters_witness :
  String.length "dQw4w9WgXcQ" = 11%nat /\ all_chars id_char "dQw4w9WgXcQ" = true /\
  (20 <= String.length "https://www.youtube.com/watch?v=dQw4w9WgXcQ&t=42s")%nat /\
  exists before host path rest,
    "https://www.youtube.com/watch?v=dQw4w9WgXcQ&t=42s"
    = before ++ host ++ path ++ "dQw4w9WgXcQ" ++ rest /\
    (host = "youtube.com/" \/ (host = "youtu.be/" /\ path = "")).
Proof.
  apply (extractYouTubeId_returns_eleven_characters
           "https://www.youtube.com/watch?v=dQw4w9WgXcQ&t=42s" "dQw4w9WgXcQ").
  vm_compute. reflexivity.
Defined.

(** X19: the thumbnail: getYouTubeThumbnail is null exactly when
    extractYouTubeId is, and otherwise the address of the image with the id
    between its fixed parts; the exercise list shows that image, and the
    placeholder when the exercise has no url or no id is found in it. *)
Theorem thumbnail_follows_the_video_id (youtube_url : option string) :
  (forall url, getYouTubeThumbnail url =
     match extractYouTubeId url with
     | Some id => Some ("https://img.youtube.com/vi/" ++ id ++ "/mqdefault.jpg")
     | None => None
     end) /\
  thumbnailShown youtube_url =
  match youtube_url with
  | Some url => getYouTubeThumbnail url
  | None => None
  end.
Proof.
  assert (Hthumb : forall url, getYouTubeThumbnail url =
     match extractYouTubeId url with
     | Some id => Some ("https://img.youtube.com/vi/" ++ id ++ "/mqdefault.jpg")
     | None => None
     end).
  { intros url. unfold getYouTubeThumbnail.
    destruct (extractYouTubeId url) as [id | ] eqn:Hid; [ | reflexivity ].
    apply extractYouTubeId_not_empty in Hid. destruct Hid as [Hid _].
    rewrite Hid. reflexivity. }
  split; [ exact Hthumb | ].
  destruct youtube_url as [url | ]; [ | reflexivity ].
  unfold thumbnailShown. rewrite Hthumb.
  destruct (extractYouTubeId url) as [id | ] eqn:Hid.
  - apply extractYouTubeId_not_empty in Hid. destruct Hid as [_ Hurl].
    rewrite Hurl. reflexivity.
  - destruct (truthy_string url); reflexivity.
Qed.

(** *** The links that are recognised *)

Lemma or_else_None_r {A : Type} (x : option A) : or_else x None = x.
Proof. destruct x; reflexivity. Qed.

Lemma match_star_None {A : Type} (p : ascii -> bool) (s : string) (k : string -> option A) :
  fails_everywhere k s -> match_star p s k = None.
Proof.
  induction s as [ | c s IH]; cbn [match_star fails_everywhere]; intros [Hk Hrest].
  - exact Hk.
  - rewrite Hk, (IH Hrest). destruct (p c); reflexivity.
Qed.

Lemma match_times_exact {A : Type} (n : nat) (p : ascii -> bool) (id rest : string)
  (k : string -> option A) :
  String.length id = n -> all_chars p id = true -> match_times n p (id ++ rest) k = k rest.
Proof.
  revert n. induction id as [ | c id IH]; intros n Hn Hall; subst n; [ reflexivity | ].
  cbn [all_chars] in Hall. apply andb_true_iff in Hall. destruct Hall as [Hc Hall].
  cbn [String.length match_times append]. rewrite Hc. apply IH; [ reflexivity | exact Hall ].
Qed.

Lemma match_star_skip {A : Type} (p : ascii -> bool) (a rest : string)
  (k : string -> option A) (v : A) :
  all_chars p a = true -> match_star p rest k = Some v -> match_star p (a ++ rest) k = Some v.
Proof.
  intros Hall Hk. induction a as [ | c a IH]; [ exact Hk | ].
  cbn [all_chars] in Hall. apply andb_true_iff in Hall. destruct Hall as [Hc Hall].
  cbn [append match_star]. rewrite Hc, (IH Hall). reflexivity.
Qed.

Lemma fails_everywhere_by_head {A : Type} (k : string -> option A) (q : ascii -> bool)
  (s : string) :
  k "" = None -> (forall c t, q c = true -> k (String c t) = None) ->
  all_chars q s = true -> fails_everywhere k s.
Proof.
  intros Hempty Hhead. induction s as [ | c s IH]; cbn [all_chars fails_everywhere]; intros Hall.
  - split; [ exact Hempty | exact I ].
  - apply andb_true_iff in Hall. destruct Hall as [Hc Hall].
    split; [ apply Hhead, Hc | apply IH, Hall ].
Qed.

Lemma video_id_exact {A : Type} (id rest : string) (capture : option string)
  (k : string -> option string -> option A) :
  String.length id = 11%nat -> all_chars id_char id = true ->
  match_regex video_id (id ++ rest) capture k = k rest (Some id).
Proof.
  intros Hlen Hall. unfold video_id. cbn [match_regex].
  rewrite (match_times_exact _ _ _ _ _ Hlen Hall), substring_prefix. reflexivity.
Qed.

Lemma String_match_later (r : regex) (c : ascii) (s : string) :
  match_regex r (String c s) None (fun _ capture => Some capture) = None ->
  String_match r (String c s) = String_match r s.
Proof. intros H. cbn [String_match]. rewrite H. reflexivity. Qed.

Lemma String_match_here (r : regex) (s : string) (found : option string) :
  match_regex r s None (fun _ capture => Some capture) = Some found ->
  String_match r s = Some found.
Proof. intros H. destruct s; cbn [String_match]; rewrite H; reflexivity. Qed.



Lemma id_char_class (c : ascii) :
  id_char c = true ->
  not_slash c = true /\ any_char c = true /\ query_mark c = false.
Proof.
  destruct c as [[|] [|] [|] [|] [|] [|] [|] [|]]; vm_compute; intros H;
    try discriminate H; repeat split.
Qed.

Lemma all_chars_impl (p q : ascii -> bool) (s : string) :
  (forall c, p c = true -> q c = true) -> all_chars p s = true -> all_chars q s = true.
Proof.
  intros Hpq. induction s as [ | c s IH]; [ reflexivity | ].
  cbn [all_chars]. rewrite !andb_true_iff. intros [Hc Hs]. split; [ apply Hpq, Hc | apply IH, Hs ].
Qed.

Lemma all_chars_app (p : ascii -> bool) (a b : string) :
  all_chars p (a ++ b) = all_chars p a && all_chars p b.
Proof.
  induction a as [ | c a IH]; [ reflexivity | ].
  cbn [append all_chars]. rewrite IH. apply andb_assoc.
Qed.

Lemma not_slash_head (c : ascii) : not_slash c = true -> Ascii.eqb "/" c = false.
Proof.
  destruct c as [[|] [|] [|] [|] [|] [|] [|] [|]]; vm_compute; intros H;
    try discriminate H; reflexivity.
Qed.

(** After a text without a slash, [\/...] fails everywhere. *)
Lemma slash_fails {A : Type} (r : regex) (capture : option string)
  (k : string -> option string -> option A) (s : string) :
  all_chars not_slash s = true ->
  fails_everywhere (fun t => match_regex (Seq (Lit "/") r) t capture k) s.
Proof.
  apply fails_everywhere_by_head.
  - reflexivity.
  - intros c t Hc. cbn [match_regex strip_prefix]. rewrite (not_slash_head c Hc). reflexivity.
Qed.

Lemma lone_slash_fails {A : Type} (capture : option string)
  (k : string -> option string -> option A) (s : string) :
  all_chars not_slash s = true ->
  fails_everywhere (fun t => match_regex (Lit "/") t capture k) s.
Proof.
  apply fails_everywhere_by_head.
  - reflexivity.
  - intros c t Hc. cbn [match_regex strip_prefix]. rewrite (not_slash_head c Hc). reflexivity.
Qed.

Lemma match_plus_None {A : Type} (p : ascii -> bool) (s : string) (capture : option string)
  (k : string -> option string -> option A) :
  fails_everywhere (fun t => k t capture) s -> match_regex (Plus p) s capture k = None.
Proof.
  intros H. cbn [match_regex]. destruct s as [ | c s]; [ reflexivity | ].
  destruct (p c); [ | reflexivity ].
  apply match_star_None. cbn [fails_everywhere] in H. apply H.
Qed.

Lemma path_segments_no_slash {A : Type} (s : string) (capture : option string)
  (k : string -> option string -> option A) :
  all_chars not_slash s = true -> match_regex path_segments s capture k = None.
Proof.
  intros H. unfold path_segments.
  change (match_regex (Seq (Plus not_slash) ?r) s capture k)
    with (match_regex (Plus not_slash) s capture (fun s1 c1 => match_regex r s1 c1 k)).
  apply match_plus_None. apply (slash_fails _ capture k s H).
Qed.

Lemma path_segments_one_slash {A : Type} (a b : string) (capture : option string)
  (k : string -> option string -> option A) :
  all_chars not_slash a = true -> all_chars not_slash b = true ->
  match_regex path_segments (a ++ String "/" b) capture k = None.
Proof.
  intros Ha Hb. unfold path_segments.
  change (match_regex (Seq (Plus not_slash) ?r) ?s capture k)
    with (match_regex (Plus not_slash) s capture (fun s1 c1 => match_regex r s1 c1 k)).
  apply match_plus_None.
  induction a as [ | c a IH].
  - cbn [append fails_everywhere]. split.
    + change (match_regex (Seq (Lit "/") ?r) (String "/" b) capture k)
        with (match_regex r b capture k).
      change (match_regex (Seq (Plus any_char) ?r) b capture k)
        with (match_regex (Plus any_char) b capture (fun s1 c1 => match_regex r s1 c1 k)).
      apply match_plus_None. apply (lone_slash_fails capture k b Hb).
    + apply (slash_fails _ capture k b Hb).
  - cbn [all_chars] in Ha. apply andb_true_iff in Ha. destruct Ha as [Hc Ha].
    cbn [append fails_everywhere]. split; [ | exact (IH Ha) ].
    cbn [match_regex strip_prefix]. rewrite (not_slash_head c Hc). reflexivity.
Qed.

Lemma youtube_regex_first_char {A : Type} (c : ascii) (s : string)
  (k : string -> option string -> option A) :
  Ascii.eqb "y" c = false -> match_regex youtube_regex (String c s) None k = None.
Proof.
  intros H. unfold youtube_regex, host_and_path. cbn [match_regex strip_prefix].
  rewrite H. reflexivity.
Qed.

Lemma String_match_skips (before s : string) :
  all_chars (fun c => negb (Ascii.eqb "y" c)) before = true ->
  String_match youtube_regex (before ++ s) = String_match youtube_regex s.
Proof.
  induction before as [ | c before IH]; [ reflexivity | ].
  cbn [all_chars]. rewrite andb_true_iff, negb_true_iff. intros [Hc Hall].
  cbn [append]. rewrite String_match_later; [ exact (IH Hall) | ].
  apply youtube_regex_first_char, Hc.
Qed.

Lemma youtu_be_match {A : Type} (s : string) (k : string -> option string -> option A) :
  match_regex youtube_regex ("youtu.be/" ++ s) None k = match_regex video_id s None k.
Proof. reflexivity. Qed.

Lemma youtube_com_match {A : Type} (s : string) (k : string -> option string -> option A) :
  match_regex youtube_regex ("youtube.com/" ++ s) None k =
  or_else (match_regex path_segments s None (fun s1 c1 => match_regex video_id s1 c1 k))
    (or_else (match_regex path_embed s None (fun s1 c1 => match_regex video_id s1 c1 k))
       (match_regex path_query s None (fun s1 c1 => match_regex video_id s1 c1 k))).
Proof.
  transitivity
    (or_else
       (or_else (match_regex path_segments s None (fun s1 c1 => match_regex video_id s1 c1 k))
          (or_else (match_regex path_embed s None (fun s1 c1 => match_regex video_id s1 c1 k))
             (match_regex path_query s None (fun s1 c1 => match_regex video_id s1 c1 k))))
       None); [ reflexivity | apply or_else_None_r ].
Qed.

Lemma path_embed_match {A : Type} (s : string) (k : string -> option string -> option A) :
  match_regex path_embed ("embed/" ++ s) None k = or_else (k s None) None /\
  match_regex path_embed ("v/" ++ s) None k = or_else (k s None) None.
Proof. split; reflexivity. Qed.

Lemma query_mark_fails {A : Type} (capture : option string)
  (k : string -> option string -> option A) (s : string) :
  all_chars (fun c => negb (query_mark c)) s = true ->
  fails_everywhere (fun t => match_regex (Seq (Class query_mark) (Lit "v=")) t capture k) s.
Proof.
  apply fails_everywhere_by_head.
  - reflexivity.
  - intros c t Hc. apply negb_true_iff in Hc. cbn [match_regex]. rewrite Hc. reflexivity.
Qed.

Lemma path_query_match {A : Type} (a b : string) (capture : option string)
  (k : string -> option string -> option A) (v : A) :
  all_chars any_char a = true ->
  all_chars (fun c => negb (query_mark c)) b = true ->
  k b capture = Some v ->
  match_regex path_query (a ++ "?v=" ++ b) capture k = Some v.
Proof.
  intros Ha Hb Hk. unfold path_query.
  change (match_regex (Seq (Star any_char) ?r) ?s capture k)
    with (match_star any_char s (fun s1 => match_regex r s1 capture k)).
  apply match_star_skip; [ exact Ha | ].
  change ("?v=" ++ b) with (String "?" ("v=" ++ b)).
  cbn [match_star]. change (any_char "?") with true. cbv iota.
  rewrite match_star_None.
  - exact Hk.
  - apply query_mark_fails. exact Hb.
Qed.

(** X20: the usual forms of a link are recognised, whatever the eleven
    characters of the id (none of them a double quote, [&], [?], [/] or white
    space) and whatever precedes the host, as long as it has no letter y:
    youtu.be/ID with anything after it, youtube.com/watch?v=ID followed by
    nothing or by a text without [?], [&] and [/], and youtube.com/embed/ID
    and youtube.com/v/ID followed by a text without [/]. *)
Theorem extractYouTubeId_finds_the_usual_links (before id tail : string) :
  all_chars (fun c => negb (Ascii.eqb "y" c)) before = true ->
  String.length id = 11%nat ->
  all_chars id_char id = true ->
  extractYouTubeId (before ++ "youtu.be/" ++ id ++ tail) = Some id /\
  (all_chars (fun c => negb (one_of "?&/" c)) tail = true ->
   extractYouTubeId (before ++ "youtube.com/watch?v=" ++ id ++ tail) = Some id) /\
  (all_chars not_slash tail = true ->
   extractYouTubeId (before ++ "youtube.com/embed/" ++ id ++ tail) = Some id /\
   extractYouTubeId (before ++ "youtube.com/v/" ++ id ++ tail) = Some id).
Proof.
  intros Hbefore Hlen Hall.
  pose proof (all_chars_impl _ _ id (fun c H => proj1 (id_char_class c H)) Hall) as Hslash.
  assert (Hquery : all_chars (fun c => negb (query_mark c)) id = true).
  { apply (all_chars_impl id_char); [ | exact Hall ].
    intros c H. apply negb_true_iff. apply (id_char_class c H). }
  unfold extractYouTubeId.
  split; [ | split ].
  - rewrite String_match_skips by exact Hbefore.
    rewrite (String_match_here _ _ (Some id)); [ reflexivity | ].
    rewrite youtu_be_match. rewrite video_id_exact by assumption. reflexivity.
  - intros Htail.
    assert (Htail_slash : all_chars not_slash tail = true).
    { apply (all_chars_impl (fun c => negb (one_of "?&/" c))); [ | exact Htail ].
      intros [[|] [|] [|] [|] [|] [|] [|] [|]]; vm_compute; intros H;
        try discriminate H; reflexivity. }
    assert (Htail_query : all_chars (fun c => negb (query_mark c)) tail = true).
    { apply (all_chars_impl (fun c => negb (one_of "?&/" c))); [ | exact Htail ].
      intros [[|] [|] [|] [|] [|] [|] [|] [|]]; vm_compute; intros H;
        try discriminate H; reflexivity. }
    rewrite String_match_skips by exact Hbefore.
    rewrite (String_match_here _ _ (Some id)); [ reflexivity | ].
    change ("youtube.com/watch?v=" ++ id ++ tail)
      with ("youtube.com/" ++ "watch?v=" ++ id ++ tail).
    rewrite youtube_com_match.
    rewrite path_segments_no_slash.
    + change (match_regex path_embed ("watch?v=" ++ id ++ tail) None ?k) with (@None (option string)).
      cbn [or_else].
      apply (path_query_match "watch" (id ++ tail)).
      * reflexivity.
      * rewrite all_chars_app, Hquery, Htail_query. reflexivity.
      * cbv beta. rewrite video_id_exact by assumption. reflexivity.
    + change (all_chars not_slash ("watch?v=" ++ id ++ tail))
        with (all_chars not_slash (id ++ tail)).
      rewrite all_chars_app, Hslash, Htail_slash. reflexivity.
  - intros Htail.
    assert (Hpath : all_chars not_slash (id ++ tail) = true).
    { rewrite all_chars_app, Hslash, Htail. reflexivity. }
    split.
    + rewrite String_match_skips by exact Hbefore.
      rewrite (String_match_here _ _ (Some id)); [ reflexivity | ].
      change ("youtube.com/embed/" ++ id ++ tail)
        with ("youtube.com/" ++ "embed" ++ String "/" (id ++ tail)).
      rewrite youtube_com_match.
      rewrite (path_segments_one_slash "embed" (id ++ tail)) by (reflexivity || exact Hpath).
      change ("embed" ++ String "/" (id ++ tail)) with ("embed/" ++ id ++ tail).
      rewrite (proj1 (path_embed_match _ _)).
      rewrite video_id_exact by assumption. reflexivity.
    + rewrite String_match_skips by exact Hbefore.
      rewrite (String_match_here _ _ (Some id)); [ reflexivity | ].
      change ("youtube.com/v/" ++ id ++ tail)
        with ("youtube.com/" ++ "v" ++ String "/" (id ++ tail)).
      rewrite youtube_com_match.
      rewrite (path_segments_one_slash "v" (id ++ tail)) by (reflexivity || exact Hpath).
      change ("v" ++ String "/" (id ++ tail)) with ("v/" ++ id ++ tail).
      rewrite (proj2 (path_embed_match _ _)).
      rewrite video_id_exact by assumption. reflexivity.
Qed.

Lemma extractYouTubeId_finds_the_usual_links_witness :
  extractYouTubeId ("https://www." ++ "youtu.be/" ++ "dQw4w9WgXcQ" ++ "") = Some "dQw4w9WgXcQ" /\
  (all_chars (fun c => negb (one_of "?&/" c)) "" = true ->
   extractYouTubeId ("https://www." ++ "youtube.com/watch?v=" ++ "dQw4w9WgXcQ" ++ "")
   = Some "dQw4w9WgXcQ") /\
  (all_chars not_slash "" = true ->
   extractYouTubeId ("https://www." ++ "youtube.com/embed/" ++ "dQw4w9WgXcQ" ++ "")
   = Some "dQw4w9WgXcQ" /\
   extractYouTubeId ("https://www." ++ "youtube.com/v/" ++ "dQw4w9WgXcQ" ++ "")
   = Some "dQw4w9WgXcQ").
Proof.
  apply (extractYouTubeId_finds_the_usual_links "https://www." "dQw4w9WgXcQ" "");
    reflexivity.
Defined.

(** ** The inputs of the body metrics step *)

(** [Number] reads back the decimal writing of a natural number. *)
Lemma Number_decimal (n : Z) : 0 <= n -> Number (decimal n) = of_Z n.
Proof.
  intros Hn. pose proof (decimal_digits n Hn) as Hdigits.
  pose proof (decimal_value n Hn) as Hvalue.
  destruct (decimal_nonempty n) as (c & r & Heq). rewrite Heq in *.
  assert (Hc : is_digit c = true).
  { cbn [all_digits] in Hdigits. apply andb_true_iff in Hdigits. apply Hdigits. }
  rewrite (Number_unsigned c r Hc). unfold parse_unsigned.
  rewrite (not_Infinity c r Hc), (span_digits_all _ Hdigits).
  cbn [parse_exponent literal_value]. rewrite Hvalue.
  apply NumberValue_Qeq. change (10 ^ 0)%Q with 1%Q. ring.
Qed.

(** X21: a height and a weight typed as whole numbers within the bounds of
    the two inputs (100 to 250 cm, 30 to 300 kg), in either order: the BMI the
    step shows is a multiple of one tenth at most one twentieth away from the
    exact index, weight / (height / 100)^2. *)
Theorem typed_measurements_show_the_rounded_index
  (bm : BodyMetrics) (heightCm weightKg : Z) :
  100 <= heightCm <= 250 -> 30 <= weightKg <= 300 ->
  calculatedBMI (onWeightChange (onHeightChange bm (decimal heightCm)) (decimal weightKg))
  = calculatedBMI (onHeightChange (onWeightChange bm (decimal weightKg)) (decimal heightCm)) /\
  exists n,
    calculatedBMI (onWeightChange (onHeightChange bm (decimal heightCm)) (decimal weightKg))
    = Return (NumberValue (inject_Z n / 10)) /\
    (Qabs (inject_Z n / 10 - exact_BMI weightKg heightCm) <= 1 # 20)%Q.
Proof.
  intros Hh Hw. split; [ reflexivity | ].
  unfold calculatedBMI. cbn [onWeightChange onHeightChange weight_kg height_cm].
  rewrite !Number_decimal by lia.
  apply calculateBMI_on_the_form; assumption.
Qed.

Lemma typed_measurements_show_the_rounded_index_witness :
  calculatedBMI (onWeightChange (onHeightChange (bodyMetrics initialState) (decimal 180))
                   (decimal 81))
  = calculatedBMI (onHeightChange (onWeightChange (bodyMetrics initialState) (decimal 81))
                     (decimal 180)) /\
  exists n,
    calculatedBMI (onWeightChange (onHeightChange (bodyMetrics initialState) (decimal 180))
                     (decimal 81))
    = Return (NumberValue (inject_Z n / 10)) /\
    (Qabs (inject_Z n / 10 - exact_BMI 81 180) <= 1 # 20)%Q.
Proof.
  apply (typed_measurements_show_the_rounded_index (bodyMetrics initialState) 180 81); lia.
Defined.

(** X22: an emptied input: the height becomes 0, not undefined, and the step
    then shows Infinity as the BMI of any positive weight; the optional body
    fat becomes undefined. *)
Theorem emptied_height_shows_an_infinite_index (bm : BodyMetrics) :
  (0 <? weight_kg bm)%float = true ->
  height_cm (onHeightChange bm "") = 0%float /\
  calculatedBMI (onHeightChange bm "") = Return infinity /\
  body_fat_percentage (onBodyFatChange bm "") = None.
Proof.
  intros Hw. split; [ reflexivity | ]. split; [ | reflexivity ].
  unfold calculatedBMI. cbn [onHeightChange weight_kg height_cm].
  rewrite calculateBMI_binary64. unfold binary64_BMI. cbv zeta.
  change (Number "") with zero.
  rewrite (square_of_zero_height zero eq_refl).
  rewrite (proj1 (div_by_zero (weight_kg bm)) Hw). reflexivity.
Qed.

Lemma emptied_height_shows_an_infinite_index_witness :
  height_cm (onHeightChange (bodyMetrics initialState) "") = 0%float /\
  calculatedBMI (onHeightChange (bodyMetrics initialState) "") = Return infinity /\
  body_fat_percentage (onBodyFatChange (bodyMetrics initialState) "") = None.
Proof.
  exact (emptied_height_shows_an_infinite_index (bodyMetrics initialState) eq_refl).
Defined.

(** ** The week view of a plan *)

Lemma find_filter {A : Type} (f g : A -> bool) (l : list A) :
  find f (filter g l) = find (fun x => g x && f x) l.
Proof.
  induction l as [ | a l IH]; [ reflexivity | ].
  cbn [filter find]. destruct (g a); cbn [find andb]; rewrite IH; reflexivity.
Qed.

(** What [find] returns is the first element that satisfies the test. *)
Lemma find_first {A : Type} (f : A -> bool) (l : list A) (x : A) :
  find f l = Some x ->
  exists before after,
    l = (before ++ x :: after)%list /\ f x = true /\ forall y, In y before -> f y = false.
Proof.
  induction l as [ | a l IH]; cbn [find]; [ intros H; discriminate H | ].
  destruct (f a) eqn:Ha.
  - intros H. injection H as ->. exists [], l. split; [ reflexivity | ].
    split; [ exact Ha | intros y [] ].
  - intros H. destruct (IH H) as (before & after & -> & Hx & Hbefore).
    exists (a :: before), after. split; [ reflexivity | ]. split; [ exact Hx | ].
    intros y [<- | Hy]; [ exact Ha | exact (Hbefore y Hy) ].
Qed.

Lemma weekView_cells (days : list WorkoutDay) (selectedWeek : number) (i : Z) :
  0 <= i <= 6 ->
  nth_error (weekView days selectedWeek) (Z.to_nat i) =
  match nth_error DAYS_OF_WEEK (Z.to_nat i) with
  | Some dayName =>
      Some (dayName,
            find (fun d => strict_eq (day_of_week d) (of_Z i)) (weekDays days selectedWeek))
  | None => None
  end.
Proof.
  intros Hi. each_integer i 0 7%nat; reflexivity.
Qed.

(** X23: the week view of a plan has one card for each day, Sunday first.
    The card of the day with index [i] shows the first workout of the list
    that is of the selected week and has [i] as its [day_of_week]; it reads
    Rest day exactly when the list has no such workout.  A workout whose
    [day_of_week] is none of 0 to 6 is on no card. *)
Theorem week_view_shows_first_workout_of_each_day
  (days : list WorkoutDay) (selectedWeek : number) :
  map fst (weekView days selectedWeek) = DAYS_OF_WEEK /\
  (forall i, 0 <= i <= 6 ->
     exists dayName cell,
       nth_error (weekView days selectedWeek) (Z.to_nat i) = Some (dayName, cell) /\
       nth_error DAYS_OF_WEEK (Z.to_nat i) = Some dayName /\
       (cell = None <->
        forall d, In d days ->
          strict_eq (week_number d) selectedWeek && strict_eq (day_of_week d) (of_Z i) = false) /\
       (forall d, cell = Some d ->
          strict_eq (week_number d) selectedWeek = true /\
          strict_eq (day_of_week d) (of_Z i) = true /\
          exists before after,
            days = (before ++ d :: after)%list /\
            forall d', In d' before ->
              strict_eq (week_number d') selectedWeek && strict_eq (day_of_week d') (of_Z i)
              = false)) /\
  (forall dayName d, In (dayName, Some d) (weekView days selectedWeek) ->
     exists i, 0 <= i <= 6 /\ strict_eq (day_of_week d) (of_Z i) = true).
Proof.
  split; [ reflexivity | ]. split.
  - intros i Hi. rewrite (weekView_cells days selectedWeek i Hi).
    destruct (nth_error DAYS_OF_WEEK (Z.to_nat i)) as [dayName | ] eqn:Hname.
    + exists dayName, (find (fun d => strict_eq (day_of_week d) (of_Z i))
                         (weekDays days selectedWeek)).
      split; [ reflexivity | ]. split; [ reflexivity | ].
      unfold weekDays. rewrite find_filter. split.
      * split.
        -- intros Hnone d Hd. exact (find_none _ _ Hnone d Hd).
        -- intros Hall.
           destruct (find _ days) as [d | ] eqn:Hfind; [ | reflexivity ].
           apply find_some in Hfind. destruct Hfind as [Hin Hd].
           rewrite (Hall d Hin) in Hd. discriminate Hd.
      * intros d Hfind. apply find_first in Hfind.
        destruct Hfind as (before & after & Heq & Hd & Hbefore).
        apply andb_true_iff in Hd. destruct Hd as [Hweek Hday].
        split; [ exact Hweek | ]. split; [ exact Hday | ].
        exists before, after. split; [ exact Heq | exact Hbefore ].
    + exfalso. apply nth_error_None in Hname.
      change (List.length DAYS_OF_WEEK) with 7%nat in Hname. lia.
  - intros dayName d Hin.
    unfold weekView, DAYS_OF_WEEK in Hin. cbn [map_indexed_from In] in Hin.
    repeat match type of Hin with
           | _ \/ _ => destruct Hin as [Hin | Hin]
           end; try contradiction;
      injection Hin as _ Hfind; apply find_some in Hfind; destruct Hfind as [_ Hday];
      [ exists 0 | exists 1 | exists 2 | exists 3 | exists 4 | exists 5 | exists 6 ];
      (split; [ lia | exact Hday ]).
Qed.

(** ** A score that is not a number *)

Lemma add_nan_r (x : number) : (x + nan)%float = nan.
Proof.
  apply Prim2SF_inj. rewrite add_spec.
  change (Prim2SF nan) with S754_nan.
  destruct (Prim2SF x) as [[|]|[|]| |[|] m e]; reflexivity.
Qed.

Lemma add_nan_l (x : number) : (nan + x)%float = nan.
Proof.
  apply Prim2SF_inj. rewrite add_spec.
  change (Prim2SF nan) with S754_nan.
  destruct (Prim2SF x) as [[|]|[|]| |[|] m e]; reflexivity.
Qed.

Lemma sum_nan (scores : list number) (sum : number) :
  sum = nan \/ In nan scores ->
  fold_left (fun sum score => (sum + score)%float) scores sum = nan.
Proof.
  revert sum. induction scores as [ | x scores IH]; intros sum [Hsum | Hin]; cbn [fold_left].
  - exact Hsum.
  - destruct Hin.
  - apply IH. left. subst sum. apply add_nan_l.
  - destruct Hin as [Hx | Hin].
    + apply IH. left. subst x. apply add_nan_r.
    + apply IH. right. exact Hin.
Qed.

(** X24: a single sub-score that is NaN makes the total NaN, whatever the
    other six are, and both risk displays put a NaN total in their last
    branch: getFMSRiskLevel says High Risk and the wizard shows red. *)
Theorem nan_score_is_rated_high_risk (scores : FMSSubScores) :
  In nan (Object_values scores) ->
  calculateFMSTotal scores = Return nan /\
  (total <- calculateFMSTotal scores ;; getFMSRiskLevel total) = Return highRisk /\
  fmsStepDisplay scores
  = Return ("text-red-600", "Higher injury risk - consider corrective exercises").
Proof.
  intros H.
  assert (Htotal : calculateFMSTotal scores = Return nan).
  { unfold calculateFMSTotal. f_equal. apply sum_nan. right. exact H. }
  unfold fmsStepDisplay. rewrite Htotal. repeat split.
Qed.

Lemma nan_score_is_rated_high_risk_witness :
  calculateFMSTotal (withScore allTwos key_hurdle_step nan) = Return nan /\
  (total <- calculateFMSTotal (withScore allTwos key_hurdle_step nan) ;; getFMSRiskLevel total)
  = Return highRisk /\
  fmsStepDisplay (withScore allTwos key_hurdle_step nan)
  = Return ("text-red-600", "Higher injury risk - consider corrective exercises").
Proof.
  apply (nan_score_is_rated_high_risk (withScore allTwos key_hurdle_step nan)).
  simpl. right. left. reflexivity.
Defined.
